(** * The phyp driver: remote execution, file transfer and the UUID table

    A shallow embedding of the core of [src/phyp/phyp_driver.c]: the
    routines that run a command over a libssh2 channel ([waitsocket],
    [phypExec], [phypExecBuffer], [phypExecInt]), the routines that keep
    the table of (lpar id, uuid) pairs ([phypUUIDTable_WriteFile],
    [phypUUIDTable_Push], [phypUUIDTable_RemLpar], [phypUUIDTable_AddLpar],
    [phypUUIDTable_ReadFile], [phypUUIDTable_Pull], [phypUUIDTable_Init],
    [phypGetLparUUID]) and the URI check of [phypConnectOpen]
    ([contains_specialcharacters]).

    The C code is single threaded and talks to three things outside the
    process: the libssh2 session, the local file [./uuid_table] and the
    allocator.  Each is modelled by a deterministic double kept in the
    [world] record; every C function becomes a function in the monad [M]
    that threads the world and may stop on undefined behaviour. *)

From Stdlib Require Import ZArith Lia List Strings.Byte.
From Stdlib Require Import Strings.String.
From Stdlib Require Import DecimalString.
From stdpp Require Import base tactics option list.
From coqutil Require Import Byte Word.LittleEndianList.

Local Open Scope Z_scope.

(** ** Constants *)

(** Values of the host C library and of libssh2 (Linux, libssh2.h). *)
Definition LIBSSH2_ERROR_EAGAIN : Z := -37.
Definition LIBSSH2_SESSION_BLOCK_INBOUND : Z := 1.
Definition LIBSSH2_SESSION_BLOCK_OUTBOUND : Z := 2.
Definition POLLIN : Z := 1.
Definition POLLOUT : Z := 4.
Definition EINTR : Z := 4.
Definition SIZE_MAX : Z := 2 ^ 64 - 1.
Definition INT_MAX : Z := 2 ^ 31 - 1.
Definition INT_MIN : Z := - 2 ^ 31.

(** [static unsigned const int HMC = 0;] and [IVM = 127]. *)
Definition HMC : Z := 0.
Definition IVM : Z := 127.

(** Modelled from the spec: [VIR_UUID_BUFLEN] (viruuid.h is not among the
    sources); the spec gives a 16-byte opaque identifier. *)
Definition VIR_UUID_BUFLEN : nat := 16.

(** Modelled from the spec: [sizeof(int)]; the spec gives a 4-byte
    integer id. *)
Definition sizeof_int : nat := 4.

(** Arithmetic on [size_t] wraps around. *)
Definition size_wrap (z : Z) : Z := z mod 2 ^ 64.

(** ** Data *)

(** A C string is kept as the bytes before its terminating NUL. *)
Abbreviation cstr := (list byte).

(** A string literal of the source. *)
Definition lit (s : string) : cstr := list_byte_of_string s.

Definition NUL : byte := Byte.x00.
Definition NL : byte := Byte.x0a.

(** [struct _lpar { unsigned char uuid[VIR_UUID_BUFLEN]; int id; }] *)
Record lpar : Type := mk_lpar { id : Z; uuid : list byte }.

(** A slot of the [lpars] array is a pointer: [None] is [NULL]. *)
Abbreviation lparPtr := (option lpar).

(** [struct _uuid_table { size_t nlpars; lparPtr *lpars; }].  The list is
    the allocated array; its length is the number of elements the last
    (re)allocation asked for, the empty list also stands for [NULL]. *)
Record uuid_table : Type := mk_table { nlpars : Z; lpars : list lparPtr }.

(** The part of [virConnect]/[phyp_driver] the routines read. *)
Record driver : Type := mk_driver {
  system_type : Z;
  managed_system : option cstr     (* [None] is NULL *)
}.

(** *** The local file system double: the one file [./uuid_table]. *)
Record fs_state : Type := mk_fs {
  file : option (list byte);   (* content; [None]: the file does not exist *)
  free_bytes : nat;            (* bytes the disk still accepts *)
  creat_ok : bool;             (* creat() succeeds *)
  open_ok : bool;              (* open()/fopen() of an existing file succeed *)
  close_ok : bool;             (* close() succeeds *)
  fread_ok : bool;             (* fread() does not report an error *)
  st_mode : Z                  (* mode bits reported by stat() *)
}.

(** *** The libssh2 double: scripted answers, consumed in order. *)

(** Answer of a call that opens a channel: the channel, or [NULL] with the
    session's last error. *)
Inductive chan_resp : Type :=
  | ChanOk
  | ChanNull (last_error : Z).

(** Answer of [libssh2_scp_recv]: the channel together with the remote
    file's [st_size], or [NULL] with the last error. *)
Inductive recv_resp : Type :=
  | RecvOk (st_size : Z)
  | RecvNull (last_error : Z).

(** Answer of [libssh2_channel_read]: bytes waiting on the channel (the
    call takes as many as fit; none waiting means end of stream, 0), or a
    negative return code. *)
Inductive read_resp : Type :=
  | ReadData (bs : list byte)
  | ReadErr (e : positive).

(** Answer of [libssh2_channel_write]: how many bytes the channel takes at
    most, or a negative return code. *)
Inductive write_resp : Type :=
  | WriteAccept (k : nat)
  | WriteErr (e : positive).

Record ssh_state : Type := mk_ssh {
  open_script : list chan_resp;       (* libssh2_channel_open_session *)
  exec_script : list Z;               (* libssh2_channel_exec *)
  read_script : list read_resp;       (* libssh2_channel_read *)
  close_script : list Z;              (* libssh2_channel_close *)
  remote_exit_status : Z;             (* libssh2_channel_get_exit_status *)
  scp_send_script : list chan_resp;   (* libssh2_scp_send *)
  write_script : list write_resp;     (* libssh2_channel_write *)
  scp_recv_script : list recv_resp;   (* libssh2_scp_recv *)
  block_directions : Z;               (* libssh2_session_block_directions *)
  poll_answer : nat -> Z * Z;         (* poll(): return value and errno of the n-th call *)
  polls : nat;                        (* poll() calls made so far *)
  sent_bytes : list byte              (* bytes the remote end received *)
}.

(** The call sites of [waitsocket]. *)
Inductive site : Type :=
  | AtOpen | AtExec | AtRead | AtClose   (* phypExec *)
  | AtRecv | AtPullRead.                 (* phypUUIDTable_Pull *)

(** What the doubles record. *)
Inductive event : Type :=
  | EvOpenSession
  | EvWait (s : site) (events : Z)
  | EvExec (cmd : cstr)
  | EvRead (rc : Z)
  | EvClose (rc : Z)
  | EvExitStatus
  | EvScpSend (mode size : Z)
  | EvScpRecv
  | EvChannelEnd        (* send_eof, wait_eof, wait_closed, free *)
  | EvCreat
  | EvOpenRead          (* open(local_file, O_RDONLY) *)
  | EvFopen             (* fopen(local_file, "rb") *)
  | EvUUIDGenerate
  | EvSSHSession.       (* openSSHSession *)

(** Undefined behaviour and the end of a script stop a run. *)
Inductive stop : Type :=
  | OutOfBounds (i : nat)   (* access past the end of an array *)
  | NullDeref               (* dereference of a NULL pointer *)
  | SignedOverflow          (* overflow of an [int] *)
  | NoResponse.             (* a double ran out of answers *)

Record world : Type := mk_world {
  tbl : uuid_table;
  drv : driver;
  heap : nat;                              (* allocations that still succeed *)
  fs : fs_state;
  ssh : ssh_state;
  uuid_source : list (Z * list byte);      (* virUUIDGenerate: return code and bytes *)
  session_source : list bool;              (* openSSHSession: a session, or NULL *)
  log : list event
}.

Definition set_tbl (t : uuid_table) (w : world) : world :=
  mk_world t (drv w) (heap w) (fs w) (ssh w) (uuid_source w) (session_source w) (log w).
Definition set_drv (d : driver) (w : world) : world :=
  mk_world (tbl w) d (heap w) (fs w) (ssh w) (uuid_source w) (session_source w) (log w).
Definition set_heap (h : nat) (w : world) : world :=
  mk_world (tbl w) (drv w) h (fs w) (ssh w) (uuid_source w) (session_source w) (log w).
Definition set_fs (f : fs_state) (w : world) : world :=
  mk_world (tbl w) (drv w) (heap w) f (ssh w) (uuid_source w) (session_source w) (log w).
Definition set_ssh (s : ssh_state) (w : world) : world :=
  mk_world (tbl w) (drv w) (heap w) (fs w) s (uuid_source w) (session_source w) (log w).
Definition set_uuid_source (u : list (Z * list byte)) (w : world) : world :=
  mk_world (tbl w) (drv w) (heap w) (fs w) (ssh w) u (session_source w) (log w).
Definition set_session_source (u : list bool) (w : world) : world :=
  mk_world (tbl w) (drv w) (heap w) (fs w) (ssh w) (uuid_source w) u (log w).
Definition add_log (e : event) (w : world) : world :=
  mk_world (tbl w) (drv w) (heap w) (fs w) (ssh w) (uuid_source w) (session_source w)
           (log w ++ [e]).

(** ** The monad *)

Inductive result (A : Type) : Type :=
  | Ok (a : A) (w : world)
  | Crash (s : stop) (w : world).
Arguments Ok {A} a w.
Arguments Crash {A} s w.

Definition M (A : Type) : Type := world -> result A.

#[global] Instance M_ret : MRet M := fun A a w => Ok a w.
#[global] Instance M_bind : MBind M := fun A B f m w =>
  match m w with
  | Ok a w' => f a w'
  | Crash s w' => Crash s w'
  end.

Definition crash {A : Type} (s : stop) : M A := fun w => Crash s w.
Definition gets {A : Type} (f : world -> A) : M A := fun w => Ok (f w) w.
Definition modify (f : world -> world) : M unit := fun w => Ok tt (f w).
Definition emit (e : event) : M unit := modify (add_log e).

(** A call the doubles record before they answer it. *)
Definition recorded {A : Type} (e : event) (f : world -> result A) : M A :=
  fun w => f (add_log e w).

(** The world a run ends in, whether it returned or stopped. *)
Definition world_of {A : Type} (r : result A) : world :=
  match r with Ok _ w => w | Crash _ w => w end.

(** ** The doubles *)

(** [VIR_ALLOC], [VIR_ALLOC_N], [VIR_REALLOC_N], [VIR_STRDUP], [virAsprintf]:
    the call succeeds while the heap has allocations left. *)
Definition alloc : M bool := fun w =>
  match heap w with
  | O => Ok false w
  | S h => Ok true (set_heap h w)
  end.

(** *** Local file *)

Definition set_file (c : option (list byte)) (free : nat) (f : fs_state) : fs_state :=
  mk_fs c free (creat_ok f) (open_ok f) (close_ok f) (fread_ok f) (st_mode f).

(** [creat(local_file, 0755)]: the file exists and is empty afterwards. *)
Definition creat : M bool :=
  recorded EvCreat (fun w =>
    if creat_ok (fs w)
    then Ok true (set_fs (set_file (Some []) (free_bytes (fs w)) (fs w)) w)
    else Ok false w).

(** [safewrite(fd, buf, count)]: appends [buf]; on a full disk what fits is
    written and the call returns -1. *)
Definition safewrite (buf : list byte) : M Z := fun w =>
  let f := fs w in
  let old := default [] (file f) in
  if (length buf <=? free_bytes f)%nat
  then Ok (Z.of_nat (length buf))
          (set_fs (set_file (Some (old ++ buf)) (free_bytes f - length buf) f) w)
  else Ok (-1)
          (set_fs (set_file (Some (old ++ take (free_bytes f) buf)) 0 f) w).

(** [VIR_CLOSE(fd)] *)
Definition VIR_CLOSE : M Z :=
  gets (fun w => if close_ok (fs w) then 0 else -1).

(** [open(local_file, O_RDONLY)] and [fopen(local_file, "rb")]. *)
Definition can_open (w : world) : bool :=
  match file (fs w) with
  | Some _ => open_ok (fs w)
  | None => false
  end.

Definition open_rdonly : M bool := emit EvOpenRead;; gets can_open.

Definition fopen_rb : M bool := emit EvFopen;; gets can_open.

(** [read(fd, buf, count)] at offset [pos]: the bytes obtained (fewer than
    [count] only at the end of the file). *)
Definition read_at (pos count : nat) : M (list byte) :=
  gets (fun w => take count (drop pos (default [] (file (fs w))))).

(** [stat(local_file, &st)]: [st_mode] and [st_size], or failure. *)
Definition stat_file : M (option (Z * Z)) :=
  gets (fun w => match file (fs w) with
                 | Some c => Some (st_mode (fs w), Z.of_nat (length c))
                 | None => None
                 end).

(** *** libssh2 *)

Definition set_open_script (l : list chan_resp) (s : ssh_state) : ssh_state :=
  mk_ssh l (exec_script s) (read_script s) (close_script s) (remote_exit_status s)
         (scp_send_script s) (write_script s) (scp_recv_script s) (block_directions s)
         (poll_answer s) (polls s) (sent_bytes s).
Definition set_exec_script (l : list Z) (s : ssh_state) : ssh_state :=
  mk_ssh (open_script s) l (read_script s) (close_script s) (remote_exit_status s)
         (scp_send_script s) (write_script s) (scp_recv_script s) (block_directions s)
         (poll_answer s) (polls s) (sent_bytes s).
Definition set_read_script (l : list read_resp) (s : ssh_state) : ssh_state :=
  mk_ssh (open_script s) (exec_script s) l (close_script s) (remote_exit_status s)
         (scp_send_script s) (write_script s) (scp_recv_script s) (block_directions s)
         (poll_answer s) (polls s) (sent_bytes s).
Definition set_close_script (l : list Z) (s : ssh_state) : ssh_state :=
  mk_ssh (open_script s) (exec_script s) (read_script s) l (remote_exit_status s)
         (scp_send_script s) (write_script s) (scp_recv_script s) (block_directions s)
         (poll_answer s) (polls s) (sent_bytes s).
Definition set_scp_send_script (l : list chan_resp) (s : ssh_state) : ssh_state :=
  mk_ssh (open_script s) (exec_script s) (read_script s) (close_script s)
         (remote_exit_status s) l (write_script s) (scp_recv_script s) (block_directions s)
         (poll_answer s) (polls s) (sent_bytes s).
Definition set_write_script (l : list write_resp) (sent : list byte) (s : ssh_state)
  : ssh_state :=
  mk_ssh (open_script s) (exec_script s) (read_script s) (close_script s)
         (remote_exit_status s) (scp_send_script s) l (scp_recv_script s)
         (block_directions s) (poll_answer s) (polls s) sent.
Definition set_scp_recv_script (l : list recv_resp) (s : ssh_state) : ssh_state :=
  mk_ssh (open_script s) (exec_script s) (read_script s) (close_script s)
         (remote_exit_status s) (scp_send_script s) (write_script s) l
         (block_directions s) (poll_answer s) (polls s) (sent_bytes s).
Definition set_polls (n : nat) (s : ssh_state) : ssh_state :=
  mk_ssh (open_script s) (exec_script s) (read_script s) (close_script s)
         (remote_exit_status s) (scp_send_script s) (write_script s) (scp_recv_script s)
         (block_directions s) (poll_answer s) n (sent_bytes s).

Definition libssh2_channel_open_session : M chan_resp :=
  recorded EvOpenSession (fun w =>
    match open_script (ssh w) with
    | [] => Crash NoResponse w
    | r :: rest => Ok r (set_ssh (set_open_script rest (ssh w)) w)
    end).

Definition libssh2_channel_exec (cmd : cstr) : M Z :=
  recorded (EvExec cmd) (fun w =>
    match exec_script (ssh w) with
    | [] => Crash NoResponse w
    | rc :: rest => Ok rc (set_ssh (set_exec_script rest (ssh w)) w)
    end).

(** [libssh2_channel_read(channel, buf, buflen)]: the return code and the
    bytes stored at the start of [buf]. *)
Definition libssh2_channel_read (buflen : nat) : M (Z * list byte) := fun w =>
  match read_script (ssh w) with
  | [] => Crash NoResponse w
  | ReadErr e :: rest =>
      Ok (Z.neg e, [])
         (add_log (EvRead (Z.neg e)) (set_ssh (set_read_script rest (ssh w)) w))
  | ReadData bs :: rest =>
      let got := take buflen bs in
      let script := if (length bs <=? buflen)%nat then rest
                    else ReadData (drop buflen bs) :: rest in
      Ok (Z.of_nat (length got), got)
         (add_log (EvRead (Z.of_nat (length got)))
                  (set_ssh (set_read_script script (ssh w)) w))
  end.

Definition libssh2_channel_close : M Z := fun w =>
  match close_script (ssh w) with
  | [] => Crash NoResponse w
  | rc :: rest => Ok rc (add_log (EvClose rc) (set_ssh (set_close_script rest (ssh w)) w))
  end.

Definition libssh2_channel_get_exit_status : M Z :=
  emit EvExitStatus;;
  gets (fun w => remote_exit_status (ssh w)).

Definition libssh2_scp_send (mode size : Z) : M chan_resp :=
  recorded (EvScpSend mode size) (fun w =>
    match scp_send_script (ssh w) with
    | [] => Crash NoResponse w
    | r :: rest => Ok r (set_ssh (set_scp_send_script rest (ssh w)) w)
    end).

Definition libssh2_scp_recv : M recv_resp :=
  recorded EvScpRecv (fun w =>
    match scp_recv_script (ssh w) with
    | [] => Crash NoResponse w
    | r :: rest => Ok r (set_ssh (set_scp_recv_script rest (ssh w)) w)
    end).

(** [libssh2_channel_write(channel, buffer + ptr, count)]: the channel takes
    the first bytes of the range, as many as it accepts; a range that leaves
    the buffer is an out-of-bounds read. *)
Definition libssh2_channel_write (buffer : list byte) (ptr count : Z) : M Z := fun w =>
  match write_script (ssh w) with
  | [] => Crash NoResponse w
  | WriteErr e :: rest =>
      Ok (Z.neg e) (set_ssh (set_write_script rest (sent_bytes (ssh w)) (ssh w)) w)
  | WriteAccept k :: rest =>
      let n := Z.min (Z.of_nat k) count in
      if Z.of_nat (length buffer) <? ptr + n
      then Crash (OutOfBounds (length buffer)) w
      else Ok n (set_ssh (set_write_script rest
                            (sent_bytes (ssh w)
                               ++ take (Z.to_nat n) (drop (Z.to_nat ptr) buffer))
                            (ssh w)) w)
  end.

(** [send_eof], [wait_eof], [wait_closed], [free] on a channel. *)
Definition channel_end : M unit := emit EvChannelEnd.

(** [virUUIDGenerate(uuid)]: the return code and the 16 bytes stored. *)
Definition virUUIDGenerate : M (Z * list byte) :=
  recorded EvUUIDGenerate (fun w =>
    match uuid_source w with
    | [] => Crash NoResponse w
    | (rc, bs) :: rest =>
        Ok (rc, take VIR_UUID_BUFLEN (bs ++ replicate VIR_UUID_BUFLEN NUL))
           (set_uuid_source rest w)
    end).

(** [openSSHSession(conn, auth, &internal_socket)]: sockets and
    authentication are outside the model; the double answers with a session
    or [NULL]. *)
Definition openSSHSession : M bool :=
  recorded EvSSHSession (fun w =>
    match session_source w with
    | [] => Crash NoResponse w
    | r :: rest => Ok r (set_session_source rest w)
    end).

(** ** waitsocket *)

(** [waitsocket(socket_fd, session)]: polls for the directions libssh2
    asks for, without timeout; the pair is poll's return value and
    [errno]. *)
Definition waitsocket (s : site) : M (Z * Z) :=
  dir ← gets (fun w => block_directions (ssh w));
  let ev_in := if Z.land dir LIBSSH2_SESSION_BLOCK_INBOUND =? 0 then 0 else POLLIN in
  let ev_out := if Z.land dir LIBSSH2_SESSION_BLOCK_OUTBOUND =? 0 then 0 else POLLOUT in
  emit (EvWait s (Z.lor ev_in ev_out));;
  n ← gets (fun w => polls (ssh w));
  modify (fun w => set_ssh (set_polls (S n) (ssh w)) w);;
  gets (fun w => poll_answer (ssh w) n).

(** The test [waitsocket(sock, session) < 0 && errno != EINTR]. *)
Definition wait_failed (r : Z * Z) : bool :=
  (r.1 <? 0) && negb (r.2 =? EINTR).

(** ** Strings and buffers *)

(** [strlen] over the bytes found at a pointer: the bytes before the first
    NUL.  The result equals the length of the list when no NUL is among
    them. *)
Fixpoint strlen (mem : list byte) : nat :=
  match mem with
  | [] => O
  | b :: rest => if Byte.eqb b NUL then O else S (strlen rest)
  end.

(** The string that remains when the first occurrence of [c] is
    overwritten with NUL ([nl = strchr(s, c); if (nl) *nl = 0]). *)
Fixpoint cut_at (c : byte) (s : cstr) : cstr :=
  match s with
  | [] => []
  | b :: rest => if Byte.eqb b c then [] else b :: cut_at c rest
  end.

(** Modelled from the spec: [virBuffer] (virbuffer.c is not among the
    sources), the accumulating buffer of the spec: the text gathered so far
    ([None] until something was added) and the error flag an allocation
    failure sets.  Every addition asks the allocator once. *)
Record virBuffer : Type := mk_buf { vb_content : option cstr; vb_error : bool }.

Definition VIR_BUFFER_INITIALIZER : virBuffer := mk_buf None false.

Definition virBufferAddStr (b : virBuffer) (s : cstr) : M virBuffer :=
  if vb_error b then mret b
  else
    ok ← alloc;
    if ok : bool
    then mret (mk_buf (Some (default [] (vb_content b) ++ s)) false)
    else mret (mk_buf None true).

(** [virBufferAdd(buf, mem, -1)]: adds the string that starts at [mem], an
    array without terminator is read past its end. *)
Definition virBufferAdd (b : virBuffer) (mem : list byte) : M virBuffer :=
  if vb_error b then mret b
  else if (length mem <=? strlen mem)%nat then crash (OutOfBounds (length mem))
  else virBufferAddStr b (take (strlen mem) mem).

(** Modelled from the spec: [virStrToLong_i(s, &end, 10, &result)]
    (virstring.c is not among the sources): fails when the text has no
    leading digits, otherwise yields the leading integer and the text that
    follows it; a value that does not fit an [int] is a failure. *)
Definition digit_val (b : byte) : option Z :=
  let n := byte.unsigned b in
  if (48 <=? n) && (n <=? 57) then Some (n - 48) else None.

Fixpoint parse_digits (acc : Z) (s : cstr) : Z * cstr :=
  match s with
  | [] => (acc, [])
  | b :: rest =>
      match digit_val b with
      | Some d => parse_digits (10 * acc + d) rest
      | None => (acc, s)
      end
  end.

Definition virStrToLong_i (s : cstr) : option (Z * cstr) :=
  match s with
  | [] => None
  | b :: _ =>
      match digit_val b with
      | None => None
      | Some _ =>
          let r := parse_digits 0 s in
          if r.1 <=? INT_MAX then Some r else None
      end
  end.

(** The outcome of a retry loop: its value, or the jump to [err] after a
    failed wait. *)
Inductive loop_res (A : Type) : Type :=
  | Done (a : A)
  | WaitFailed.
Arguments Done {A} a.
Arguments WaitFailed {A}.

Section Driver.

(** [SSH_CMD_ERR] is defined in phyp_driver.h, which is not among the
    sources. *)
Variable SSH_CMD_ERR : Z.

(** ** phypExec *)

(** [while ((channel = libssh2_channel_open_session(session)) == NULL &&
            libssh2_session_last_error(...) == LIBSSH2_ERROR_EAGAIN)
       if (waitsocket(sock, session) < 0 && errno != EINTR) goto err;]
    Each turn takes one answer of the script, [fuel] is set to more turns
    than the script has answers. *)
Fixpoint open_session_loop (fuel : nat) : M (loop_res chan_resp) :=
  match fuel with
  | O => crash NoResponse
  | S fuel' =>
      channel ← libssh2_channel_open_session;
      match channel with
      | ChanOk => mret (Done ChanOk)
      | ChanNull last_error =>
          if last_error =? LIBSSH2_ERROR_EAGAIN
          then
            p ← waitsocket AtOpen;
            if wait_failed p then mret WaitFailed else open_session_loop fuel'
          else mret (Done channel)
      end
  end.

(** [while ((rc = libssh2_channel_exec(channel, cmd)) == LIBSSH2_ERROR_EAGAIN) ...];
    the macro takes [strlen(cmd)], a NULL command is dereferenced. *)
Fixpoint exec_loop (fuel : nat) (cmd : option cstr) : M (loop_res Z) :=
  match fuel with
  | O => crash NoResponse
  | S fuel' =>
      match cmd with
      | None => crash NullDeref
      | Some c =>
          rc ← libssh2_channel_exec c;
          if rc =? LIBSSH2_ERROR_EAGAIN
          then
            p ← waitsocket AtExec;
            if wait_failed p then mret WaitFailed else exec_loop fuel' cmd
          else mret (Done rc)
      end
  end.

(** [size_t buffer_size = 16384] *)
Definition buffer_size : nat := Z.to_nat 16384.
#[global] Opaque buffer_size.

(** The [for (;;)] that drains the channel: reads while [rc > 0], waits on
    [LIBSSH2_ERROR_EAGAIN], leaves on any other code.  [bytecount] is
    never read and is left out. *)
Fixpoint read_loop (fuel : nat) (buffer : list byte) (tex_ret : virBuffer)
  : M (loop_res virBuffer) :=
  match fuel with
  | O => crash NoResponse
  | S fuel' =>
      r ← libssh2_channel_read buffer_size;
      let rc := r.1 in
      if 0 <? rc
      then
        let buffer' := r.2 ++ drop (length r.2) buffer in
        tex_ret' ← virBufferAdd tex_ret buffer';
        read_loop fuel' buffer' tex_ret'
      else if rc =? LIBSSH2_ERROR_EAGAIN
      then
        p ← waitsocket AtRead;
        if wait_failed p then mret WaitFailed else read_loop fuel' buffer tex_ret
      else mret (Done tex_ret)
  end.

(** Turns the read loop can take: one per answer and one per byte. *)
Definition read_fuel (script : list read_resp) : nat :=
  S (foldr (fun r n => match r with
                       | ReadData bs => S (length bs + n)
                       | ReadErr _ => S n
                       end) O script).

(** [while ((rc = libssh2_channel_close(channel)) == LIBSSH2_ERROR_EAGAIN) ...] *)
Fixpoint close_loop (fuel : nat) : M (loop_res Z) :=
  match fuel with
  | O => crash NoResponse
  | S fuel' =>
      rc ← libssh2_channel_close;
      if rc =? LIBSSH2_ERROR_EAGAIN
      then
        p ← waitsocket AtClose;
        if wait_failed p then mret WaitFailed else close_loop fuel'
      else mret (Done rc)
  end.

(** [phypExec(session, cmd, exit_status, conn)]: the returned string
    ([None] is NULL) and the value left in [*exit_status], which the caller
    passes in because one path returns without storing to it. *)
Definition phypExec (cmd : option cstr) (exit_status : Z) : M (option cstr * Z) :=
  let err : M (option cstr * Z) := mret (None, SSH_CMD_ERR) in
  ok ← alloc;                                    (* VIR_ALLOC_N(buffer, buffer_size) *)
  if negb ok then mret (None, exit_status)
  else
    fuel ← gets (fun w => S (length (open_script (ssh w))));
    channel ← open_session_loop fuel;
    match channel with
    | WaitFailed => err
    | Done (ChanNull _) => err                   (* channel == NULL *)
    | Done ChanOk =>
        fuel ← gets (fun w => S (length (exec_script (ssh w))));
        rc ← exec_loop fuel cmd;
        match rc with
        | WaitFailed => err
        | Done rc =>
            if negb (rc =? 0) then err
            else
              fuel ← gets (fun w => read_fuel (read_script (ssh w)));
              tex_ret ← read_loop fuel (replicate buffer_size NUL)
                                  VIR_BUFFER_INITIALIZER;
              match tex_ret with
              | WaitFailed => err
              | Done tex_ret =>
                  fuel ← gets (fun w => S (length (close_script (ssh w))));
                  rc ← close_loop fuel;          (* exitcode = 127; *)
                  match rc with
                  | WaitFailed => err
                  | Done rc =>
                      exitcode ← (if rc =? 0
                                  then libssh2_channel_get_exit_status
                                  else mret 127);
                      if vb_error tex_ret then mret (None, exitcode)
                      else mret (vb_content tex_ret, exitcode)
                  end
              end
        end
    end.

(** [phypExecBuffer(session, buf, exit_status, conn, strip_newline)] *)
Definition phypExecBuffer (buf : virBuffer) (exit_status : Z) (strip_newline : bool)
  : M (option cstr * Z) :=
  if vb_error buf then mret (None, exit_status)
  else
    r ← phypExec (vb_content buf) exit_status;   (* cmd = virBufferContentAndReset(buf) *)
    match r.1 with
    | Some ret =>
        if (r.2 =? 0) && strip_newline
        then mret (Some (cut_at NL ret), r.2)
        else mret r
    | None => mret r
    end.

(** [phypExecInt(session, buf, conn, result)]: the return value and the
    value left in [*result].  The local [ret] is read only when
    [phypExec] has stored to it. *)
Definition phypExecInt (buf : virBuffer) (result : Z) : M (Z * Z) :=
  r ← phypExecBuffer buf 0 true;
  match r.1 with
  | None => mret (-1, result)
  | Some str =>
      if negb (r.2 =? 0) then mret (-1, result)
      else match virStrToLong_i str with
           | None => mret (-1, result)
           | Some (v, _) => mret (0, v)
           end
  end.

(** [phypGetSystemType(conn)] *)
Definition phypGetSystemType : M Z :=
  r ← phypExec (Some (lit "lshmc -V"%string)) 0;
  mret r.2.

(** ** The table in memory *)

(** The 16 bytes of a [uuid] array that holds [u]. *)
Definition uuid_mem (u : list byte) : list byte :=
  take VIR_UUID_BUFLEN (u ++ replicate VIR_UUID_BUFLEN NUL).

(** The object representation of an [int] on the (little-endian) host and
    the [int] four bytes stand for. *)
Definition int_bytes (v : Z) : list byte := le_split sizeof_int v.

Definition bytes_int (bs : list byte) : Z :=
  let u := le_combine bs in
  if u <? 2 ^ 31 then u else u - 2 ^ 32.

#[global] Opaque uuid_mem int_bytes bytes_int.

Definition set_nlpars (n : Z) (w : world) : world :=
  set_tbl (mk_table n (lpars (tbl w))) w.
Definition set_lpars (l : list lparPtr) (w : world) : world :=
  set_tbl (mk_table (nlpars (tbl w)) l) w.

(** Reading through [uuid_table->lpars[i]->...]. *)
Definition load_lpar (i : nat) : M lpar := fun w =>
  match lpars (tbl w) !! i with
  | None => Crash (OutOfBounds i) w
  | Some None => Crash NullDeref w
  | Some (Some e) => Ok e w
  end.

(** Storing the pointer [uuid_table->lpars[i]]. *)
Definition store_slot (i : nat) (p : lparPtr) : M unit := fun w =>
  if (i <? length (lpars (tbl w)))%nat
  then Ok tt (set_lpars (<[i:=p]> (lpars (tbl w))) w)
  else Crash (OutOfBounds i) w.

(** Storing to the fields of [*uuid_table->lpars[i]]. *)
Definition store_lpar (i : nat) (e : lpar) : M unit :=
  load_lpar i;; store_slot i (Some e).

(** [phypGetLparUUID(uuid, lpar_id, conn)]: [Some u] is the return value 0
    with [u] copied to [uuid], [None] is -1. *)
Fixpoint GetLparUUID_loop (n i : nat) (lpar_id : Z) : M (option (list byte)) :=
  match n with
  | O => mret None
  | S n' =>
      e ← load_lpar i;
      if id e =? lpar_id
      then mret (Some (uuid_mem (uuid e)))
      else GetLparUUID_loop n' (S i) lpar_id
  end.

Definition phypGetLparUUID (lpar_id : Z) : M (option (list byte)) :=
  n ← gets (fun w => nlpars (tbl w));
  GetLparUUID_loop (Z.to_nat n) 0 lpar_id.

(** ** phypUUIDTable_WriteFile *)

(** The body of [for (i = 0; i < uuid_table->nlpars; i++)], [n] turns
    from index [i]; [false] is the jump to [err]. *)
Fixpoint WriteFile_loop (n i : nat) : M bool :=
  match n with
  | O => mret true
  | S n' =>
      e ← load_lpar i;
      r ← safewrite (int_bytes (id e));
      if negb (r =? Z.of_nat sizeof_int) then mret false
      else
        r ← safewrite (uuid_mem (uuid e));
        if negb (r =? Z.of_nat VIR_UUID_BUFLEN) then mret false
        else WriteFile_loop n' (S i)
  end.

Definition phypUUIDTable_WriteFile : M Z :=
  fd ← creat;
  if negb fd then mret (-1)
  else
    n ← gets (fun w => nlpars (tbl w));
    ok ← WriteFile_loop (Z.to_nat n) 0;
    if negb ok then mret (-1)
    else
      rc ← VIR_CLOSE;
      if rc <? 0 then mret (-1) else mret 0.

(** ** phypUUIDTable_Push *)

(** [do { channel = libssh2_scp_send(...); if (!channel && last_errno !=
    EAGAIN) goto cleanup; } while (!channel);] *)
Fixpoint scp_send_loop (fuel : nat) (mode size : Z) : M chan_resp :=
  match fuel with
  | O => crash NoResponse
  | S fuel' =>
      channel ← libssh2_scp_send mode size;
      match channel with
      | ChanOk => mret ChanOk
      | ChanNull e =>
          if e =? LIBSSH2_ERROR_EAGAIN then scp_send_loop fuel' mode size
          else mret channel
      end
  end.

(** The inner [do ... while (rc > 0 && sent < nread)]; [ptr] is the
    offset of [ptr] in [buffer], [nread] and [sent] are [size_t].  The
    [continue] on [LIBSSH2_ERROR_EAGAIN] goes to the loop test, which
    fails because [rc] is negative. *)
Fixpoint write_loop (fuel : nat) (buffer : list byte) (ptr nread sent : Z) : M unit :=
  match fuel with
  | O => crash NoResponse
  | S fuel' =>
      rc ← libssh2_channel_write buffer ptr nread;
      if rc =? LIBSSH2_ERROR_EAGAIN
      then mret tt
      else
        let sent' := if 0 <? rc then size_wrap (sent + rc) else sent in
        let ptr' := ptr + sent' in
        let nread' := size_wrap (nread - sent') in
        if (0 <? rc) && (sent' <? nread')
        then write_loop fuel' buffer ptr' nread' sent'
        else mret tt
  end.

(** [char buffer[1024]] *)
Definition push_block : nat := Z.to_nat 1024.
#[global] Opaque push_block.

(** The outer [do ... while (1)] from file offset [pos]; [true] is the
    [break] at the end of the file, [false] the read error. *)
Fixpoint push_loop (fuel : nat) (pos : nat) (buffer : list byte) : M bool :=
  match fuel with
  | O => crash NoResponse
  | S fuel' =>
      block ← read_at pos push_block;        (* fread(buffer, 1, sizeof(buffer), f) *)
      readable ← gets (fun w => fread_ok (fs w));
      if negb readable then mret false
      else
        match block with
        | [] => mret true                    (* nread <= 0 and feof(f) *)
        | _ =>
            let buffer' := block ++ drop (length block) buffer in
            wfuel ← gets (fun w => S (length (write_script (ssh w))));
            write_loop wfuel buffer' 0 (Z.of_nat (length block)) 0;;
            push_loop fuel' (pos + length block)%nat buffer'
        end
  end.

(** [phypUUIDTable_Push(conn)].  The stack array [buffer] starts out as
    zeroes. *)
Definition phypUUIDTable_Push : M Z :=
  ok ← alloc;                                  (* virAsprintf(&remote_file, ...) *)
  if negb ok then mret (-1)
  else
    st ← stat_file;
    match st with
    | None => mret (-1)
    | Some (mode, size) =>
        f ← fopen_rb;
        if negb f then mret (-1)
        else
          fuel ← gets (fun w => S (length (scp_send_script (ssh w))));
          channel ← scp_send_loop fuel (Z.land 511 mode) size;
          match channel with
          | ChanNull _ => mret (-1)
          | ChanOk =>
              fuel ← gets (fun w => S (length (default [] (file (fs w)))));
              ok ← push_loop fuel 0 (replicate push_block NUL);
              channel_end;;
              if ok : bool then mret 0 else mret (-1)
          end
    end.

(** ** phypUUIDTable_RemLpar and phypUUIDTable_AddLpar *)

(** The body of [for (i = 0; i <= uuid_table->nlpars; i++)], [n] turns
    from index [i]. *)
Fixpoint RemLpar_loop (n i : nat) (lpar_id : Z) : M unit :=
  match n with
  | O => mret tt
  | S n' =>
      e ← load_lpar i;
      (if id e =? lpar_id
       then store_lpar i (mk_lpar (-1) (replicate VIR_UUID_BUFLEN NUL))
       else mret tt);;
      RemLpar_loop n' (S i) lpar_id
  end.

Definition phypUUIDTable_RemLpar (lpar_id : Z) : M Z :=
  n ← gets (fun w => nlpars (tbl w));
  RemLpar_loop (Z.to_nat (n + 1)) 0 lpar_id;;
  rc ← phypUUIDTable_WriteFile;
  if rc =? -1 then mret (-1)
  else
    rc ← phypUUIDTable_Push;
    if rc =? -1 then mret (-1) else mret 0.

(** [VIR_REALLOC_N(uuid_table->lpars, count)]: on success the array has
    [count] slots and keeps the old ones. *)
Definition realloc_lpars (count : Z) : M bool :=
  ok ← alloc;
  if ok : bool
  then modify (fun w => set_lpars (resize (Z.to_nat count) None (lpars (tbl w))) w);;
       mret true
  else mret false.

Definition phypUUIDTable_AddLpar (new_uuid : list byte) (lpar_id : Z) : M Z :=
  n ← gets (fun w => nlpars (tbl w));
  let n' := size_wrap (n + 1) in               (* uuid_table->nlpars++ *)
  modify (set_nlpars n');;
  let i := Z.to_nat (size_wrap (n' - 1)) in    (* i = nlpars; i-- *)
  ok ← realloc_lpars n';
  if negb ok then mret (-1)
  else
    ok ← alloc;                                (* VIR_ALLOC(uuid_table->lpars[i]) *)
    if negb ok then store_slot i None;; mret (-1)
    else
      store_slot i (Some (mk_lpar lpar_id (uuid_mem new_uuid)));;
      rc ← phypUUIDTable_WriteFile;
      if rc =? -1 then mret (-1)
      else
        rc ← phypUUIDTable_Push;
        if rc =? -1 then mret (-1) else mret 0.

(** ** phypUUIDTable_ReadFile *)

(** The body of [for (i = 0; i < uuid_table->nlpars; i++)], [n] turns
    from index [i] and file offset [pos]; [false] is the jump to [err]. *)
Fixpoint ReadFile_loop (n i pos : nat) : M bool :=
  match n with
  | O => mret true
  | S n' =>
      bs ← read_at pos sizeof_int;             (* rc = read(fd, &id, sizeof(int)) *)
      if negb (length bs =? sizeof_int)%nat then mret false
      else
        ok ← alloc;                            (* VIR_ALLOC(uuid_table->lpars[i]) *)
        if negb ok then store_slot i None;; mret false
        else
          store_slot i (Some (mk_lpar (bytes_int bs) (replicate VIR_UUID_BUFLEN NUL)));;
          us ← read_at (pos + sizeof_int) VIR_UUID_BUFLEN;
          store_lpar i (mk_lpar (bytes_int bs) (uuid_mem us));;
          if negb (length us =? VIR_UUID_BUFLEN)%nat then mret false
          else ReadFile_loop n' (S i) (pos + sizeof_int + VIR_UUID_BUFLEN)
  end.

Definition phypUUIDTable_ReadFile : M Z :=
  fd ← open_rdonly;
  if negb fd then mret (-1)
  else
    n ← gets (fun w => nlpars (tbl w));
    ok ← alloc;                                (* VIR_ALLOC_N(uuid_table->lpars, nlpars) *)
    if ok : bool
    then
      modify (set_lpars (replicate (Z.to_nat n) None));;
      ok ← ReadFile_loop (Z.to_nat n) 0 0;
      if ok : bool then mret 0 else mret (-1)
    else
      modify (set_lpars []);;
      mret 0.

(** ** phypUUIDTable_Pull *)

(** [do { channel = libssh2_scp_recv(...); if (!channel) { if (last_errno
    != EAGAIN) goto cleanup; else if (waitsocket(...) < 0 && errno != EINTR)
    goto cleanup; } } while (!channel);] *)
Fixpoint scp_recv_loop (fuel : nat) : M (loop_res recv_resp) :=
  match fuel with
  | O => crash NoResponse
  | S fuel' =>
      channel ← libssh2_scp_recv;
      match channel with
      | RecvOk _ => mret (Done channel)
      | RecvNull e =>
          if negb (e =? LIBSSH2_ERROR_EAGAIN) then mret (Done channel)
          else
            p ← waitsocket AtRecv;
            if wait_failed p then mret WaitFailed else scp_recv_loop fuel'
      end
  end.

(** The [while (got < fileinfo.st_size)] loop, entered with
    [got < st_size]: one turn is one [libssh2_channel_read].  [got] is an
    [int]; [total] is never read and is left out. *)
Fixpoint pull_loop (fuel : nat) (got st_size : Z) : M (loop_res unit) :=
  match fuel with
  | O => crash NoResponse
  | S fuel' =>
      let amount := if st_size - got <? 1024 then st_size - got else 1024 in
      r ← libssh2_channel_read (Z.to_nat amount);
      let rc := r.1 in
      if 0 <? rc
      then
        safewrite r.2;;                        (* a short write is only logged *)
        if INT_MAX <? got + rc then crash SignedOverflow
        else pull_loop fuel' (got + rc) st_size
      else if (rc =? LIBSSH2_ERROR_EAGAIN) && (got <? st_size)
      then
        p ← waitsocket AtPullRead;
        if wait_failed p then mret WaitFailed else pull_loop fuel' got st_size
      else mret (Done tt)
  end.

Definition phypUUIDTable_Pull : M Z :=
  ok ← alloc;                                  (* virAsprintf(&remote_file, ...) *)
  if negb ok then mret (-1)
  else
    fuel ← gets (fun w => S (length (scp_recv_script (ssh w))));
    channel ← scp_recv_loop fuel;
    match channel with
    | WaitFailed => mret (-1)
    | Done (RecvNull _) => mret (-1)
    | Done (RecvOk st_size) =>
        fd ← creat;
        if negb fd then channel_end;; mret (-1)
        else
          fuel ← gets (fun w => read_fuel (read_script (ssh w)));
          r ← (if 0 <? st_size then pull_loop fuel 0 st_size else mret (Done tt));
          match r with
          | WaitFailed => channel_end;; mret (-1)
          | Done _ =>
              rc ← VIR_CLOSE;
              channel_end;;
              if rc <? 0 then mret (-1) else mret 0
          end
    end.

(** ** The enumerations phypUUIDTable_Init starts from *)

(** [" -m %s"] with [managed_system]; a NULL argument prints as
    ["(null)"]. *)
Definition opt_m (d : driver) : cstr :=
  if system_type d =? HMC
  then lit " -m "%string ++ default (lit "(null)"%string) (managed_system d)
  else [].

Definition quoted (s : string) : cstr := [Byte.x22] ++ lit s ++ [Byte.x22].

(** [phypConnectNumOfDomainsGeneric(conn, type)] *)
Definition phypConnectNumOfDomainsGeneric (type : Z) : M Z :=
  d ← gets drv;
  let state :=
    if type =? 0 then lit "|grep Running"%string
    else if type =? 1
    then (if system_type d =? HMC
          then lit "|grep "%string ++ quoted "Not Activated"%string
          else lit "|grep "%string ++ quoted "Open Firmware"%string)
    else lit " "%string in
  buf ← virBufferAddStr VIR_BUFFER_INITIALIZER (lit "lssyscfg -r lpar"%string);
  buf ← (if system_type d =? HMC then virBufferAddStr buf (opt_m d) else mret buf);
  buf ← virBufferAddStr buf (lit " -F lpar_id,state "%string ++ state
                               ++ lit " |grep -c '^[0-9][0-9]*'"%string);
  r ← phypExecInt buf (-1);                    (* int ndom = -1; *)
  mret r.2.

(** The loop that moves [line] past the newlines that follow a number. *)
Fixpoint skip_newlines (line : cstr) : cstr :=
  match line with
  | [] => []
  | b :: rest => if Byte.eqb b NL then skip_newlines rest else line
  end.

(** The parsing loop (while [line] is not at its end and [got < nids]); every turn that goes
    on has taken at least one digit from [line], [fuel] is set to more
    turns than [line] has bytes. *)
Fixpoint parse_ids (fuel : nat) (line : cstr) (got nids : Z) (ids : list Z)
  : Z * list Z :=
  match fuel with
  | O => (got, ids)
  | S fuel' =>
      match line with
      | [] => (got, ids)
      | _ =>
          if got <? nids
          then match virStrToLong_i line with
               | None => (-1, ids)
               | Some (v, next_line) =>
                   parse_ids fuel' (skip_newlines next_line) (got + 1) nids
                             (<[Z.to_nat got := v]> ids)
               end
          else (got, ids)
      end
  end.

(** [phypConnectListDomainsGeneric(conn, ids, nids, type)]: the return
    value and the array [ids]. *)
Definition phypConnectListDomainsGeneric (ids : list Z) (nids : Z) (type : Z)
  : M (Z * list Z) :=
  d ← gets drv;
  let state := if type =? 0 then lit "|grep Running"%string else lit " "%string in
  buf ← virBufferAddStr VIR_BUFFER_INITIALIZER (lit "lssyscfg -r lpar"%string);
  buf ← (if system_type d =? HMC then virBufferAddStr buf (opt_m d) else mret buf);
  buf ← virBufferAddStr buf (lit " -F lpar_id,state "%string ++ state
                               ++ lit " | sed -e 's/,.*$//'"%string);
  r ← phypExecBuffer buf 0 false;
  match r.1 with
  | None => mret (-1, ids)
  | Some ret =>
      if r.2 <? 0 then mret (-1, ids)
      else mret (parse_ids (S (length ret)) ret 0 nids ids)
  end.

(** [phypGetVIOSPartitionID(conn)] *)
Definition phypGetVIOSPartitionID : M Z :=
  d ← gets drv;
  buf ← virBufferAddStr VIR_BUFFER_INITIALIZER (lit "lssyscfg"%string);
  buf ← (if system_type d =? HMC then virBufferAddStr buf (opt_m d) else mret buf);
  buf ← virBufferAddStr buf
          (lit " -r lpar -F lpar_id,lpar_env|sed -n '/vioserver/ {"%string
             ++ [NL] ++ lit " s/,.*$//"%string ++ [NL] ++ lit " p"%string
             ++ [NL] ++ lit "}'"%string);
  r ← phypExecInt buf (-1);                    (* int id = -1; *)
  mret r.2.

(** ** phypUUIDTable_Init and phypUUIDTable_Free *)

(** [for (i = 0; i < nlpars; i++) VIR_FREE(lpars[i]); VIR_FREE(lpars);]
    reads every slot below [nlpars]. *)
Definition free_lpars : M unit := fun w =>
  if (length (lpars (tbl w)) <? Z.to_nat (nlpars (tbl w)))%nat
  then Crash (OutOfBounds (length (lpars (tbl w)))) w
  else Ok tt (set_lpars [] w).

(** The loop that creates one entry per live id, [n] turns from index
    [i]; [false] is the jump to [cleanup]. *)
Fixpoint Init_create (n i : nat) (ids : list Z) : M bool :=
  match n with
  | O => mret true
  | S n' =>
      ok ← alloc;                              (* VIR_ALLOC(uuid_table->lpars[i]) *)
      if negb ok then store_slot i None;; mret false
      else
        match ids !! i with
        | None => crash (OutOfBounds i)
        | Some v =>
            g ← virUUIDGenerate;               (* a failure is only logged *)
            store_slot i (Some (mk_lpar v g.2));;
            Init_create n' (S i) ids
        end
  end.

(** The [cleanup:] label of [phypUUIDTable_Init]. *)
Definition Init_cleanup (ret : Z) (table_created : bool) : M Z :=
  (if (ret <? 0) && table_created then free_lpars else mret tt);;
  mret ret.

(** The second half of [phypUUIDTable_Init], from
    [uuid_table->nlpars = nids_listdomains] on: the table is pulled from
    the server, and created when that fails. *)
Definition Init_table (nids_listdomains : Z) (ids : list Z) : M Z :=
  modify (set_nlpars nids_listdomains);;
  rc ← phypUUIDTable_Pull;
  if rc =? -1
  then                                         (* table_created = true *)
    ok ← alloc;                                (* VIR_ALLOC_N(uuid_table->lpars, nlpars) *)
    if negb ok then modify (set_lpars []);; Init_cleanup (-1) true
    else
      modify (set_lpars (replicate (Z.to_nat nids_listdomains) None));;
      ok ← Init_create (Z.to_nat nids_listdomains) 0 ids;
      if negb ok then Init_cleanup (-1) true
      else
        rc ← phypUUIDTable_WriteFile;
        if rc =? -1 then Init_cleanup (-1) true
        else
          rc ← phypUUIDTable_Push;
          if rc =? -1 then Init_cleanup (-1) true
          else Init_cleanup 0 true
  else
    rc ← phypUUIDTable_ReadFile;
    if rc =? -1 then Init_cleanup (-1) false
    else Init_cleanup 0 false.

Definition phypUUIDTable_Init : M Z :=
  nids_numdomains ← phypConnectNumOfDomainsGeneric 2;
  if nids_numdomains <? 0 then Init_cleanup (-1) false
  else
    ok ← alloc;                                (* VIR_ALLOC_N(ids, nids_numdomains) *)
    if negb ok then Init_cleanup (-1) false
    else
      r ← phypConnectListDomainsGeneric
            (replicate (Z.to_nat nids_numdomains) 0) nids_numdomains 1;
      let nids_listdomains := r.1 in
      let ids := r.2 in
      if nids_listdomains <? 0 then Init_cleanup (-1) false
      else if (nids_numdomains =? 0) && (nids_listdomains =? 0)
      then Init_cleanup 0 false                (* no domains *)
      else if negb (nids_numdomains =? nids_listdomains)
      then Init_cleanup (-1) false
      else Init_table nids_listdomains ids.

(** [phypUUIDTable_Free(uuid_table)] for a table that is not NULL. *)
Definition phypUUIDTable_Free : M unit :=
  free_lpars;; modify (set_tbl (mk_table 0 [])).

(** ** contains_specialcharacters and phypConnectOpen *)

(** [SPECIALCHARACTER_CASES] *)
Definition is_specialcharacter (c : byte) : bool :=
  match c with
  | "&"%byte | ";"%byte | "`"%byte | "@"%byte | Byte.x22 | "|"%byte | "*"%byte
  | "?"%byte | "~"%byte | "<"%byte | ">"%byte | "^"%byte | "("%byte | ")"%byte
  | "["%byte | "]"%byte | "{"%byte | "}"%byte | "$"%byte | "%"%byte | "#"%byte
  | Byte.x5c | Byte.x0a | Byte.x0d | Byte.x09 => true
  | _ => false
  end.

(** [for (i = 0; i < len; i++) switch (src[i]) ...], [n] turns from
    index [i]. *)
Fixpoint specialcharacters_loop (n i : nat) (src : list byte) : bool :=
  match n with
  | O => false
  | S n' =>
      match src !! i with
      | None => false
      | Some c =>
          if is_specialcharacter c then true
          else specialcharacters_loop n' (S i) src
      end
  end.

(** [contains_specialcharacters(src)]; [src] is the memory at the pointer,
    the string ends at its first NUL. *)
Definition contains_specialcharacters (src : list byte) : bool :=
  let len := strlen src in
  if (len =? 0)%nat then false
  else specialcharacters_loop len 0 src.

(** [virDrvOpenStatus] (driver.h) *)
Inductive virDrvOpenStatus : Type :=
  | VIR_DRV_OPEN_SUCCESS
  | VIR_DRV_OPEN_DECLINED
  | VIR_DRV_OPEN_ERROR.

(** The fields of [virURI] and [virConnect] the function reads. *)
Record virURI : Type := mk_uri {
  scheme : option cstr;
  server : option cstr;
  path : option (list byte)
}.

Record virConnect : Type := mk_conn { uri : option virURI }.

(** [virCheckFlags] and [VIR_CONNECT_RO] come from headers that are not
    among the sources: the test for unsupported flag bits, given the
    supported ones, is a parameter. *)
Variable VIR_CONNECT_RO : Z.
Variable flags_unsupported : Z -> Z -> bool.

#[local] Instance byte_eq_dec : EqDecision byte := Byte.byte_eq_dec.

(** [managed_system]: the path without its leading slash, up to the next
    slash. *)
Definition first_component (p : list byte) : cstr :=
  let s := take (strlen p) p in
  cut_at "/"%byte (match s with
                   | b :: rest => if Byte.eqb b "/"%byte then rest else s
                   | [] => s
                   end).

(** The [failure:] label; [uuid_table] tells whether the table was
    allocated. *)
Definition open_failure (uuid_table : bool) : M virDrvOpenStatus :=
  (if uuid_table then phypUUIDTable_Free else mret tt);;
  mret VIR_DRV_OPEN_ERROR.

(** The part of [phypConnectOpen] from [openSSHSession] on. *)
Definition open_session_and_init (managed : option cstr) : M virDrvOpenStatus :=
  session ← openSSHSession;
  if negb session then open_failure true
  else
    modify (set_tbl (mk_table 0 []));;
    modify (set_drv (mk_driver 0 managed));;
    caps ← alloc;                              (* phypCapsInit() *)
    if negb caps then open_failure true
    else
      xmlopt ← alloc;                          (* virDomainXMLOptionNew(...) *)
      if negb xmlopt then open_failure true
      else
        st ← phypGetSystemType;
        modify (set_drv (mk_driver st managed));;
        if st =? -1 then open_failure true
        else
          rc ← phypUUIDTable_Init;
          if rc =? -1 then open_failure true
          else if st =? HMC
          then
            vios ← phypGetVIOSPartitionID;
            if vios =? -1 then open_failure true
            else mret VIR_DRV_OPEN_SUCCESS
          else mret VIR_DRV_OPEN_SUCCESS.

Definition phypConnectOpen (conn : option virConnect) (flags : Z)
  : M virDrvOpenStatus :=
  if flags_unsupported VIR_CONNECT_RO flags then mret VIR_DRV_OPEN_ERROR
  else
    match conn ≫= uri with
    | None => mret VIR_DRV_OPEN_DECLINED
    | Some u =>
        match scheme u with
        | None => mret VIR_DRV_OPEN_DECLINED
        | Some s =>
            if negb (bool_decide (s = lit "phyp"%string))
            then mret VIR_DRV_OPEN_DECLINED
            else
              match server u with
              | None => mret VIR_DRV_OPEN_ERROR
              | Some _ =>
                  ok ← alloc;                  (* VIR_ALLOC(phyp_driver) *)
                  if negb ok then open_failure false
                  else
                    ok ← alloc;                (* VIR_ALLOC(uuid_table) *)
                    if negb ok then open_failure false
                    else
                      modify (set_tbl (mk_table 0 []));;
                      ok ← alloc;              (* VIR_ALLOC(connection_data) *)
                      if negb ok then open_failure true
                      else
                        match path u with
                        | None => open_session_and_init None
                        | Some p =>
                            ok ← alloc;        (* VIR_STRDUP(managed_system, ...) *)
                            if negb ok then open_failure true
                            else if contains_specialcharacters p
                            then open_failure true
                            else open_session_and_init (Some (first_component p))
                        end
              end
        end
    end.

(** ** escape_specialcharacters *)

(** The body of [for (i = 0; i < len; i++)] followed by the store of the
    terminator, [n] turns from index [i] of [src]; [j] is the index in
    [dst]. *)
Fixpoint escape_loop (n i j : nat) (src dst : list byte) : M (list byte) :=
  match n with
  | O =>
      if (j <? length dst)%nat then mret (<[j:=NUL]> dst)     (* dst[j] = 0 *)
      else crash (OutOfBounds j)
  | S n' =>
      match src !! i with
      | None => crash (OutOfBounds i)
      | Some c =>
          if is_specialcharacter c then escape_loop n' (S i) j src dst
          else if (j <? length dst)%nat
          then escape_loop n' (S i) (S j) src (<[j:=c]> dst)
          else crash (OutOfBounds j)
      end
  end.

(** [escape_specialcharacters(src)]; [src] is the memory at the pointer,
    the result is the string found in [dst] ([None] is NULL). *)
Definition escape_specialcharacters (src : list byte) : M (option cstr) :=
  let len := strlen src in
  if (len =? 0)%nat then mret None
  else
    ok ← alloc;                                (* VIR_ALLOC_N(dst, len + 1) *)
    if negb ok then mret None
    else
      dst ← escape_loop len 0 0 src (replicate (len + 1) NUL);
      mret (Some (take (strlen dst) dst)).

(** ** phypConnectListDefinedDomains *)

(** The text after the first [c] of a string ([strchr(s, c) + 1]), if
    there is one. *)
Fixpoint after_char (c : byte) (s : cstr) : option cstr :=
  match s with
  | [] => None
  | b :: rest => if Byte.eqb b c then Some rest else after_char c rest
  end.

(** The loop that runs as long as [got < nnames]: every turn that goes on has taken a line,
    newline included, from [domains]; [fuel] is set to more turns than
    [domains] has bytes.  The result is [success], [got] and the array
    [names], whose slots are pointers ([None] is NULL). *)
Fixpoint names_loop (fuel : nat) (domains : cstr) (got nnames : Z)
    (names : list (option cstr)) : M (bool * Z * list (option cstr)) :=
  match fuel with
  | O => crash NoResponse
  | S fuel' =>
      if got <? nnames
      then match after_char NL domains with
           | Some next =>
               if (Z.to_nat got <? length names)%nat
               then
                 ok ← alloc;                   (* VIR_STRDUP(names[got++], domains) *)
                 if ok : bool
                 then names_loop fuel' next (got + 1) nnames
                        (<[Z.to_nat got := Some (cut_at NL domains)]> names)
                 else mret (false, got + 1, <[Z.to_nat got := None]> names)
               else crash (OutOfBounds (Z.to_nat got))
           | None => mret (true, got, names)
           end
      else mret (true, got, names)
  end.

(** [for (i = 0; i < got; i++) VIR_FREE(names[i]);], [n] turns from
    index [i]. *)
Fixpoint free_names (n i : nat) (names : list (option cstr)) : list (option cstr) :=
  match n with
  | O => names
  | S n' => free_names n' (S i) (<[i:=None]> names)
  end.

(** The part of [phypConnectListDefinedDomains] that follows the call of
    [phypExecBuffer], whose result and exit status are [r]. *)
Definition ListDefinedDomains_names (r : option cstr * Z)
    (names : list (option cstr)) (nnames : Z) : M (Z * list (option cstr)) :=
  match r.1 with
  | None => mret (-1, names)
  | Some ret =>
      if r.2 <? 0 then mret (-1, names)
      else
        res ← names_loop (S (length ret)) ret 0 nnames names;
        if res.1.1 : bool then mret (res.1.2, res.2)
        else mret (-1, free_names (Z.to_nat res.1.2) 0 res.2)
  end.

(** [phypConnectListDefinedDomains(conn, names, nnames)]: the return
    value and the array [names]. *)
Definition phypConnectListDefinedDomains (names : list (option cstr)) (nnames : Z)
  : M (Z * list (option cstr)) :=
  d ← gets drv;
  buf ← virBufferAddStr VIR_BUFFER_INITIALIZER (lit "lssyscfg -r lpar"%string);
  buf ← (if system_type d =? HMC then virBufferAddStr buf (opt_m d) else mret buf);
  buf ← virBufferAddStr buf
          (lit " -F name,state|sed -n '/Not Activated/ {"%string
             ++ [NL] ++ lit " s/,.*$//"%string ++ [NL] ++ lit " p"%string
             ++ [NL] ++ lit "}'"%string);
  r ← phypExecBuffer buf 0 false;
  ListDefinedDomains_names r names nnames.

(** ** Operations on a domain *)


(** What [printf] writes for ["%d"] and an [int]. *)
Definition fmt_d (v : Z) : cstr := lit (NilZero.string_of_int (Z.to_int v)).




(** The fields of [virDomainDef] and of its disks that [phypBuildLpar]
    reads; [disks] is the array of [ndisks] disks. *)
Record virDomainDiskDef : Type := mk_disk { disk_src : option cstr }.

Record virDomainDef : Type := mk_def {
  def_name : option cstr;
  def_id : Z;
  def_uuid : list byte;
  cur_balloon : Z;               (* unsigned long long *)
  max_balloon : Z;               (* unsigned long long *)
  def_vcpus : Z;                 (* unsigned short *)
  disks : list virDomainDiskDef
}.

(** What [printf] writes for ["%lld"] and an [unsigned long long]. *)
Definition fmt_lld (v : Z) : cstr :=
  fmt_d (if v <? 2 ^ 63 then v else v - 2 ^ 64).

(** [phypBuildLpar(conn, def)] *)
Definition phypBuildLpar (def : virDomainDef) : M Z :=
  if cur_balloon def =? 0 then mret (-1)
  else if max_balloon def =? 0 then mret (-1)
  else
    match disks def with
    | [] => mret (-1)                          (* def->ndisks < 1 *)
    | disk :: _ =>
        match disk_src disk with
        | None => mret (-1)
        | Some src =>
            d ← gets drv;
            buf ← virBufferAddStr VIR_BUFFER_INITIALIZER (lit "mksyscfg"%string);
            buf ← (if system_type d =? HMC then virBufferAddStr buf (opt_m d)
                   else mret buf);
            buf ← virBufferAddStr buf
                    (lit " -r lpar -p "%string
                       ++ default (lit "(null)"%string) (def_name def)
                       ++ lit " -i min_mem="%string ++ fmt_lld (cur_balloon def)
                       ++ lit ",desired_mem="%string ++ fmt_lld (cur_balloon def)
                       ++ lit ",max_mem="%string ++ fmt_lld (max_balloon def)
                       ++ lit ",desired_procs="%string ++ fmt_d (def_vcpus def)
                       ++ lit ",virtual_scsi_adapters="%string ++ src);
            r ← phypExecBuffer buf 0 false;
            if r.2 <? 0 then mret (-1)
            else
              rc ← phypUUIDTable_AddLpar (def_uuid def) (def_id def);
              if rc =? -1 then mret (-1) else mret 0
        end
    end.

(** ** Properties of states and runs *)

(** A table as the routines leave it: [nlpars] counts the slots of the
    array, which fits the address space, and every slot points to an
    entry whose [uuid] array has its 16 bytes. *)
Definition valid_table (t : uuid_table) : Prop :=
  nlpars t = Z.of_nat (length (lpars t))
  /\ nlpars t < SIZE_MAX
  /\ Forall (fun p => exists e, p = Some e /\ length (uuid e) = VIR_UUID_BUFLEN)
            (lpars t).

(** An entry of the file format: a 4-byte integer id and a 16-byte uuid. *)
Definition wf_lpar (e : lpar) : Prop :=
  INT_MIN <= id e <= INT_MAX /\ length (uuid e) = VIR_UUID_BUFLEN.

(** The record [WriteFile] stores for an entry: id, then uuid. *)
Definition record_bytes (e : lpar) : list byte :=
  int_bytes (id e) ++ uuid_mem (uuid e).

(** What [RemLpar] leaves of an entry. *)
Definition tombstone (lpar_id : Z) (p : lparPtr) : lparPtr :=
  match p with
  | Some e => if id e =? lpar_id
              then Some (mk_lpar (-1) (replicate VIR_UUID_BUFLEN NUL))
              else Some e
  | None => None
  end.

(** The number of [waitsocket] calls made at a call site. *)
Definition is_wait (s : site) (e : event) : bool :=
  match e, s with
  | EvWait AtOpen _, AtOpen | EvWait AtExec _, AtExec | EvWait AtRead _, AtRead
  | EvWait AtClose _, AtClose | EvWait AtRecv _, AtRecv
  | EvWait AtPullRead _, AtPullRead => true
  | _, _ => false
  end.

Definition count_waits (s : site) (l : list event) : nat :=
  length (List.filter (is_wait s) l).

(** The uuid [phypGetLparUUID] copies out of a list of slots: that of the
    first entry with the id. *)
Fixpoint first_uuid (lpar_id : Z) (l : list lparPtr) : option (list byte) :=
  match l with
  | [] => None
  | Some e :: rest =>
      if id e =? lpar_id then Some (uuid_mem (uuid e)) else first_uuid lpar_id rest
  | None :: rest => first_uuid lpar_id rest
  end.

(** What a sequence of reads adds to the output of [phypExec] when the
    read buffer held [prev] before: every chunk, each followed by the bytes
    that the buffer still holds past the end of the chunk. *)
Fixpoint with_stale (prev : list byte) (chunks : list (list byte)) : list byte :=
  match chunks with
  | [] => []
  | c :: cs =>
      let piece := c ++ drop (length c) prev in
      piece ++ with_stale piece cs
  end.

(** A chunk of output that one read delivers: not empty, without NUL byte
    and shorter than the read buffer. *)
Definition text_chunk (c : list byte) : Prop :=
  c <> [] /\ ~ In NUL c /\ (length c < buffer_size)%nat.

(** The lengths of the chunks do not decrease. *)
Fixpoint growing (n : nat) (chunks : list (list byte)) : Prop :=
  match chunks with
  | [] => True
  | c :: cs => (n <= length c)%nat /\ growing (length c) cs
  end.

(** The operations on the table, and a run of a sequence of them, which
    ends where an operation stops. *)
Inductive table_op : Type :=
  | OpAdd (new_uuid : list byte) (lpar_id : Z)
  | OpRemove (lpar_id : Z)
  | OpLookup (lpar_id : Z).

Definition run_op (o : table_op) : M unit :=
  match o with
  | OpAdd u i => phypUUIDTable_AddLpar u i;; mret tt
  | OpRemove i => phypUUIDTable_RemLpar i;; mret tt
  | OpLookup i => phypGetLparUUID i;; mret tt
  end.

Fixpoint run_ops (ops : list table_op) (w : world) : world :=
  match ops with
  | [] => w
  | o :: rest =>
      match run_op o w with
      | Ok _ w' => run_ops rest w'
      | Crash _ w' => w'
      end
  end.

(** Predicates on events and parts of the world the proofs follow. *)
Abbreviation no_open_wait := (fun e : event => is_wait AtOpen e = false).
Abbreviation no_close := (fun e : event => forall rc : Z, e <> EvClose rc).
Abbreviation no_open_read := (fun e : event => e <> EvOpenRead).
Abbreviation no_exec := (fun e : event => forall cmd : cstr, e <> EvExec cmd).
Abbreviation exit_status_of := (fun w : world => remote_exit_status (ssh w)).
Abbreviation entry_count := (fun w : world => nlpars (tbl w)).
Abbreviation slot_count := (fun w : world => length (lpars (tbl w))).

(** A relation between the world before a run and the world it ends in. *)
Definition steps (R : world -> world -> Prop) {A : Type} (m : M A) : Prop :=
  forall w, R w (world_of (m w)).

(** The log grew by events that satisfy [P]. *)
Definition log_ext (P : event -> Prop) (w w' : world) : Prop :=
  exists l, log w' = log w ++ l /\ Forall P l.

(** The part [f] of the world is as it was. *)
Definition same {B : Type} (f : world -> B) (w w' : world) : Prop := f w' = f w.

(** What the file system double answers, apart from the content of the
    file and the room on the disk. *)
Definition fs_answers (w : world) : bool * bool * bool * bool * Z :=
  (creat_ok (fs w), open_ok (fs w), close_ok (fs w), fread_ok (fs w), st_mode (fs w)).

(** What running a command on the server leaves alone: the table, the
    local file and the driver data stay, and no file transfer is started. *)
Definition no_transfer (e : event) : Prop :=
  e <> EvScpRecv /\ e <> EvCreat /\ forall mode size : Z, e <> EvScpSend mode size.

Definition command_only (w w' : world) : Prop :=
  tbl w' = tbl w /\ fs w' = fs w /\ drv w' = drv w
  /\ exists l, log w' = log w ++ l /\ Forall no_transfer l.

(** The connection's driver data is as it was and the log has only grown:
    what holds between the worlds before and after every routine below
    [phypConnectOpen]. *)
Definition quiet (w w' : world) : Prop :=
  drv w' = drv w /\ exists l, log w' = log w ++ l.

(** ** Doubles for the examples *)

(** A wait that always reports the socket ready. *)
Definition always_ready : nat -> Z * Z := fun _ => (1, 0).

Definition idle_ssh : ssh_state := mk_ssh [] [] [] [] 0 [] [] [] 0 always_ready 0 [].

(** A disk with room, on which every call succeeds; mode 0644. *)
Definition plain_fs (c : option (list byte)) : fs_state :=
  mk_fs c 4096 true true true true 420.

Definition idle_world : world :=
  mk_world (mk_table 0 []) (mk_driver 0 None) 64 (plain_fs None) idle_ssh [] [] [].

Definition uuid_a : list byte := replicate 16 "a"%byte.
Definition uuid_b : list byte := replicate 16 "b"%byte.

(** The table [(3, uuid_a); (7, uuid_b)] of the spec. *)
Definition two_entries : list lpar := [mk_lpar 3 uuid_a; mk_lpar 7 uuid_b].

(** A connection that holds this table and whose copy channel opens at
    once and takes whole blocks. *)
Definition table_world : world :=
  set_ssh (mk_ssh [] [] [] [] 0 [ChanOk; ChanOk]
                  [WriteAccept 1024; WriteAccept 1024] [] 0 always_ready 0 [])
    (set_tbl (mk_table 2 (map Some two_entries)) idle_world).

(** The table after [uuid_b] was added under the new id 9, and under the
    id 3 that an entry already has. *)
Definition table_world_9 : world :=
  world_of (phypUUIDTable_AddLpar uuid_b 9 table_world).
Definition table_world_3 : world :=
  world_of (phypUUIDTable_AddLpar uuid_b 3 table_world).

(** The table written to the local file, and a connection that is about
    to load a table of two entries from that file. *)
Definition written_world : world := world_of (phypUUIDTable_WriteFile table_world).
Definition loading_world : world := set_tbl (mk_table 2 []) written_world.

(** A local file of two bytes and a channel that takes one byte per
    write. *)
Definition slow_channel_world : world :=
  set_ssh (mk_ssh [] [] [] [] 0 [ChanOk] [WriteAccept 1; WriteAccept 1] [] 0
                  always_ready 0 [])
    (set_fs (plain_fs (Some ["a"; "b"]%byte)) idle_world).

(** The same file with a channel that first answers would-block, and with
    a channel that first answers with another error. *)
Definition would_block_channel_world : world :=
  set_ssh (mk_ssh [] [] [] [] 0 [ChanOk] [WriteErr 37; WriteAccept 1024] [] 0
                  always_ready 0 [])
    (set_fs (plain_fs (Some ["a"; "b"]%byte)) idle_world).
Definition failing_channel_world : world :=
  set_ssh (mk_ssh [] [] [] [] 0 [ChanOk] [WriteErr 7; WriteAccept 1024] [] 0
                  always_ready 0 [])
    (set_fs (plain_fs (Some ["a"; "b"]%byte)) idle_world).

(** A file of ten bytes and a channel that takes 3 bytes, then 5. *)
Definition two_partial_writes_world : world :=
  set_ssh (mk_ssh [] [] [] [] 0 [ChanOk] [WriteAccept 3; WriteAccept 5] [] 0
                  always_ready 0 [])
    (set_fs (plain_fs (Some (lit "0123456789"%string))) idle_world).

(** The same file and a channel that takes a whole block at once. *)
Definition whole_block_world : world :=
  set_ssh (mk_ssh [] [] [] [] 0 [ChanOk] [WriteAccept 1024] [] 0 always_ready 0 [])
    (set_fs (plain_fs (Some (lit "0123456789"%string))) idle_world).

(** A command that prints two lines.  The channel opens after two
    would-block answers; the close step answers [close_rc] and the remote
    command exited with [status]. *)
Definition exec_world (close_rc status : Z) : world :=
  set_ssh (mk_ssh [ChanNull LIBSSH2_ERROR_EAGAIN; ChanNull LIBSSH2_ERROR_EAGAIN; ChanOk]
                  [0]
                  [ReadData (lit "hello"%string ++ [NL] ++ lit "world"%string);
                   ReadData []]
                  [close_rc] status [] [] [] 0 always_ready 0 [])
    idle_world.

Definition two_lines : cstr := lit "hello"%string ++ [NL] ++ lit "world"%string.
Definition ls_command : virBuffer := mk_buf (Some (lit "ls"%string)) false.

(** The world in which the run of the command ends. *)
Definition exec_end_world (close_rc status : Z) : world :=
  world_of (phypExec (vb_content ls_command) 0 (exec_world close_rc status)).




(** A URI whose path holds a semicolon. *)
Definition uri_with_semicolon : virURI :=
  mk_uri (Some (lit "phyp"%string)) (Some (lit "hmc"%string))
         (Some (lit "/sys;reboot"%string)).

(** The test of [virCheckFlags] as libvirt has it, for the examples. *)
Definition check_flags (supported flags : Z) : bool :=
  negb (Z.land flags (Z.lnot supported) =? 0).

(** No allocation succeeds, or exactly one. *)
Definition no_heap_world : world := set_heap 0 idle_world.
Definition one_allocation_table_world : world := set_heap 1 table_world.

(** The answers of a channel on which every command runs at once, prints
    the next of the given outputs and exits with [status]. *)
Definition output_answers (out : cstr) : list read_resp :=
  match out with
  | [] => [ReadData []]
  | _ => [ReadData out; ReadData []]
  end.

Definition printing_world (outs : list cstr) (status : Z) : world :=
  set_ssh (mk_ssh (map (fun _ => ChanOk) outs) (map (fun _ => 0) outs)
                  (concat (map output_answers outs)) (map (fun _ => 0) outs)
                  status [] [] [] 0 always_ready 0 [])
    idle_world.

(** A count, a list of two ids, and no domains at all (a count of 0 and
    an empty listing). *)
Definition count_world : world := printing_world [lit "42"%string ++ [NL]] 0.

(** A server without domains that answers the four commands of
    [phypConnectOpen], behind a URI with a path of two components. *)
Definition open_world : world :=
  mk_world (mk_table 0 []) (mk_driver 0 None) 64 (plain_fs None)
    (ssh (printing_world [[]; lit "0"%string ++ [NL]; [NL]; lit "1"%string ++ [NL]] 0))
    [] [true] [].
Definition uri_with_two_components : virURI :=
  mk_uri (Some (lit "phyp"%string)) (Some (lit "hmc"%string))
         (Some (lit "/sys/extra"%string)).
Definition uri_of_another_driver : virURI :=
  mk_uri (Some (lit "qemu"%string)) (Some (lit "host"%string)) None.

(** Output that arrives in two reads, the second shorter than the
    first. *)
Definition two_reads : list cstr :=
  [lit "hello"%string ++ [NL]; lit "hi"%string ++ [NL]].
Definition two_reads_world : world :=
  set_ssh (mk_ssh [ChanOk] [0] [ReadData (lit "hello"%string ++ [NL]);
                                ReadData (lit "hi"%string ++ [NL]); ReadData []]
                  [0] 0 [] [] [] 0 always_ready 0 [])
    idle_world.

(** The open step fails for good after one would-block answer. *)
Definition open_fails_world : world :=
  set_ssh (mk_ssh [ChanNull LIBSSH2_ERROR_EAGAIN; ChanNull (-7)] [0] [] [0] 0
                  [] [] [] 0 always_ready 0 [])
    idle_world.

(** The table with a disk that takes 30 bytes, and a local file that
    holds the first 25 bytes of the two records while two are expected. *)
Definition full_disk_world : world :=
  set_fs (mk_fs None 30 true true true true 420) table_world.
Definition short_file : list byte := take 25 (concat (map record_bytes two_entries)).
Definition short_file_world : world :=
  set_tbl (mk_table 2 []) (set_fs (plain_fs (Some short_file)) idle_world).
Definition loading_without_heap_world : world := set_heap 0 loading_world.

(** The server has no table and the local file cannot be created. *)
Definition create_fails_world : world :=
  mk_world (mk_table 0 []) (mk_driver 0 None) 64
    (mk_fs None 4096 false true true true 420)
    (mk_ssh [] [] [] [] 0 [] [] [RecvNull (-28)] 0 always_ready 0 [])
    [(0, uuid_a); (0, uuid_b)] [] [].

(** The server holds a file of three bytes, and the file of the two
    records of the table. *)
Definition remote_file_world (content : list byte) : world :=
  set_ssh (mk_ssh [] [] [ReadData content; ReadData []] [] 0 [] []
                  [RecvOk (Z.of_nat (length content))] 0 always_ready 0 [])
    idle_world.
Definition three_bytes : list byte := ["x"; "y"; "z"]%byte.
Definition two_records : list byte := concat (map record_bytes two_entries).

(** Names of defined domains: two lines and a third without newline. *)
Definition two_names : list cstr := [lit "vm1"%string; lit "vm2"%string].
Definition names_output : cstr :=
  concat (map (fun l => l ++ [NL]) two_names) ++ lit "vm3"%string.


Definition def_without_memory : virDomainDef :=
  mk_def (Some (lit "vm9"%string)) 9 uuid_b 0 1024 1
         [mk_disk (Some (lit "lv01"%string))].

(** * Proofs *)

(** ** The monad *)

Lemma bind_run {A B : Type} (m : M A) (k : A -> M B) (w : world) :
  (m ≫= k) w = match m w with
               | Ok a w' => k a w'
               | Crash s w' => Crash s w'
               end.
Proof. reflexivity. Qed.

Lemma bind_ok {A B : Type} (m : M A) (k : A -> M B) (w w' : world) (a : A) :
  m w = Ok a w' -> (m ≫= k) w = k a w'.
Proof. intros H. rewrite bind_run, H. reflexivity. Qed.

Lemma bind_crash {A B : Type} (m : M A) (k : A -> M B) (w w' : world) (s : stop) :
  m w = Crash s w' -> (m ≫= k) w = Crash s w'.
Proof. intros H. rewrite bind_run, H. reflexivity. Qed.

(** A relation between the world before and after that every step of a run
    keeps: the run keeps it when it is a preorder. *)
Section Steps.
Context (R : world -> world -> Prop) `{!PreOrder R}.

Lemma steps_ret {A : Type} (a : A) : steps R (mret a).
Proof. intros w. simpl. reflexivity. Qed.

Lemma steps_crash {A : Type} (s : stop) : steps R (@crash A s).
Proof. intros w. simpl. reflexivity. Qed.

Lemma steps_gets {A : Type} (f : world -> A) : steps R (gets f).
Proof. intros w. simpl. reflexivity. Qed.

Lemma steps_bind {A B : Type} (m : M A) (k : A -> M B) :
  steps R m -> (forall a, steps R (k a)) -> steps R (m ≫= k).
Proof.
  intros Hm Hk w. rewrite bind_run. specialize (Hm w).
  destruct (m w) as [a w'|s w']; simpl in *; [|assumption].
  etransitivity; [exact Hm|apply Hk].
Qed.

Lemma steps_modify (f : world -> world) :
  (forall w, R w (f w)) -> steps R (modify f).
Proof. intros H w. apply H. Qed.

Lemma steps_recorded {A : Type} (e : event) (f : world -> result A) :
  (forall w, R w (add_log e w)) -> (forall w, R w (world_of (f w))) ->
  steps R (recorded e f).
Proof.
  intros He Hf w. unfold recorded. etransitivity; [apply He|apply Hf].
Qed.

End Steps.

#[local] Instance log_ext_preorder (P : event -> Prop) : PreOrder (log_ext P).
Proof.
  split.
  - intros w. exists []. split; [symmetry; apply app_nil_r|constructor].
  - intros a b c (l1 & H1 & F1) (l2 & H2 & F2). exists (l1 ++ l2). split.
    + rewrite H2, H1. symmetry. apply app_assoc.
    + apply Forall_app. split; assumption.
Qed.

#[local] Instance same_preorder {B : Type} (f : world -> B) : PreOrder (same f).
Proof.
  split.
  - intros w. reflexivity.
  - intros a b c H1 H2. unfold same in *. congruence.
Qed.

(** The calls of the doubles, for unfolding. *)
Ltac unfold_calls :=
  unfold virBufferAdd, realloc_lpars, store_lpar;
  unfold virBufferAddStr, waitsocket, libssh2_channel_get_exit_status, channel_end,
    open_rdonly, fopen_rb;
  unfold libssh2_channel_open_session, libssh2_channel_exec,
    libssh2_channel_read, libssh2_channel_close,
    libssh2_scp_send, libssh2_scp_recv, libssh2_channel_write,
    virUUIDGenerate, openSSHSession, alloc, creat, safewrite, VIR_CLOSE,
    read_at, stat_file, load_lpar, store_slot, free_lpars, emit;
  unfold recorded, modify, gets, crash, mret, M_ret, mbind, M_bind.

(** Case analysis on an innermost scrutinee of the goal. *)
Ltac case_inner :=
  match goal with
  | |- context [match ?x with _ => _ end] =>
      lazymatch x with
      | context [match _ with _ => _ end] => fail
      | _ => destruct x eqn:?
      end
  end.

(** One call of a double keeps the relation: by cases on its answer. *)
Ltac steps_call :=
  let w := fresh "w" in
  intros w; unfold_calls; simpl;
  repeat (case_inner; simpl);
  first
    [ reflexivity
    | unfold same; simpl; rewrite ?length_insert; reflexivity
    | unfold log_ext; simpl; rewrite <- ?app_assoc; simpl;
      first [ exists []; split; [symmetry; apply app_nil_r|constructor]
            | eexists; split; [reflexivity|repeat (constructor; [done|]); constructor] ] ].

(** A routine keeps the relation when its parts do. *)
Ltac steps_tac :=
  repeat match goal with
    | H : _ |- steps _ _ => simple apply H
    | |- steps _ (mret _) => apply steps_ret; try exact _
    | |- steps _ (crash _) => apply steps_crash; try exact _
    | |- steps _ (gets _) => apply steps_gets; try exact _
    | |- steps _ (_ ≫= _) => (apply steps_bind; try exact _); [|intros ?]
    | |- steps _ (let _ := _ in _) => cbv zeta
    | |- steps _ (if ?b then _ else _) => destruct b
    | |- steps _ (match ?x with _ => _ end) => destruct x
    | |- steps _ _ => solve [steps_call]
    end.
Lemma count_waits_app (s : site) (l1 l2 : list event) :
  count_waits s (l1 ++ l2) = (count_waits s l1 + count_waits s l2)%nat.
Proof. unfold count_waits. rewrite List.filter_app, length_app. reflexivity. Qed.

Lemma count_waits_log_ext (s : site) (w w' : world) :
  log_ext (fun e => is_wait s e = false) w w' ->
  count_waits s (log w') = count_waits s (log w).
Proof.
  intros (l & -> & Hl). rewrite count_waits_app.
  assert (count_waits s l = 0%nat) as ->; [|lia].
  unfold count_waits. induction Hl as [|e l He _ IH]; [reflexivity|].
  simpl. rewrite He. exact IH.
Qed.

Lemma open_session_loop_run (K : nat) :
  forall (fuel : nat) (w : world) (rest : list chan_resp),
    (K < fuel)%nat ->
    open_script (ssh w) = replicate K (ChanNull LIBSSH2_ERROR_EAGAIN) ++ ChanOk :: rest ->
    (forall n, 0 < (poll_answer (ssh w) n).1) ->
    exists w', open_session_loop fuel w = Ok (Done ChanOk) w'
      /\ count_waits AtOpen (log w') = (count_waits AtOpen (log w) + K)%nat
      /\ open_script (ssh w') = rest.
Proof.
  induction K as [|K IH]; intros fuel w rest Hfuel Hscript Hpoll;
    (destruct fuel as [|fuel]; [lia|]); simpl in Hscript |- *.
  - rewrite bind_run. unfold libssh2_channel_open_session, recorded. simpl.
    rewrite Hscript. simpl. eexists. split; [reflexivity|]. simpl.
    split; [|reflexivity].
    unfold count_waits. rewrite ?List.filter_app, ?length_app. simpl. lia.
  - rewrite bind_run. unfold libssh2_channel_open_session, recorded. simpl.
    rewrite Hscript. simpl. rewrite bind_run.
    unfold waitsocket. rewrite !bind_run. simpl.
    unfold wait_failed.
    pose proof (Hpoll (polls (ssh w))) as Hp.
    destruct (poll_answer (ssh w) (polls (ssh w))) as [rc errno] eqn:E. simpl in *.
    destruct (Z.ltb_spec rc 0) as [?|_]; [lia|]. simpl.
    match goal with |- context [open_session_loop fuel ?w1] =>
      destruct (IH fuel w1 rest) as (w' & Hrun & Hcount & Hrest) end.
    + lia.
    + reflexivity.
    + exact Hpoll.
    + exists w'. split; [exact Hrun|]. split; [|exact Hrest].
      rewrite Hcount. simpl. unfold count_waits. rewrite ?List.filter_app, ?length_app. simpl. lia.
Qed.
Lemma exec_loop_no_open_wait fuel cmd : steps (log_ext no_open_wait) (exec_loop fuel cmd).
Proof. induction fuel as [|fuel IH]; simpl; steps_tac. Qed.

Lemma read_loop_no_open_wait fuel : forall buffer tex, steps (log_ext no_open_wait) (read_loop fuel buffer tex).
Proof. induction fuel as [|fuel IH]; intros; simpl; steps_tac. Qed.

Lemma close_loop_no_open_wait fuel : steps (log_ext no_open_wait) (close_loop fuel).
Proof. induction fuel as [|fuel IH]; simpl; steps_tac. Qed.

(** C8: when the channel-open primitive answers would-block exactly [K]
    times before it succeeds and the wait always reports the socket ready,
    a run of [phypExec] that reaches the open step calls [waitsocket]
    exactly [K] times at that step: the count over the whole run, so none
    is made for that step afterwards. *)
Theorem phypExec_open_waits (K : nat) (cmd : option cstr) (es : Z) (w : world)
    (rest : list chan_resp) :
  open_script (ssh w) = replicate K (ChanNull LIBSSH2_ERROR_EAGAIN) ++ ChanOk :: rest ->
  (forall n, 0 < (poll_answer (ssh w) n).1) ->
  (0 < heap w)%nat ->
  count_waits AtOpen (log (world_of (phypExec cmd es w)))
  = (count_waits AtOpen (log w) + K)%nat.
Proof.
  intros Hscript Hpoll Hheap.
  unfold phypExec. rewrite bind_run. unfold alloc at 1.
  destruct (heap w) as [|h] eqn:Eh; [lia|]. simpl.
  rewrite bind_run. simpl.
  destruct (open_session_loop_run K (S (length (open_script (ssh w)))) (set_heap h w) rest)
    as (w1 & Hrun & Hcount & _).
  { rewrite Hscript, length_app, length_replicate. lia. }
  { exact Hscript. }
  { exact Hpoll. }
  rewrite (bind_ok _ _ _ _ _ Hrun). simpl in Hcount. rewrite <- Hcount.
  apply count_waits_log_ext.
  pose proof exec_loop_no_open_wait. pose proof read_loop_no_open_wait.
  pose proof close_loop_no_open_wait.
  match goal with |- log_ext _ _ (world_of (?m w1)) => enough (steps (log_ext no_open_wait) m) as Hs by apply Hs end.
  steps_tac.
Qed.

(** Inversion of a run that returned: the first part returned too. *)
Ltac bind_inv H a w1 E :=
  rewrite bind_run in H;
  match type of H with
  | match ?mw with _ => _ end = _ =>
      destruct mw as [a w1|? ?] eqn:E; [|discriminate H]
  end.

Lemma open_session_loop_no_close fuel : steps (log_ext no_close) (open_session_loop fuel).
Proof. induction fuel as [|fuel IH]; simpl; steps_tac. Qed.

Lemma exec_loop_no_close fuel cmd : steps (log_ext no_close) (exec_loop fuel cmd).
Proof. induction fuel as [|fuel IH]; simpl; steps_tac. Qed.

Lemma read_loop_no_close fuel :
  forall buffer tex, steps (log_ext no_close) (read_loop fuel buffer tex).
Proof. induction fuel as [|fuel IH]; intros; simpl; steps_tac. Qed.

Lemma open_session_loop_status fuel : steps (same exit_status_of) (open_session_loop fuel).
Proof. induction fuel as [|fuel IH]; simpl; steps_tac. Qed.

Lemma exec_loop_status fuel cmd : steps (same exit_status_of) (exec_loop fuel cmd).
Proof. induction fuel as [|fuel IH]; simpl; steps_tac. Qed.

Lemma read_loop_status fuel :
  forall buffer tex, steps (same exit_status_of) (read_loop fuel buffer tex).
Proof. induction fuel as [|fuel IH]; intros; simpl; steps_tac. Qed.

Lemma close_loop_status fuel : steps (same exit_status_of) (close_loop fuel).
Proof. induction fuel as [|fuel IH]; simpl; steps_tac. Qed.

(** The close events of the close loop: would-block answers, then the
    answer the loop leaves with. *)
Lemma close_loop_events (fuel : nat) :
  forall w r w', close_loop fuel w = Ok r w' ->
    exists l, log w' = log w ++ l /\
      forall rc', In (EvClose rc') l ->
        rc' = LIBSSH2_ERROR_EAGAIN \/ (r = Done rc' /\ rc' <> LIBSSH2_ERROR_EAGAIN).
Proof.
  induction fuel as [|fuel IH]; intros w r w' H; simpl in H; [discriminate|].
  bind_inv H rc w1 E.
  unfold libssh2_channel_close in E.
  destruct (close_script (ssh w)) as [|rc0 rest] eqn:Es; [discriminate|].
  injection E as -> <-.
  destruct (Z.eqb_spec rc LIBSSH2_ERROR_EAGAIN) as [->|Hne].
  - bind_inv H p w2 E2.
    assert (Hw2 : log w2 = log w ++ [EvClose LIBSSH2_ERROR_EAGAIN; EvWait AtClose
                    (Z.lor (if Z.land (block_directions (ssh w)) LIBSSH2_SESSION_BLOCK_INBOUND =? 0 then 0 else POLLIN)
                           (if Z.land (block_directions (ssh w)) LIBSSH2_SESSION_BLOCK_OUTBOUND =? 0 then 0 else POLLOUT))]).
    { unfold waitsocket in E2. unfold_calls. simpl in E2. injection E2 as _ <-.
      simpl. rewrite <- app_assoc. reflexivity. }
    destruct (wait_failed p).
    + injection H as <- <-. eexists. split; [exact Hw2|].
      intros rc' [Hin|[Hin|[]]]; [left; congruence|discriminate].
    + destruct (IH _ _ _ H) as (l & Hl & Hin). eexists. split.
      * rewrite Hl, Hw2, <- app_assoc. reflexivity.
      * intros rc' Hrc. apply in_app_or in Hrc as [[Hrc|[Hrc|[]]]|Hrc];
          [left; congruence|discriminate|apply Hin, Hrc].
  - injection H as <- <-. exists [EvClose rc]. split; [reflexivity|].
    intros rc' [Hin|[]]. right. split; congruence.
Qed.

Lemma no_close_not_in (l : list event) (rc : Z) :
  Forall no_close l -> ~ In (EvClose rc) l.
Proof.
  intros Hl Hin. rewrite Forall_forall in Hl. apply list_elem_of_In in Hin.
  exact (Hl _ Hin rc eq_refl).
Qed.

(** C5, as the code has it: the exit code is the remote exit status when
    the close step answered 0, and the fixed value 127 when it answered
    with an error other than would-block. *)
Theorem phypExec_exit_code (cmd : option cstr) (es : Z) (w w' : world)
    (ret : option cstr) (code : Z) :
  phypExec cmd es w = Ok (ret, code) w' ->
  exists l, log w' = log w ++ l
    /\ (In (EvClose 0) l -> code = remote_exit_status (ssh w))
    /\ (forall rc, In (EvClose rc) l -> rc <> 0 -> rc <> LIBSSH2_ERROR_EAGAIN ->
        code = 127).
Proof.
  intros H.
  assert (Hquiet : forall w1 l, log w1 = log w ++ l -> Forall no_close l ->
            exists l, log w1 = log w ++ l
              /\ (In (EvClose 0) l -> code = remote_exit_status (ssh w))
              /\ (forall rc, In (EvClose rc) l -> rc <> 0 ->
                  rc <> LIBSSH2_ERROR_EAGAIN -> code = 127)).
  { intros w1 l Hl Hno. exists l. split; [exact Hl|]. split.
    - intros Hin. destruct (no_close_not_in _ _ Hno Hin).
    - intros rc Hin. destruct (no_close_not_in _ _ Hno Hin). }
  unfold phypExec in H.
  bind_inv H ok w0 E0.
  assert (H0 : log w0 = log w /\ exit_status_of w0 = exit_status_of w).
  { unfold alloc in E0. destruct (heap w); injection E0 as <- <-; split; reflexivity. }
  destruct H0 as [L0 S0].
  destruct ok; simpl in H.
  2:{ injection H as <- <- <-. apply (Hquiet w0 []); [rewrite L0, app_nil_r; reflexivity|constructor]. }
  bind_inv H fuel1 w0' E; injection E as <- <-.
  bind_inv H ch w1 E1.
  pose proof (open_session_loop_no_close (S (length (open_script (ssh w0)))) w0) as (l1 & L1 & N1).
  pose proof (open_session_loop_status (S (length (open_script (ssh w0)))) w0) as S1.
  rewrite E1 in L1, S1. simpl in L1, S1. unfold same in S1.
  destruct ch as [[|e]|].
  2,3: injection H as <- <- <-; apply (Hquiet w1 l1); [congruence|exact N1].
  bind_inv H fuel2 w1' E; injection E as <- <-.
  bind_inv H rc w2 E2.
  pose proof (exec_loop_no_close (S (length (exec_script (ssh w1)))) cmd w1) as (l2 & L2 & N2).
  pose proof (exec_loop_status (S (length (exec_script (ssh w1)))) cmd w1) as S2.
  rewrite E2 in L2, S2. simpl in L2, S2. unfold same in S2.
  assert (N12 : Forall no_close (l1 ++ l2)) by (apply Forall_app; split; assumption).
  assert (L12 : log w2 = log w ++ l1 ++ l2) by (rewrite L2, L1, L0, <- app_assoc; reflexivity).
  destruct rc as [rc|].
  2: injection H as <- <- <-; apply (Hquiet w2 (l1 ++ l2)); assumption.
  destruct (rc =? 0); simpl in H.
  2: injection H as <- <- <-; apply (Hquiet w2 (l1 ++ l2)); assumption.
  bind_inv H fuel3 w2' E; injection E as <- <-.
  bind_inv H tex w3 E3.
  pose proof (read_loop_no_close (read_fuel (read_script (ssh w2)))
                (replicate buffer_size NUL) VIR_BUFFER_INITIALIZER w2) as (l3 & L3 & N3).
  pose proof (read_loop_status (read_fuel (read_script (ssh w2)))
                (replicate buffer_size NUL) VIR_BUFFER_INITIALIZER w2) as S3.
  rewrite E3 in L3, S3. simpl in L3, S3. unfold same in S3.
  assert (N123 : Forall no_close ((l1 ++ l2) ++ l3)) by (apply Forall_app; split; assumption).
  assert (L123 : log w3 = log w ++ (l1 ++ l2) ++ l3)
    by (rewrite L3, L12, <- app_assoc; reflexivity).
  destruct tex as [tex|].
  2: injection H as <- <- <-; apply (Hquiet w3 ((l1 ++ l2) ++ l3)); assumption.
  bind_inv H fuel4 w3' E; injection E as <- <-.
  bind_inv H rc4 w4 E4.
  destruct (close_loop_events _ _ _ _ E4) as (l4 & L4 & C4).
  pose proof (close_loop_status (S (length (close_script (ssh w3)))) w3) as S4.
  rewrite E4 in S4. simpl in S4. unfold same in S4.
  assert (Sall : exit_status_of w4 = exit_status_of w) by (simpl in *; congruence).
  destruct rc4 as [rc4|].
  - (* the loop left with answer rc4 *)
    bind_inv H exitcode w5 E5.
    assert (Hret : code = exitcode).
    { destruct (vb_error tex); injection H as _ <- _; reflexivity. }
    assert (Hw' : w' = w5).
    { destruct (vb_error tex); injection H as _ _ <-; reflexivity. }
    subst code w'.
    destruct (Z.eqb_spec rc4 0) as [->|Hrc4].
    + unfold libssh2_channel_get_exit_status in E5. unfold_calls. simpl in E5.
      injection E5 as <- <-. simpl.
      exists (((l1 ++ l2) ++ l3) ++ l4 ++ [EvExitStatus]). split.
      { rewrite L4, L123, <- !app_assoc. reflexivity. }
      split; [intros _; exact Sall|].
      intros rc' Hin Hne0 Hne.
      apply in_app_or in Hin as [Hin|Hin]; [destruct (no_close_not_in _ _ N123 Hin)|].
      apply in_app_or in Hin as [Hin|[Hin|[]]]; [|discriminate].
      destruct (C4 _ Hin) as [?|[Heq _]]; [contradiction|]. congruence.
    + injection E5 as <- <-.
      exists (((l1 ++ l2) ++ l3) ++ l4). split.
      { rewrite L4, L123, <- !app_assoc. reflexivity. }
      split; [|intros; reflexivity].
      intros Hin.
      apply in_app_or in Hin as [Hin|Hin]; [destruct (no_close_not_in _ _ N123 Hin)|].
      destruct (C4 _ Hin) as [Heq|[Heq _]]; [discriminate|]. congruence.
  - (* a wait failed *)
    injection H as <- <- <-.
    exists (((l1 ++ l2) ++ l3) ++ l4). split.
    { rewrite L4, L123, <- !app_assoc. reflexivity. }
    split.
    + intros Hin.
      apply in_app_or in Hin as [Hin|Hin]; [destruct (no_close_not_in _ _ N123 Hin)|].
      destruct (C4 _ Hin) as [Heq|[Heq _]]; discriminate.
    + intros rc' Hin Hne0 Hne.
      apply in_app_or in Hin as [Hin|Hin]; [destruct (no_close_not_in _ _ N123 Hin)|].
      destruct (C4 _ Hin) as [Heq|[Heq _]]; [contradiction|discriminate].
Qed.

Lemma byte_eqb_spec (b c : byte) : BoolSpec (b = c) (b <> c) (Byte.eqb b c).
Proof.
  destruct (Byte.eqb b c) eqn:E; constructor.
  - apply Byte.byte_dec_bl, E.
  - apply Byte.eqb_false, E.
Qed.

(** [cut_at c s] is the part of [s] before the first [c]. *)
Lemma cut_at_spec (c : byte) (s : cstr) :
  exists rest, s = cut_at c s ++ rest
    /\ ~ In c (cut_at c s)
    /\ (rest = [] \/ exists r, rest = c :: r).
Proof.
  induction s as [|b s (rest & Hs & Hnot & Hrest)]; simpl.
  - exists []. split; [reflexivity|]. split; [intros []|left; reflexivity].
  - destruct (byte_eqb_spec b c) as [->|Hne].
    + exists (c :: s). split; [reflexivity|]. split; [intros []|right; eauto].
    + exists rest. split; [simpl; congruence|]. split; [|exact Hrest].
      intros [Heq|Hin]; [congruence|contradiction].
Qed.

(** C4: [phypExecBuffer] returns the output of [phypExec] cut at its first
    newline when the trim flag is set and the exit code is 0, and returns
    it as it is otherwise: always when the exit code is not 0, whatever
    the flag. *)
Theorem phypExecBuffer_trim (buf : virBuffer) (es : Z) (strip_newline : bool)
    (w w' : world) (out : cstr) (code : Z) :
  vb_error buf = false ->
  phypExec (vb_content buf) es w = Ok (Some out, code) w' ->
  phypExecBuffer buf es strip_newline w
  = Ok (Some (if (code =? 0) && strip_newline then cut_at NL out else out), code) w'
  /\ exists rest, out = cut_at NL out ++ rest
       /\ ~ In NL (cut_at NL out)
       /\ (rest = [] \/ exists r, rest = NL :: r).
Proof.
  intros Herr Hrun. split; [|apply cut_at_spec].
  unfold phypExecBuffer. rewrite Herr, (bind_ok _ _ _ _ _ Hrun). simpl.
  destruct ((code =? 0) && strip_newline); reflexivity.
Qed.

Lemma strlen_le (mem : list byte) : (strlen mem <= length mem)%nat.
Proof.
  induction mem as [|b mem IH]; simpl; [lia|].
  destruct (Byte.eqb b NUL); lia.
Qed.

Lemma specialcharacters_loop_spec (n : nat) :
  forall (i : nat) (src : list byte),
    (i + n <= length src)%nat ->
    specialcharacters_loop n i src = true
    <-> exists c, In c (take n (drop i src)) /\ is_specialcharacter c = true.
Proof.
  induction n as [|n IH]; intros i src Hlen; simpl.
  - split; [discriminate|intros (c & [] & _)].
  - destruct (lookup_lt_is_Some_2 src i) as [c Hc]; [lia|].
    rewrite Hc, (drop_S _ _ _ Hc). simpl.
    destruct (is_specialcharacter c) eqn:Ec.
    + split; [|reflexivity]. intros _. exists c. split; [left; reflexivity|exact Ec].
    + rewrite IH by lia. split.
      * intros (c' & Hin & Hc'). exists c'. split; [right; exact Hin|exact Hc'].
      * intros (c' & [Heq|Hin] & Hc'); [congruence|]. exists c'. split; assumption.
Qed.

(** [contains_specialcharacters] finds exactly the strings that hold one of
    the characters. *)
Lemma contains_specialcharacters_spec (src : list byte) :
  contains_specialcharacters src = true
  <-> exists c, In c (take (strlen src) src) /\ is_specialcharacter c = true.
Proof.
  unfold contains_specialcharacters.
  destruct (Nat.eqb_spec (strlen src) 0) as [E|E].
  - rewrite E, take_0. split; [discriminate|intros (c & [] & _)].
  - rewrite (specialcharacters_loop_spec (strlen src) 0 src), drop_0; [reflexivity|].
    pose proof (strlen_le src). lia.
Qed.

(** The characters of [SPECIALCHARACTER_CASES]. *)
Lemma is_specialcharacter_spec (c : byte) :
  is_specialcharacter c = true
  <-> In c ["&"; ";"; "`"; "@"; Byte.x22; "|"; "*"; "?"; "~"; "<"; ">"; "^"; "("; ")";
            "["; "]"; "{"; "}"; "$"; "%"; "#"; Byte.x5c; Byte.x0a; Byte.x0d;
            Byte.x09]%byte.
Proof.
  split.
  - destruct c; simpl; intros H; try discriminate H; tauto.
  - intros H. simpl in H.
    repeat (destruct H as [<-|H]; [reflexivity|]). destruct H.
Qed.

(** C10: a path that holds a shell metacharacter makes [phypConnectOpen]
    fail before [openSSHSession] is called (nothing is recorded); the check
    finds exactly the paths that hold one of the characters, so that a
    non-empty path without them passes it. *)
Theorem phypConnectOpen_path_check (conn : option virConnect) (flags : Z)
    (u : virURI) (p : list byte) (w : world) :
  conn ≫= uri = Some u ->
  path u = Some p ->
  (contains_specialcharacters p = true
   <-> exists c, In c (take (strlen p) p) /\ is_specialcharacter c = true)
  /\ (contains_specialcharacters p = true ->
      exists st w', phypConnectOpen conn flags w = Ok st w'
        /\ st <> VIR_DRV_OPEN_SUCCESS
        /\ log w' = log w).
Proof.
  intros Hu Hp. split; [apply contains_specialcharacters_spec|].
  intros Hc. unfold phypConnectOpen. rewrite Hu, Hp, Hc.
  unfold open_failure, phypUUIDTable_Free. unfold_calls. simpl.
  repeat (case_inner; simpl);
    eexists _, _; (split; [reflexivity|]); split; (discriminate || reflexivity).
Qed.

(** ** The table *)

Lemma uuid_mem_id (u : list byte) :
  length u = VIR_UUID_BUFLEN -> uuid_mem u = u.
Proof.
  intros H. with_strategy transparent [uuid_mem] unfold uuid_mem.
  rewrite take_app_length'; [reflexivity|symmetry; exact H].
Qed.

Lemma length_uuid_mem (u : list byte) : length (uuid_mem u) = VIR_UUID_BUFLEN.
Proof.
  with_strategy transparent [uuid_mem] unfold uuid_mem.
  rewrite length_take, length_app, length_replicate. lia.
Qed.

Lemma WriteFile_loop_tbl (n : nat) : forall i, steps (same tbl) (WriteFile_loop n i).
Proof. induction n as [|n IH]; intros; simpl; steps_tac. Qed.

Lemma WriteFile_tbl : steps (same tbl) phypUUIDTable_WriteFile.
Proof. pose proof WriteFile_loop_tbl. unfold phypUUIDTable_WriteFile. steps_tac. Qed.

Lemma scp_send_loop_tbl (fuel : nat) (mode size : Z) :
  steps (same tbl) (scp_send_loop fuel mode size).
Proof. induction fuel as [|fuel IH]; simpl; steps_tac. Qed.

Lemma write_loop_tbl (fuel : nat) :
  forall buffer ptr nread sent, steps (same tbl) (write_loop fuel buffer ptr nread sent).
Proof. induction fuel as [|fuel IH]; intros; simpl; steps_tac. Qed.

Lemma push_loop_tbl (fuel : nat) :
  forall pos buffer, steps (same tbl) (push_loop fuel pos buffer).
Proof.
  pose proof write_loop_tbl.
  induction fuel as [|fuel IH]; intros; simpl; steps_tac.
Qed.

Lemma Push_tbl : steps (same tbl) phypUUIDTable_Push.
Proof.
  pose proof scp_send_loop_tbl. pose proof push_loop_tbl.
  unfold phypUUIDTable_Push. steps_tac.
Qed.

(** The scan of [RemLpar] over the slots [todo] that follow [done]: every
    slot is rewritten, then the slot past the end of the array is read. *)
Lemma RemLpar_loop_run (lpar_id : Z) (todo : list lparPtr) :
  forall (done : list lparPtr) (w : world),
    lpars (tbl w) = done ++ todo ->
    Forall (fun p => exists e, p = Some e) todo ->
    exists w',
      RemLpar_loop (S (length todo)) (length done) lpar_id w
      = Crash (OutOfBounds (length (done ++ todo))) w'
      /\ lpars (tbl w') = done ++ map (tombstone lpar_id) todo
      /\ nlpars (tbl w') = nlpars (tbl w).
Proof.
  induction todo as [|p todo IH]; intros done w Hl Hv.
  - simpl. rewrite bind_run. unfold load_lpar. rewrite Hl, app_nil_r.
    rewrite lookup_ge_None_2 by lia.
    eexists. split; [reflexivity|]. rewrite Hl, app_nil_r. split; reflexivity.
  - apply Forall_cons in Hv as [(e & ->) Hv].
    assert (Hi : (done ++ Some e :: todo) !! length done = Some (Some e)).
    { rewrite lookup_app_r by lia. rewrite Nat.sub_diag. reflexivity. }
    change (RemLpar_loop (S (length (Some e :: todo))) (length done) lpar_id w)
      with ((e0 ← load_lpar (length done);
             (if id e0 =? lpar_id
              then store_lpar (length done) (mk_lpar (-1) (replicate VIR_UUID_BUFLEN NUL))
              else mret tt);;
             RemLpar_loop (S (length todo)) (S (length done)) lpar_id) w).
    rewrite bind_run. unfold load_lpar at 1. rewrite Hl, Hi.
    set (w1 := if id e =? lpar_id
               then set_lpars (done ++ Some (mk_lpar (-1) (replicate VIR_UUID_BUFLEN NUL))
                                  :: todo) w
               else w).
    assert (Hstep : ((if id e =? lpar_id
                      then store_lpar (length done)
                             (mk_lpar (-1) (replicate VIR_UUID_BUFLEN NUL))
                      else mret tt) : M unit) w = Ok tt w1).
    { subst w1. destruct (id e =? lpar_id); [|reflexivity].
      unfold store_lpar. rewrite bind_run. unfold load_lpar. rewrite Hl, Hi.
      unfold store_slot. rewrite Hl.
      destruct (Nat.ltb_spec (length done) (length (done ++ Some e :: todo))) as [_|Hge].
      - f_equal. f_equal.
        replace (length done) with (length done + 0)%nat at 1 by lia.
        rewrite insert_app_r. reflexivity.
      - rewrite length_app in Hge. simpl in Hge. lia. }
    rewrite (bind_ok _ _ _ _ _ Hstep).
    destruct (IH (done ++ [tombstone lpar_id (Some e)]) w1) as (w' & Hrun & Hl' & Hn').
    { subst w1. simpl. rewrite <- app_assoc. simpl.
      destruct (id e =? lpar_id); [reflexivity|exact Hl]. }
    { exact Hv. }
    rewrite length_app in Hrun.
    change (length [tombstone lpar_id (Some e)]) with 1%nat in Hrun.
    rewrite Nat.add_1_r in Hrun.
    exists w'. split.
    + rewrite Hrun. f_equal. f_equal. rewrite !length_app. simpl. lia.
    + split.
      * rewrite Hl', <- app_assoc. reflexivity.
      * rewrite Hn'. subst w1. destruct (id e =? lpar_id); reflexivity.
Qed.

Lemma valid_table_slots (t : uuid_table) :
  valid_table t -> Forall (fun p => exists e, p = Some e) (lpars t).
Proof.
  intros (_ & _ & H). eapply Forall_impl; [exact H|].
  intros p (e & -> & _). eauto.
Qed.

(** On every valid table the scan of [phypUUIDTable_RemLpar] rewrites the
    matching entries of slots 0..N-1 and then reads slot N. *)
Lemma RemLpar_run (lpar_id : Z) (w : world) :
  valid_table (tbl w) ->
  exists w',
    phypUUIDTable_RemLpar lpar_id w
    = Crash (OutOfBounds (Z.to_nat (nlpars (tbl w)))) w'
    /\ lpars (tbl w') = map (tombstone lpar_id) (lpars (tbl w))
    /\ nlpars (tbl w') = nlpars (tbl w).
Proof.
  intros Hv. pose proof (valid_table_slots _ Hv) as Hs.
  destruct Hv as (Hn & _ & _).
  destruct (RemLpar_loop_run lpar_id (lpars (tbl w)) [] w eq_refl Hs)
    as (w' & Hrun & Hl & Hn').
  exists w'. split; [|split; assumption].
  unfold phypUUIDTable_RemLpar. rewrite bind_run. simpl.
  rewrite Hn.
  replace (Z.to_nat (Z.of_nat (length (lpars (tbl w))) + 1))
    with (S (length (lpars (tbl w)))) by lia.
  simpl in Hrun. rewrite (bind_crash _ _ _ _ _ Hrun).
  rewrite Nat2Z.id. reflexivity.
Qed.

(** C1 fails on the code: on every valid table with N entries the scan of
    [phypUUIDTable_RemLpar], after it has tombstoned the matching entries
    of slots 0..N-1, reads slot N, past the end of the array. *)
Theorem RemLpar_reads_past_the_end (lpar_id : Z) (w : world) :
  valid_table (tbl w) ->
  exists w',
    phypUUIDTable_RemLpar lpar_id w
    = Crash (OutOfBounds (Z.to_nat (nlpars (tbl w)))) w'
    /\ lpars (tbl w') = map (tombstone lpar_id) (lpars (tbl w))
    /\ nlpars (tbl w') = nlpars (tbl w).
Proof. exact (RemLpar_run lpar_id w). Qed.

Lemma GetLparUUID_loop_run (lpar_id : Z) (todo : list lparPtr) :
  forall (done : list lparPtr) (w : world),
    lpars (tbl w) = done ++ todo ->
    Forall (fun p => exists e, p = Some e) todo ->
    GetLparUUID_loop (length todo) (length done) lpar_id w
    = Ok (first_uuid lpar_id todo) w.
Proof.
  induction todo as [|p todo IH]; intros done w Hl Hv; [reflexivity|].
  apply Forall_cons in Hv as [(e & ->) Hv].
  simpl. rewrite bind_run. unfold load_lpar. rewrite Hl.
  rewrite lookup_app_r by lia. rewrite Nat.sub_diag. simpl.
  destruct (id e =? lpar_id); [reflexivity|].
  specialize (IH (done ++ [Some e]) w).
  rewrite length_app, Nat.add_1_r in IH. apply IH; [|exact Hv].
  rewrite Hl, <- app_assoc. reflexivity.
Qed.

Lemma phypGetLparUUID_run (lpar_id : Z) (w : world) :
  nlpars (tbl w) = Z.of_nat (length (lpars (tbl w))) ->
  Forall (fun p => exists e, p = Some e) (lpars (tbl w)) ->
  phypGetLparUUID lpar_id w = Ok (first_uuid lpar_id (lpars (tbl w))) w.
Proof.
  intros Hn Hv. unfold phypGetLparUUID. rewrite bind_run. simpl.
  rewrite Hn, Nat2Z.id.
  exact (GetLparUUID_loop_run lpar_id (lpars (tbl w)) [] w eq_refl Hv).
Qed.

Lemma first_uuid_app (lpar_id : Z) (l1 l2 : list lparPtr) :
  first_uuid lpar_id (l1 ++ l2)
  = match first_uuid lpar_id l1 with
    | Some u => Some u
    | None => first_uuid lpar_id l2
    end.
Proof.
  induction l1 as [|[e|] l1 IH]; simpl; [reflexivity| |exact IH].
  destruct (id e =? lpar_id); [reflexivity|exact IH].
Qed.

Lemma first_uuid_tombstone (lpar_id : Z) (l : list lparPtr) :
  lpar_id <> -1 -> first_uuid lpar_id (map (tombstone lpar_id) l) = None.
Proof.
  intros Hid. induction l as [|[e|] l IH]; [reflexivity| |exact IH].
  cbn [map tombstone].
  destruct (Z.eqb_spec (id e) lpar_id) as [E|E]; cbn [first_uuid id].
  - destruct (Z.eqb_spec (-1) lpar_id) as [?|_]; [congruence|exact IH].
  - destruct (Z.eqb_spec (id e) lpar_id) as [?|_]; [contradiction|exact IH].
Qed.

(** What a successful [AddLpar] leaves in memory. *)
Lemma AddLpar_run (u : list byte) (lpar_id : Z) (w w' : world) :
  nlpars (tbl w) = Z.of_nat (length (lpars (tbl w))) ->
  nlpars (tbl w) < SIZE_MAX ->
  phypUUIDTable_AddLpar u lpar_id w = Ok 0 w' ->
  tbl w' = mk_table (nlpars (tbl w) + 1)
                    (lpars (tbl w) ++ [Some (mk_lpar lpar_id (uuid_mem u))]).
Proof.
  intros Hn Hmax H. unfold phypUUIDTable_AddLpar in H.
  bind_inv H n w0 E; injection E as <- <-.
  assert (Hwrap : size_wrap (nlpars (tbl w) + 1) = nlpars (tbl w) + 1).
  { unfold size_wrap. apply Z.mod_small. unfold SIZE_MAX in Hmax. lia. }
  assert (Hi : Z.to_nat (size_wrap (size_wrap (nlpars (tbl w) + 1) - 1))
               = length (lpars (tbl w))).
  { rewrite Hwrap. replace (nlpars (tbl w) + 1 - 1) with (nlpars (tbl w)) by lia.
    unfold size_wrap. rewrite Z.mod_small by (unfold SIZE_MAX in Hmax; lia). lia. }
  rewrite Hi, Hwrap in H. clear Hi Hwrap.
  bind_inv H t w1 E; injection E as <- <-.
  bind_inv H ok w2 E2.
  unfold realloc_lpars, alloc in E2. rewrite bind_run in E2. simpl in E2.
  destruct (heap w) as [|h]; simpl in E2; injection E2 as <- <-; simpl in H;
    [discriminate H|].
  bind_inv H ok w3 E3.
  unfold alloc in E3. simpl in E3.
  destruct h as [|h]; injection E3 as <- <-; simpl in H.
  { bind_inv H t w4 E4. discriminate H. }
  bind_inv H t w4 E4.
  unfold store_slot in E4. simpl in E4.
  rewrite Hn, Z2Nat.inj_add, Nat2Z.id in E4 by lia.
  change (Z.to_nat 1) with 1%nat in E4.
  rewrite resize_ge in E4 by lia.
  replace (length (lpars (tbl w)) + 1 - length (lpars (tbl w)))%nat with 1%nat in E4 by lia.
  simpl in E4. rewrite length_app in E4. simpl in E4.
  destruct (Nat.ltb_spec (length (lpars (tbl w))) (length (lpars (tbl w)) + 1)) as [_|?];
    [|lia].
  injection E4 as <-.
  bind_inv H rc w5 E5.
  pose proof (WriteFile_tbl w4) as T5. rewrite E5 in T5. simpl in T5. unfold same in T5.
  destruct (rc =? -1); [discriminate H|].
  bind_inv H rc' w6 E6.
  pose proof (Push_tbl w5) as T6. rewrite E6 in T6. simpl in T6. unfold same in T6.
  destruct (rc' =? -1); [discriminate H|].
  injection H as <-. rewrite T6, T5. subst w4. simpl.
  rewrite Hn. f_equal.
  replace (length (lpars (tbl w))) with (length (lpars (tbl w)) + 0)%nat at 1 by lia.
  rewrite insert_app_r. reflexivity.
Qed.

(** C2, as the code has it: after a successful add, lookup finds the new
    uuid when no entry had the id before, and the uuid of the first, older
    entry otherwise; in the table that the scan of remove leaves over the
    slots of the array, no entry has the id. *)
Theorem lookup_after_add_and_remove (u : list byte) (lpar_id : Z) (w w' : world) :
  valid_table (tbl w) ->
  length u = VIR_UUID_BUFLEN ->
  lpar_id <> -1 ->
  phypUUIDTable_AddLpar u lpar_id w = Ok 0 w' ->
  (phypGetLparUUID lpar_id w = Ok None w ->
   phypGetLparUUID lpar_id w' = Ok (Some u) w')
  /\ (forall old, phypGetLparUUID lpar_id w = Ok (Some old) w ->
      phypGetLparUUID lpar_id w' = Ok (Some old) w')
  /\ (let w'' := world_of (phypUUIDTable_RemLpar lpar_id w) in
      phypGetLparUUID lpar_id w'' = Ok None w'').
Proof.
  intros Hv Hu Hid Hadd.
  pose proof (valid_table_slots _ Hv) as Hs.
  pose proof Hv as (Hn & Hmax & _).
  pose proof (AddLpar_run _ _ _ _ Hn Hmax Hadd) as Ht.
  rewrite (phypGetLparUUID_run lpar_id w Hn Hs).
  assert (Hs' : Forall (fun p => exists e, p = Some e) (lpars (tbl w'))).
  { rewrite Ht. simpl. apply Forall_app. split; [exact Hs|].
    constructor; [eauto|constructor]. }
  assert (Hn' : nlpars (tbl w') = Z.of_nat (length (lpars (tbl w')))).
  { rewrite Ht. simpl. rewrite length_app. simpl. lia. }
  rewrite (phypGetLparUUID_run lpar_id w' Hn' Hs').
  rewrite Ht. simpl. rewrite first_uuid_app. simpl. rewrite Z.eqb_refl.
  rewrite !(uuid_mem_id u Hu).
  split; [|split].
  - intros E. injection E as ->. reflexivity.
  - intros old E. injection E as ->. reflexivity.
  - destruct (RemLpar_run lpar_id w Hv) as (w'' & Hrun & Hl & Hn'').
    rewrite Hrun. simpl.
    rewrite phypGetLparUUID_run.
    + rewrite Hl, first_uuid_tombstone by exact Hid. reflexivity.
    + rewrite Hn'', Hl, length_map. exact Hn.
    + rewrite Hl. apply Forall_map. eapply Forall_impl; [exact Hs|].
      intros p (e & ->). simpl. destruct (id e =? lpar_id); eauto.
Qed.

Lemma RemLpar_loop_count (lpar_id : Z) (n : nat) :
  forall i, steps (same entry_count) (RemLpar_loop n i lpar_id).
Proof. induction n as [|n IH]; intros; simpl; steps_tac. Qed.

Lemma RemLpar_loop_slots (lpar_id : Z) (n : nat) :
  forall i, steps (same slot_count) (RemLpar_loop n i lpar_id).
Proof. induction n as [|n IH]; intros; simpl; steps_tac. Qed.

Lemma GetLparUUID_loop_tbl (lpar_id : Z) (n : nat) :
  forall i, steps (same tbl) (GetLparUUID_loop n i lpar_id).
Proof. induction n as [|n IH]; intros; simpl; steps_tac. Qed.

Lemma same_tbl_count {A : Type} (m : M A) : steps (same tbl) m -> steps (same entry_count) m.
Proof. intros H w. unfold same. rewrite (H w). reflexivity. Qed.

Lemma same_tbl_slots {A : Type} (m : M A) : steps (same tbl) m -> steps (same slot_count) m.
Proof. intros H w. unfold same. rewrite (H w). reflexivity. Qed.

Lemma RemLpar_count (lpar_id : Z) : steps (same entry_count) (phypUUIDTable_RemLpar lpar_id).
Proof.
  pose proof (RemLpar_loop_count lpar_id).
  pose proof (same_tbl_count _ WriteFile_tbl). pose proof (same_tbl_count _ Push_tbl).
  unfold phypUUIDTable_RemLpar. steps_tac.
Qed.

Lemma RemLpar_slots (lpar_id : Z) : steps (same slot_count) (phypUUIDTable_RemLpar lpar_id).
Proof.
  pose proof (RemLpar_loop_slots lpar_id).
  pose proof (same_tbl_slots _ WriteFile_tbl). pose proof (same_tbl_slots _ Push_tbl).
  unfold phypUUIDTable_RemLpar. steps_tac.
Qed.

Lemma GetLparUUID_tbl (lpar_id : Z) : steps (same tbl) (phypGetLparUUID lpar_id).
Proof.
  pose proof (GetLparUUID_loop_tbl lpar_id). unfold phypGetLparUUID. steps_tac.
Qed.

Lemma AddLpar_count (u : list byte) (lpar_id : Z) (w : world) :
  0 <= nlpars (tbl w) < SIZE_MAX ->
  entry_count (world_of (phypUUIDTable_AddLpar u lpar_id w)) = nlpars (tbl w) + 1.
Proof.
  intros Hn. unfold phypUUIDTable_AddLpar.
  assert (Hwrap : size_wrap (nlpars (tbl w) + 1) = nlpars (tbl w) + 1).
  { unfold size_wrap. apply Z.mod_small. unfold SIZE_MAX in Hn. lia. }
  rewrite (bind_ok (gets (fun w => nlpars (tbl w))) _ w w _ eq_refl). cbv zeta.
  rewrite Hwrap.
  rewrite (bind_ok (modify (set_nlpars (nlpars (tbl w) + 1))) _ w _ tt eq_refl).
  pose proof (same_tbl_count _ WriteFile_tbl). pose proof (same_tbl_count _ Push_tbl).
  match goal with
  | |- context [world_of (?m ?w1)] =>
      change (same entry_count w1 (world_of (m w1)));
      enough (steps (same entry_count) m) as Hs by apply Hs
  end.
  steps_tac.
Qed.

Lemma run_ops_monotone (ops : list table_op) :
  forall w, 0 <= nlpars (tbl w) ->
    nlpars (tbl w) + Z.of_nat (length ops) <= SIZE_MAX ->
    nlpars (tbl w) <= nlpars (tbl (run_ops ops w)).
Proof.
  induction ops as [|o ops IH]; intros w Hn Hlen; simpl; [lia|].
  simpl in Hlen.
  assert (Hstep : let w1 := world_of (run_op o w) in
                  nlpars (tbl w) <= nlpars (tbl w1) <= nlpars (tbl w) + 1).
  { destruct o as [u' i|i|i]; simpl; rewrite bind_run.
    - pose proof (AddLpar_count u' i w ltac:(lia)) as Ha.
      destruct (phypUUIDTable_AddLpar u' i w); simpl in *; lia.
    - pose proof (RemLpar_count i w) as Hr. unfold same in Hr.
      destruct (phypUUIDTable_RemLpar i w); simpl in *; lia.
    - pose proof (GetLparUUID_tbl i w) as Hg. unfold same in Hg.
      destruct (phypGetLparUUID i w); simpl in *; rewrite Hg; lia. }
  simpl in Hstep.
  destruct (run_op o w) as [[] w1|s w1]; simpl in Hstep; [|lia].
  specialize (IH w1 ltac:(lia) ltac:(lia)). lia.
Qed.

(** C7: add raises the entry count by exactly one, remove and lookup leave
    the count and the array length as they are, and over any sequence of
    operations the count never goes down. *)
Theorem nlpars_never_decreases (u : list byte) (lpar_id : Z) (w : world) :
  0 <= nlpars (tbl w) < SIZE_MAX ->
  nlpars (tbl (world_of (phypUUIDTable_AddLpar u lpar_id w))) = nlpars (tbl w) + 1
  /\ nlpars (tbl (world_of (phypUUIDTable_RemLpar lpar_id w))) = nlpars (tbl w)
  /\ length (lpars (tbl (world_of (phypUUIDTable_RemLpar lpar_id w))))
     = length (lpars (tbl w))
  /\ tbl (world_of (phypGetLparUUID lpar_id w)) = tbl w
  /\ forall ops, nlpars (tbl w) + Z.of_nat (length ops) <= SIZE_MAX ->
       nlpars (tbl w) <= nlpars (tbl (run_ops ops w)).
Proof.
  intros Hn. split; [exact (AddLpar_count u lpar_id w Hn)|].
  split; [exact (RemLpar_count lpar_id w)|].
  split; [exact (RemLpar_slots lpar_id w)|].
  split; [exact (GetLparUUID_tbl lpar_id w)|].
  intros ops Hlen. apply run_ops_monotone; [lia|exact Hlen].
Qed.

(** ** The file format *)

Lemma length_int_bytes (v : Z) : length (int_bytes v) = sizeof_int.
Proof. with_strategy transparent [int_bytes] unfold int_bytes. apply length_le_split. Qed.

Lemma bytes_int_bytes (v : Z) :
  INT_MIN <= v <= INT_MAX -> bytes_int (int_bytes v) = v.
Proof.
  with_strategy transparent [int_bytes bytes_int] unfold INT_MIN, INT_MAX, bytes_int, int_bytes.
  intros Hv.
  rewrite le_combine_split. change (Z.of_nat sizeof_int * 8) with 32.
  destruct (Z.lt_ge_cases v 0) as [Hneg|Hpos].
  - replace (v mod 2 ^ 32) with (v + 2 ^ 32).
    + destruct (Z.ltb_spec (v + 2 ^ 32) (2 ^ 31)); lia.
    + symmetry. rewrite <- (Z.mod_add v 1 (2 ^ 32)) by lia.
      apply Z.mod_small. lia.
  - rewrite Z.mod_small by lia. destruct (Z.ltb_spec v (2 ^ 31)); lia.
Qed.

Lemma length_record_bytes (e : lpar) :
  length (record_bytes e) = (sizeof_int + VIR_UUID_BUFLEN)%nat.
Proof.
  unfold record_bytes. rewrite length_app, length_int_bytes, length_uuid_mem.
  reflexivity.
Qed.

Lemma length_records (entries : list lpar) :
  length (concat (map record_bytes entries))
  = (length entries * (sizeof_int + VIR_UUID_BUFLEN))%nat.
Proof.
  induction entries as [|e entries IH]; [reflexivity|].
  cbn [map concat length]. rewrite length_app, length_record_bytes, IH. lia.
Qed.

(** A [safewrite] that returned the length of its buffer appended it. *)
Lemma safewrite_full (buf : list byte) (w w' : world) (r : Z) :
  safewrite buf w = Ok r w' ->
  r = Z.of_nat (length buf) ->
  file (fs w') = Some (default [] (file (fs w)) ++ buf) /\ tbl w' = tbl w.
Proof.
  unfold safewrite. intros H Hr.
  destruct (length buf <=? free_bytes (fs w))%nat; injection H as <- <-.
  - split; reflexivity.
  - lia.
Qed.

Lemma WriteFile_loop_run (entries : list lpar) :
  forall (done : list lparPtr) (c : list byte) (w w' : world),
    lpars (tbl w) = done ++ map Some entries ->
    file (fs w) = Some c ->
    WriteFile_loop (length entries) (length done) w = Ok true w' ->
    file (fs w') = Some (c ++ concat (map record_bytes entries)).
Proof.
  induction entries as [|e entries IH]; intros done c w w' Hl Hc H.
  - injection H as <-. simpl. rewrite app_nil_r. exact Hc.
  - cbn [length WriteFile_loop] in H.
    bind_inv H e0 w0 E0.
    unfold load_lpar in E0. rewrite Hl in E0.
    rewrite lookup_app_r, Nat.sub_diag in E0 by lia. injection E0 as <- <-.
    bind_inv H r1 w1 E1.
    destruct (Z.eqb_spec r1 (Z.of_nat sizeof_int)) as [Hr1|?]; [|discriminate H].
    simpl in H.
    destruct (safewrite_full _ _ _ _ E1) as [F1 T1];
      [rewrite length_int_bytes; exact Hr1|].
    bind_inv H r2 w2 E2.
    destruct (Z.eqb_spec r2 (Z.of_nat VIR_UUID_BUFLEN)) as [Hr2|?]; [|discriminate H].
    simpl in H.
    destruct (safewrite_full _ _ _ _ E2) as [F2 T2];
      [rewrite length_uuid_mem; exact Hr2|].
    specialize (IH (done ++ [Some e]) ((c ++ int_bytes (id e)) ++ uuid_mem (uuid e)) w2 w').
    rewrite length_app, Nat.add_1_r in IH.
    rewrite IH.
    + cbn [map concat]. unfold record_bytes. rewrite <- !app_assoc. reflexivity.
    + rewrite T2, T1, Hl, <- app_assoc. reflexivity.
    + rewrite F2, F1, Hc. reflexivity.
    + exact H.
Qed.

Lemma WriteFile_run (entries : list lpar) (w w' : world) :
  tbl w = mk_table (Z.of_nat (length entries)) (map Some entries) ->
  phypUUIDTable_WriteFile w = Ok 0 w' ->
  file (fs w') = Some (concat (map record_bytes entries)).
Proof.
  intros Ht H. unfold phypUUIDTable_WriteFile in H.
  bind_inv H fd w0 E0.
  unfold creat, recorded in E0. simpl in E0.
  destruct (creat_ok (fs w)); injection E0 as <- <-; simpl in H; [|discriminate H].
  bind_inv H n w1 E1. injection E1 as <- <-.
  bind_inv H ok w2 E2.
  simpl in E2. rewrite Ht in E2. simpl in E2. rewrite Nat2Z.id in E2.
  destruct ok; simpl in H; [|discriminate H].
  bind_inv H rc w3 E3. injection E3 as <- <-.
  assert (w' = w2) as ->.
  { match type of H with context [if ?b then _ else _] => destruct b end;
      [discriminate H|]. injection H as <-. reflexivity. }
  apply (WriteFile_loop_run entries [] [] _ _) in E2; [exact E2| |reflexivity].
  simpl. rewrite Ht. reflexivity.
Qed.

Lemma insert_at_length {A : Type} (l1 l2 : list A) (x y : A) :
  <[length l1 := y]> (l1 ++ x :: l2) = l1 ++ y :: l2.
Proof.
  replace (length l1) with (length l1 + 0)%nat by lia.
  rewrite insert_app_r. reflexivity.
Qed.

Lemma read_at_record (before r1 r2 rest : list byte) (w : world) :
  file (fs w) = Some (before ++ (r1 ++ r2) ++ rest) ->
  read_at (length before) (length r1) w = Ok r1 w
  /\ read_at (length before + length r1) (length r2) w = Ok r2 w.
Proof.
  intros Hf. unfold read_at, gets. rewrite Hf. cbn [default from_option Datatypes.id].
  split; f_equal.
  - rewrite drop_app_length, <- app_assoc. apply take_app_length.
  - rewrite <- (app_assoc r1), (app_assoc before), <- length_app, drop_app_length.
    apply take_app_length.
Qed.

(** Reading the records back, from file offset [length before]. *)
Lemma ReadFile_loop_run (entries : list lpar) :
  forall (done : list lparPtr) (before : list byte) (w : world),
    Forall wf_lpar entries ->
    file (fs w) = Some (before ++ concat (map record_bytes entries)) ->
    lpars (tbl w) = done ++ replicate (length entries) None ->
    (length entries <= heap w)%nat ->
    exists w',
      ReadFile_loop (length entries) (length done) (length before) w = Ok true w'
      /\ lpars (tbl w') = done ++ map Some entries
      /\ nlpars (tbl w') = nlpars (tbl w).
Proof.
  induction entries as [|e entries IH]; intros done before w Hwf Hf Hl Hh.
  - exists w. simpl in *. rewrite Hl. split; [reflexivity|]. split; reflexivity.
  - apply Forall_cons in Hwf as [[Hid Hu] Hwf].
    cbn [length ReadFile_loop]. cbn [length] in Hh. cbn [map concat] in Hf.
    unfold record_bytes in Hf at 1. rewrite (uuid_mem_id _ Hu) in Hf.
    cbn [length replicate] in Hl.
    destruct (heap w) as [|h] eqn:Eh; [lia|].
    set (w1 := set_lpars (done ++ Some (mk_lpar (id e) (replicate VIR_UUID_BUFLEN NUL))
                            :: replicate (length entries) None) (set_heap h w)).
    set (w2 := set_lpars (done ++ Some e :: replicate (length entries) None)
                         (set_heap h w)).
    (* the id is read and its slot is allocated *)
    destruct (read_at_record _ _ _ _ w Hf) as [R1 _].
    rewrite length_int_bytes in R1.
    rewrite (bind_ok _ _ _ _ _ R1). rewrite length_int_bytes, Nat.eqb_refl.
    cbn [negb]. rewrite (bytes_int_bytes _ Hid).
    assert (A1 : alloc w = Ok true (set_heap h w)) by (unfold alloc; rewrite Eh; reflexivity).
    rewrite (bind_ok _ _ _ _ _ A1). cbn [negb].
    assert (S1 : store_slot (length done)
                   (Some (mk_lpar (id e) (replicate VIR_UUID_BUFLEN NUL))) (set_heap h w)
                 = Ok tt w1).
    { unfold store_slot. simpl. rewrite Hl, length_app. simpl.
      match goal with
      | |- context [(?a <? ?b)%nat] => destruct (Nat.ltb_spec a b) as [_|?]; [|lia]
      end.
      rewrite insert_at_length. reflexivity. }
    rewrite (bind_ok _ _ _ _ _ S1).
    (* the uuid is read into the entry *)
    destruct (read_at_record _ _ _ _ w1 Hf) as [_ R2].
    rewrite length_int_bytes, Hu in R2.
    rewrite (bind_ok _ _ _ _ _ R2). rewrite (uuid_mem_id _ Hu).
    assert (S2 : store_lpar (length done) (mk_lpar (id e) (uuid e)) w1 = Ok tt w2).
    { unfold store_lpar. rewrite bind_run. unfold load_lpar, store_slot.
      subst w1. simpl.
      rewrite lookup_app_r, Nat.sub_diag by lia. simpl. rewrite length_app. simpl.
      match goal with
      | |- context [(?a <? ?b)%nat] => destruct (Nat.ltb_spec a b) as [_|?]; [|lia]
      end.
      rewrite insert_at_length. destruct e. reflexivity. }
    rewrite (bind_ok _ _ _ _ _ S2). rewrite Hu, Nat.eqb_refl. cbn [negb].
    destruct (IH (done ++ [Some e]) ((before ++ int_bytes (id e)) ++ uuid e) w2)
      as (w' & Hrun & Hl' & Hn').
    + exact Hwf.
    + subst w2. cbn [fs set_lpars set_tbl set_heap]. rewrite Hf, <- !app_assoc.
      reflexivity.
    + subst w2. cbn [tbl set_lpars set_tbl lpars]. rewrite <- app_assoc. reflexivity.
    + subst w2. cbn [heap set_lpars set_tbl set_heap]. lia.
    + rewrite !length_app, length_int_bytes, Hu, Nat.add_1_r in Hrun.
      exists w'. split; [|split].
      * exact Hrun.
      * rewrite Hl', <- app_assoc. reflexivity.
      * rewrite Hn'. reflexivity.
Qed.

(** C3: the file [WriteFile] leaves is the records of the entries, one
    after the other and nothing else (20 bytes per entry), and [ReadFile]
    with the same count rebuilds the same sequence of entries from it. *)
Theorem table_file_round_trip (entries : list lpar) (w w1 w2 : world) :
  Forall wf_lpar entries ->
  tbl w = mk_table (Z.of_nat (length entries)) (map Some entries) ->
  phypUUIDTable_WriteFile w = Ok 0 w1 ->
  file (fs w2) = file (fs w1) ->
  open_ok (fs w2) = true ->
  nlpars (tbl w2) = Z.of_nat (length entries) ->
  (length entries < heap w2)%nat ->
  file (fs w1) = Some (concat (map record_bytes entries))
  /\ length (concat (map record_bytes entries)) = (length entries * (4 + 16))%nat
  /\ exists w3, phypUUIDTable_ReadFile w2 = Ok 0 w3
       /\ tbl w3 = mk_table (Z.of_nat (length entries)) (map Some entries).
Proof.
  intros Hwf Ht Hw Hf Ho Hn Hh.
  pose proof (WriteFile_run entries w w1 Ht Hw) as Hfile.
  split; [exact Hfile|]. split; [apply length_records|].
  unfold phypUUIDTable_ReadFile.
  rewrite bind_run. unfold open_rdonly at 1. unfold_calls. simpl.
  unfold can_open. simpl. rewrite Hf, Hfile, Ho. simpl.
  rewrite Hn. destruct (heap w2) as [|h] eqn:Eh; [lia|]. simpl.
  rewrite Nat2Z.id.
  match goal with
  | |- context [ReadFile_loop _ _ _ ?w'] =>
      destruct (ReadFile_loop_run entries [] [] w' Hwf) as (w3 & Hrun & Hl & Hn3)
  end.
  - simpl. rewrite Hf, Hfile. reflexivity.
  - reflexivity.
  - simpl. lia.
  - simpl in Hrun. rewrite Hrun. simpl. eexists. split; [reflexivity|].
    destruct (tbl w3) as [n3 l3] eqn:E3. simpl in *. rewrite Hl.
    f_equal. rewrite Hn3. exact Hn.
Qed.

(** ** Pull and Init *)


















Lemma scp_recv_loop_tbl (fuel : nat) : steps (same tbl) (scp_recv_loop fuel).
Proof. induction fuel as [|fuel IH]; simpl; steps_tac. Qed.

Lemma pull_loop_tbl (fuel : nat) :
  forall got size, steps (same tbl) (pull_loop fuel got size).
Proof. induction fuel as [|fuel IH]; intros; simpl; steps_tac. Qed.

Lemma Pull_tbl : steps (same tbl) phypUUIDTable_Pull.
Proof.
  pose proof scp_recv_loop_tbl. pose proof pull_loop_tbl.
  unfold phypUUIDTable_Pull. steps_tac.
Qed.




(** ** Push *)

(** The other ways the inner loop of [Push] ends early: a would-block
    answer and an error answer both end it, the block is dropped and the
    transfer goes on to return 0; after a second partial write the loop
    resumes past the bytes it has not sent, and its byte count wraps. *)
Example Push_leaves_block_on_would_block :
  exists w', phypUUIDTable_Push would_block_channel_world = Ok 0 w'
    /\ sent_bytes (ssh w') = [].
Proof. eexists. split; [vm_compute; reflexivity|reflexivity]. Qed.

Example Push_goes_on_after_error :
  exists w', phypUUIDTable_Push failing_channel_world = Ok 0 w'
    /\ sent_bytes (ssh w') = [].
Proof. eexists. split; [vm_compute; reflexivity|reflexivity]. Qed.

Example Push_after_two_partial_writes :
  exists w', phypUUIDTable_Push two_partial_writes_world = Crash NoResponse w'
    /\ sent_bytes (ssh w') = lit "01234567"%string.
Proof. eexists. split; [vm_compute; reflexivity|reflexivity]. Qed.

(** A channel that takes a whole block at once gets the file. *)
Example Push_whole_block :
  exists w', phypUUIDTable_Push whole_block_world = Ok 0 w'
    /\ sent_bytes (ssh w') = lit "0123456789"%string.
Proof. eexists. split; [vm_compute; reflexivity|reflexivity]. Qed.

(** C9 fails on the code: with a local file of the two bytes "ab" and a
    channel that takes one byte per write, [phypUUIDTable_Push] sends "a",
    never sends "b", and returns 0. *)
Theorem Push_drops_bytes :
  exists w', phypUUIDTable_Push slow_channel_world = Ok 0 w'
    /\ file (fs w') = Some ["a"; "b"]%byte
    /\ sent_bytes (ssh w') = ["a"]%byte.
Proof. eexists. split; [vm_compute; reflexivity|]. split; reflexivity. Qed.

(** * Further properties of the routines *)

(** ** Running a command: allocation failure and the integer wrapper *)

(** X1: when the read buffer cannot be allocated, [phypExec] returns NULL
    without a call to libssh2 and without a store to [*exit_status]; the
    caller's initial value stays.  [phypGetSystemType] starts from 0, so on
    an allocation failure it returns 0, which is the value [HMC]. *)
Theorem phypExec_allocation_failure (cmd : option cstr) (es : Z) (w : world) :
  heap w = O ->
  phypExec cmd es w = Ok (None, es) w
  /\ phypGetSystemType w = Ok HMC w.
Proof.
  intros H.
  assert (E : forall c e, phypExec c e w = Ok (None, e) w).
  { intros c e. unfold phypExec.
    rewrite (bind_ok alloc _ w w false); [reflexivity|].
    unfold alloc. rewrite H. reflexivity. }
  split; [apply E|].
  unfold phypGetSystemType. rewrite (bind_ok _ _ w w (None, 0) (E _ _)).
  reflexivity.
Qed.

(** X2: [phypExecInt] returns 0 or -1.  It returns 0 only when the command
    gave output with exit status 0 and the first line of the output starts
    with a number, which is then stored to [*result]; whenever it returns
    -1, [*result] is as the caller left it. *)
Theorem phypExecInt_result (buf : virBuffer) (result : Z) (w w' : world) (rc v : Z) :
  phypExecInt buf result w = Ok (rc, v) w' ->
  (rc = 0 \/ rc = -1)
  /\ (rc = -1 -> v = result)
  /\ (rc = 0 -> exists str rest,
        phypExecBuffer buf 0 true w = Ok (Some str, 0) w'
        /\ virStrToLong_i str = Some (v, rest)).
Proof.
  unfold phypExecInt. intros H.
  bind_inv H r w1 E. destruct r as [[str|] code]; simpl in H.
  - destruct (code =? 0) eqn:Hc; simpl in H.
    + apply Z.eqb_eq in Hc. subst code.
      destruct (virStrToLong_i str) as [[v' rest]|] eqn:Hp;
        injection H as <- <- <-.
      * split; [left; reflexivity|]. split; [discriminate|].
        intros _. exists str, rest. split; [reflexivity|exact Hp].
      * split; [right; reflexivity|]. split; [reflexivity|discriminate].
    + injection H as <- <- <-.
      split; [right; reflexivity|]. split; [reflexivity|discriminate].
  - injection H as <- <- <-.
    split; [right; reflexivity|]. split; [reflexivity|discriminate].
Qed.

(** ** The table when an allocation fails *)

Lemma GetLparUUID_loop_skip (lpar_id : Z) (todo : list lparPtr) :
  forall (done rest : list lparPtr) (k : nat) (w : world),
    lpars (tbl w) = done ++ todo ++ rest ->
    Forall (fun p => exists e, p = Some e) todo ->
    first_uuid lpar_id todo = None ->
    GetLparUUID_loop (length todo + k) (length done) lpar_id w
    = GetLparUUID_loop k (length done + length todo) lpar_id w.
Proof.
  induction todo as [|p todo IH]; intros done rest k w Hl Hall Hnone.
  - simpl. rewrite Nat.add_0_r. reflexivity.
  - inversion Hall as [|? ? [e ->] Hall']; subst.
    simpl in Hnone. destruct (id e =? lpar_id) eqn:He; [discriminate|].
    cbn [length Nat.add GetLparUUID_loop].
    rewrite (bind_ok (load_lpar (length done)) _ w w e).
    + rewrite He.
      specialize (IH (done ++ [Some e]) rest k w).
      rewrite length_app in IH. cbn [length] in IH.
      rewrite Nat.add_1_r in IH. rewrite IH; [|rewrite <- app_assoc; exact Hl|exact Hall'|exact Hnone].
      f_equal. lia.
    + unfold load_lpar. rewrite Hl.
      rewrite lookup_app_r by lia. rewrite Nat.sub_diag. reflexivity.
Qed.

(** X3: [phypUUIDTable_AddLpar] counts the new entry before it allocates.
    When the array cannot be grown (no allocation succeeds), or the array
    grows and the entry cannot be allocated (one allocation succeeds), it
    returns -1 with [nlpars] incremented, the old entries in place, the new
    slot missing or NULL, and the local file untouched.  In that table a
    lookup of an id that no entry has reads the slot that is missing or
    NULL. *)
Theorem AddLpar_allocation_failure (u : list byte) (lpar_id : Z) (w : world) :
  valid_table (tbl w) ->
  (heap w <= 1)%nat ->
  exists w' s,
    phypUUIDTable_AddLpar u lpar_id w = Ok (-1) w'
    /\ nlpars (tbl w') = nlpars (tbl w) + 1
    /\ lpars (tbl w') = lpars (tbl w) ++ replicate (heap w) None
    /\ fs w' = fs w
    /\ s = match heap w with
           | O => OutOfBounds (length (lpars (tbl w)))
           | S _ => NullDeref
           end
    /\ forall other, first_uuid other (lpars (tbl w)) = None ->
         phypGetLparUUID other w' = Crash s w'.
Proof.
  intros (Hn & Hmax & Hall) Hheap.
  assert (Hsome : Forall (fun p => exists e, p = Some e) (lpars (tbl w))).
  { eapply Forall_impl; [exact Hall|]. intros p (e & -> & _). eauto. }
  destruct w as [[n l] d h f s us ss lg]. simpl in *. subst n.
  assert (Hw : size_wrap (Z.of_nat (length l) + 1) = Z.of_nat (length l) + 1).
  { unfold size_wrap. apply Z.mod_small. unfold SIZE_MAX in Hmax. lia. }
  assert (Hi : Z.to_nat (size_wrap (Z.of_nat (length l) + 1 - 1)) = length l).
  { replace (Z.of_nat (length l) + 1 - 1) with (Z.of_nat (length l)) by lia.
    unfold size_wrap. rewrite Z.mod_small by (unfold SIZE_MAX in Hmax; lia).
    apply Nat2Z.id. }
  assert (Hres : resize (Z.to_nat (Z.of_nat (length l) + 1)) None l = l ++ [None]).
  { replace (Z.to_nat (Z.of_nat (length l) + 1)) with (length l + 1)%nat by lia.
    rewrite resize_add, resize_all, drop_all. reflexivity. }
  destruct h as [|[|h]]; [| |lia].
  - eexists _, _. split; [|split; [|split; [|split; [|split; [reflexivity|]]]]].
    + unfold phypUUIDTable_AddLpar, realloc_lpars, alloc, modify, gets.
      unfold mbind, M_bind, mret, M_ret. cbn. rewrite Hw. reflexivity.
    + reflexivity.
    + simpl. rewrite app_nil_r. reflexivity.
    + reflexivity.
    + intros other Hnone. unfold phypGetLparUUID, gets.
      unfold mbind at 1. unfold M_bind at 1. cbn.
      replace (Z.to_nat (Z.of_nat (length l) + 1)) with (length l + 1)%nat by lia.
      rewrite (GetLparUUID_loop_skip other l [] [] 1);
        [|simpl; rewrite app_nil_r; reflexivity|exact Hsome|exact Hnone].
      cbn. unfold load_lpar, mbind, M_bind. cbn.
      rewrite lookup_ge_None_2 by lia. reflexivity.
  - eexists _, _. split; [|split; [|split; [|split; [|split; [reflexivity|]]]]].
    + unfold phypUUIDTable_AddLpar, realloc_lpars, alloc, modify, gets, store_slot.
      unfold mbind, M_bind, mret, M_ret. cbn. rewrite Hw, Hi, Hres.
      rewrite length_app. cbn [length]. rewrite Nat.add_1_r, Nat.leb_refl.
      reflexivity.
    + reflexivity.
    + cbn. rewrite ?Hres, insert_at_length. reflexivity.
    + reflexivity.
    + intros other Hnone. unfold phypGetLparUUID, gets.
      unfold mbind at 1. unfold M_bind at 1. cbn.
      rewrite ?Hres, insert_at_length.
      replace (Z.to_nat (Z.of_nat (length l) + 1)) with (length l + 1)%nat by lia.
      rewrite (GetLparUUID_loop_skip other l [] [None] 1);
        [|reflexivity|exact Hsome|exact Hnone].
      cbn. unfold load_lpar, mbind, M_bind. cbn.
      rewrite lookup_app_r by lia. rewrite Nat.sub_diag. reflexivity.
Qed.

(** ** The local file: a full disk, a short file, a failed allocation *)

Lemma safewrite_run (buf : list byte) (w : world) :
  exists w',
    safewrite buf w
    = Ok (if (length buf <=? free_bytes (fs w))%nat then Z.of_nat (length buf) else -1) w'
    /\ file (fs w')
       = Some (default [] (file (fs w)) ++ take (free_bytes (fs w)) buf)
    /\ free_bytes (fs w') = (free_bytes (fs w) - length buf)%nat
    /\ tbl w' = tbl w.
Proof.
  unfold safewrite. cbv zeta.
  destruct (Nat.leb_spec (length buf) (free_bytes (fs w))) as [Hle|Hlt].
  - eexists. split; [reflexivity|]. cbn.
    rewrite take_ge by lia. auto.
  - eexists. split; [reflexivity|]. cbn.
    split; [reflexivity|]. split; [lia|reflexivity].
Qed.

(** What the loop of [WriteFile] leaves in the file, whether the disk has
    room for the records or not. *)
Lemma WriteFile_loop_disk (entries : list lpar) :
  forall (done : list lparPtr) (c : list byte) (w : world),
    lpars (tbl w) = done ++ map Some entries ->
    file (fs w) = Some c ->
    exists w',
      WriteFile_loop (length entries) (length done) w
      = Ok (length entries * 20 <=? free_bytes (fs w))%nat w'
      /\ file (fs w')
         = Some (c ++ take (free_bytes (fs w)) (concat (map record_bytes entries))).
Proof.
  induction entries as [|e entries IH]; intros done c w Hl Hf.
  - exists w. split; [reflexivity|]. simpl. rewrite take_nil, app_nil_r. exact Hf.
  - cbn [length WriteFile_loop map concat].
    rewrite (bind_ok (load_lpar (length done)) _ w w e).
    2:{ unfold load_lpar. rewrite Hl. simpl.
        rewrite lookup_app_r by lia. rewrite Nat.sub_diag. reflexivity. }
    destruct (safewrite_run (int_bytes (id e)) w) as (w1 & E1 & F1 & R1 & T1).
    rewrite (bind_ok _ _ _ _ _ E1). rewrite Hf in F1. cbn [default from_option Datatypes.id] in F1.
    rewrite (length_int_bytes (id e)) in *.
    change sizeof_int with 4%nat in *.
    destruct (Nat.leb_spec 4 (free_bytes (fs w))) as [H4|H4].
    + change (negb (Z.of_nat 4 =? Z.of_nat 4)) with false. cbv iota.
      destruct (safewrite_run (uuid_mem (uuid e)) w1) as (w2 & E2 & F2 & R2 & T2).
      rewrite (bind_ok _ _ _ _ _ E2). rewrite F1 in F2. cbn [default from_option Datatypes.id] in F2.
      rewrite (length_uuid_mem (uuid e)) in *.
      change VIR_UUID_BUFLEN with 16%nat in *.
      destruct (Nat.leb_spec 16 (free_bytes (fs w1))) as [H16|H16].
      * change (negb (Z.of_nat 16 =? Z.of_nat 16)) with false. cbv iota.
        destruct (IH (done ++ [Some e]) (c ++ int_bytes (id e) ++ uuid_mem (uuid e)) w2)
          as (w3 & E3 & F3).
        { rewrite <- app_assoc. rewrite <- T1, <- T2 in Hl. exact Hl. }
        { rewrite F2. f_equal. rewrite <- !app_assoc. f_equal.
          rewrite take_ge by (rewrite (length_int_bytes (id e)); exact H4).
          f_equal. apply take_ge. rewrite (length_uuid_mem (uuid e)). exact H16. }
        rewrite length_app in E3. cbn [length] in E3. rewrite Nat.add_1_r in E3.
        exists w3. split.
        -- rewrite E3. f_equal.
           destruct (Nat.leb_spec (length entries * 20) (free_bytes (fs w2)));
             symmetry; [apply Nat.leb_le|apply Nat.leb_gt]; lia.
        -- rewrite F3. f_equal. rewrite <- !app_assoc. f_equal.
           unfold record_bytes at 2. rewrite <- !app_assoc.
           rewrite take_app_ge by (rewrite (length_int_bytes (id e)); exact H4).
           f_equal. rewrite (length_int_bytes (id e)).
           rewrite take_app_ge
             by (rewrite (length_uuid_mem (uuid e)); change sizeof_int with 4%nat;
                 change VIR_UUID_BUFLEN with 16%nat; lia).
           f_equal. rewrite (length_uuid_mem (uuid e)). f_equal.
           change sizeof_int with 4%nat. change VIR_UUID_BUFLEN with 16%nat. lia.
      * change (negb (-1 =? Z.of_nat 16)) with true. cbv iota.
        exists w2. split.
        -- replace (S (length entries) * 20 <=? free_bytes (fs w))%nat with false
             by (symmetry; apply Nat.leb_gt; lia).
           reflexivity.
        -- rewrite F2. f_equal. rewrite <- !app_assoc. f_equal.
           unfold record_bytes. rewrite <- !app_assoc.
           rewrite take_app_ge by (rewrite (length_int_bytes (id e)); exact H4).
           rewrite take_ge by (rewrite (length_int_bytes (id e)); exact H4).
           f_equal. rewrite (length_int_bytes (id e)).
           rewrite take_app_le
             by (rewrite (length_uuid_mem (uuid e)); change sizeof_int with 4%nat;
                 change VIR_UUID_BUFLEN with 16%nat; lia).
           f_equal. change sizeof_int with 4%nat. lia.
    + change (negb (-1 =? Z.of_nat 4)) with true. cbv iota.
      exists w1. split.
      * replace (S (length entries) * 20 <=? free_bytes (fs w))%nat with false
          by (symmetry; apply Nat.leb_gt; lia).
        reflexivity.
      * rewrite F1. f_equal. f_equal. unfold record_bytes. rewrite <- !app_assoc.
        rewrite take_app_le by (rewrite (length_int_bytes (id e)); change sizeof_int with 4%nat; lia).
        reflexivity.
Qed.

(** X4: on a disk that has no room for the whole table,
    [phypUUIDTable_WriteFile] returns -1 and leaves the local file cut off
    at the byte where the disk was full; the table in memory is as it
    was. *)
Theorem WriteFile_disk_full (entries : list lpar) (w : world) :
  tbl w = mk_table (Z.of_nat (length entries)) (map Some entries) ->
  creat_ok (fs w) = true ->
  (free_bytes (fs w) < length entries * 20)%nat ->
  exists w',
    phypUUIDTable_WriteFile w = Ok (-1) w'
    /\ file (fs w')
       = Some (take (free_bytes (fs w)) (concat (map record_bytes entries)))
    /\ tbl w' = tbl w.
Proof.
  intros Ht Hc Hfree.
  pose proof (WriteFile_tbl w) as Hsame. unfold same in Hsame.
  unfold phypUUIDTable_WriteFile in *.
  set (w0 := set_fs (set_file (Some []) (free_bytes (fs w)) (fs w)) (add_log EvCreat w)).
  assert (E0 : creat w = Ok true w0).
  { unfold creat, recorded. cbn. rewrite Hc. reflexivity. }
  rewrite (bind_ok _ _ _ _ _ E0) in *. cbn [negb] in *. cbv iota in *.
  rewrite (bind_ok (gets _) _ w0 w0 (Z.of_nat (length entries))) in *
    by (unfold gets; cbn; rewrite Ht; reflexivity).
  rewrite Nat2Z.id in *.
  destruct (WriteFile_loop_disk entries [] [] w0) as (w1 & E1 & F1).
  { cbn. rewrite Ht. reflexivity. }
  { reflexivity. }
  cbn [length] in E1. rewrite (bind_ok _ _ _ _ _ E1) in *.
  replace (length entries * 20 <=? free_bytes (fs w0))%nat with false in *
    by (symmetry; apply Nat.leb_gt; exact Hfree).
  cbn [negb] in *. cbv iota in *.
  exists w1. split; [reflexivity|]. split; [exact F1|exact Hsame].
Qed.

Lemma store_slot_run (i : nat) (p : lparPtr) (w : world) :
  (i < length (lpars (tbl w)))%nat ->
  store_slot i p w = Ok tt (set_lpars (<[i:=p]> (lpars (tbl w))) w).
Proof.
  intros H. unfold store_slot.
  replace (i <? length (lpars (tbl w)))%nat with true
    by (symmetry; apply Nat.ltb_lt; exact H).
  reflexivity.
Qed.

Lemma store_lpar_run (i : nat) (e0 e : lpar) (w : world) :
  lpars (tbl w) !! i = Some (Some e0) ->
  store_lpar i e w = Ok tt (set_lpars (<[i:=Some e]> (lpars (tbl w))) w).
Proof.
  intros H. unfold store_lpar.
  rewrite (bind_ok (load_lpar i) _ w w e0) by (unfold load_lpar; rewrite H; reflexivity).
  apply store_slot_run. apply lookup_lt_is_Some. eauto.
Qed.

(** The loop of [ReadFile] returns, keeps the file, the count and the
    size of the array, and goes through only when the file holds a whole
    record for every turn. *)
Lemma ReadFile_loop_cases (n : nat) :
  forall (i pos : nat) (w : world),
    length (lpars (tbl w)) = (i + n)%nat ->
    (pos <= length (default [] (file (fs w))))%nat ->
    exists b w',
      ReadFile_loop n i pos w = Ok b w'
      /\ fs w' = fs w
      /\ nlpars (tbl w') = nlpars (tbl w)
      /\ length (lpars (tbl w')) = (i + n)%nat
      /\ (b = true -> (pos + n * 20 <= length (default [] (file (fs w))))%nat).
Proof.
  induction n as [|n IH]; intros i pos w Hlen Hpos.
  - exists true, w. split; [reflexivity|]. repeat split; try assumption.
    intros _. lia.
  - cbn [ReadFile_loop].
    set (c := default [] (file (fs w))) in *.
    set (bs := take sizeof_int (drop pos c)).
    rewrite (bind_ok (read_at pos sizeof_int) _ w w bs) by reflexivity.
    destruct (length bs =? sizeof_int)%nat eqn:Hbs; cbn [negb]; cbv iota.
    2:{ exists false, w. split; [reflexivity|]. repeat split; try assumption.
        discriminate. }
    apply Nat.eqb_eq in Hbs.
    assert (H4 : (pos + 4 <= length c)%nat).
    { unfold bs in Hbs. rewrite length_take, length_drop in Hbs.
      change sizeof_int with 4%nat in Hbs. lia. }
    destruct (heap w) as [|h] eqn:Hh.
    + rewrite (bind_ok alloc _ w w false) by (unfold alloc; rewrite Hh; reflexivity).
      cbn [negb]. cbv iota.
      rewrite (bind_ok _ _ _ _ _ (store_slot_run i None w ltac:(lia))).
      eexists false, _. split; [reflexivity|]. cbn. rewrite length_insert.
      repeat split; try assumption; discriminate.
    + rewrite (bind_ok alloc _ w (set_heap h w) true)
        by (unfold alloc; rewrite Hh; reflexivity).
      cbn [negb]. cbv iota.
      set (w1 := set_heap h w).
      assert (Hi : (i < length (lpars (tbl w1)))%nat) by (cbn; lia).
      rewrite (bind_ok _ _ _ _ _ (store_slot_run i _ w1 Hi)).
      set (w2 := set_lpars _ w1).
      set (us := take VIR_UUID_BUFLEN (drop (pos + sizeof_int) c)).
      rewrite (bind_ok (read_at _ _) _ w2 w2 us) by reflexivity.
      assert (Hi2 : lpars (tbl w2) !! i
                    = Some (Some (mk_lpar (bytes_int bs) (replicate VIR_UUID_BUFLEN NUL)))).
      { cbn. apply list_lookup_insert_eq. exact Hi. }
      rewrite (bind_ok _ _ _ _ _ (store_lpar_run i _ _ w2 Hi2)).
      set (w3 := set_lpars _ w2).
      destruct (length us =? VIR_UUID_BUFLEN)%nat eqn:Hus; cbn [negb]; cbv iota.
      2:{ exists false, w3. split; [reflexivity|]. cbn. rewrite !length_insert.
          repeat split; try assumption; discriminate. }
      apply Nat.eqb_eq in Hus.
      assert (H20 : (pos + 20 <= length c)%nat).
      { unfold us in Hus. rewrite length_take, length_drop in Hus.
        change sizeof_int with 4%nat in Hus.
        change VIR_UUID_BUFLEN with 16%nat in Hus. lia. }
      destruct (IH (S i) (pos + sizeof_int + VIR_UUID_BUFLEN)%nat w3)
        as (b & w' & E & Hfs & Hn & Hl & Hb).
      { cbn. rewrite !length_insert. lia. }
      { change (default [] (file (fs w3))) with c.
        change sizeof_int with 4%nat. change VIR_UUID_BUFLEN with 16%nat. lia. }
      exists b, w'. split; [exact E|]. split; [exact Hfs|]. split; [exact Hn|].
      split; [lia|].
      intros Hb'. specialize (Hb Hb').
      change (default [] (file (fs w3))) with c in Hb.
      change sizeof_int with 4%nat in Hb. change VIR_UUID_BUFLEN with 16%nat in Hb.
      lia.
Qed.

(** X5: when the local file is shorter than the [nlpars] records the
    table is expected to have, [phypUUIDTable_ReadFile] returns -1: a file
    that was cut off is not taken for a table.  The count stays, and the
    array has [nlpars] slots, of which those past the cut are NULL. *)
Theorem ReadFile_short_file (w : world) (c : list byte) :
  file (fs w) = Some c ->
  open_ok (fs w) = true ->
  (0 < heap w)%nat ->
  (length c < Z.to_nat (nlpars (tbl w)) * 20)%nat ->
  exists w',
    phypUUIDTable_ReadFile w = Ok (-1) w'
    /\ nlpars (tbl w') = nlpars (tbl w)
    /\ length (lpars (tbl w')) = Z.to_nat (nlpars (tbl w))
    /\ file (fs w') = Some c.
Proof.
  intros Hf Ho Hh Hlen.
  unfold phypUUIDTable_ReadFile.
  rewrite (bind_ok open_rdonly _ w (add_log EvOpenRead w) true).
  2:{ unfold open_rdonly, emit, modify, gets, can_open. unfold mbind, M_bind. cbn.
      rewrite Hf, Ho. reflexivity. }
  cbn [negb]. cbv iota.
  set (w0 := add_log EvOpenRead w).
  rewrite (bind_ok (gets _) _ w0 w0 (nlpars (tbl w))) by reflexivity.
  destruct (heap w) as [|h] eqn:Hheap; [lia|].
  rewrite (bind_ok alloc _ w0 (set_heap h w0) true)
    by (unfold alloc; cbn; rewrite Hheap; reflexivity).
  cbv iota.
  set (n := Z.to_nat (nlpars (tbl w))) in *.
  rewrite (bind_ok (modify _) _ (set_heap h w0)
             (set_lpars (replicate n None) (set_heap h w0)) tt) by reflexivity.
  destruct (ReadFile_loop_cases n 0 0 (set_lpars (replicate n None) (set_heap h w0)))
    as (b & w' & E & Hfs & Hn & Hl & Hb).
  { cbn. apply length_replicate. }
  { lia. }
  rewrite (bind_ok _ _ _ _ _ E).
  destruct b.
  - specialize (Hb eq_refl). cbn in Hb. rewrite Hf in Hb. cbn in Hb. lia.
  - exists w'. split; [reflexivity|]. split; [exact Hn|]. split; [exact Hl|].
    rewrite Hfs. exact Hf.
Qed.

(** X6: when the array of the table cannot be allocated,
    [phypUUIDTable_ReadFile] skips the loop and returns 0: the failure is
    reported as success.  The array is then NULL while [nlpars] still
    counts the entries that were expected, so that a lookup in a table
    that should have entries reads through the NULL array. *)
Theorem ReadFile_allocation_failure (w : world) :
  can_open w = true ->
  heap w = O ->
  exists w',
    phypUUIDTable_ReadFile w = Ok 0 w'
    /\ lpars (tbl w') = []
    /\ nlpars (tbl w') = nlpars (tbl w)
    /\ (0 < nlpars (tbl w) ->
        forall lpar_id, phypGetLparUUID lpar_id w' = Crash (OutOfBounds 0) w').
Proof.
  intros Ho Hh.
  exists (set_lpars [] (add_log EvOpenRead w)). split; [|split; [|split]].
  - unfold phypUUIDTable_ReadFile.
    rewrite (bind_ok open_rdonly _ w (add_log EvOpenRead w) true).
    2:{ unfold open_rdonly, emit, modify, gets. unfold mbind, M_bind.
        unfold can_open in *. cbn. rewrite Ho. reflexivity. }
    cbn [negb]. cbv iota.
    rewrite (bind_ok (gets _) _ _ _ _ eq_refl).
    rewrite (bind_ok alloc _ (add_log EvOpenRead w) (add_log EvOpenRead w) false)
      by (unfold alloc; cbn; rewrite Hh; reflexivity).
    reflexivity.
  - reflexivity.
  - reflexivity.
  - intros Hn lpar_id. unfold phypGetLparUUID.
    rewrite (bind_ok (gets _) _ _ _ _ eq_refl). cbn [nlpars tbl set_lpars set_tbl add_log].
    destruct (Z.to_nat (nlpars (tbl w))) as [|k] eqn:Hk; [lia|].
    reflexivity.
Qed.

(** ** The table after a failed start *)

Lemma Init_create_count (n : nat) :
  forall i ids, steps (same entry_count) (Init_create n i ids).
Proof. induction n as [|n IH]; intros; simpl; steps_tac. Qed.

Lemma ReadFile_loop_count (n : nat) :
  forall i pos, steps (same entry_count) (ReadFile_loop n i pos).
Proof. induction n as [|n IH]; intros; simpl; steps_tac. Qed.

Lemma ReadFile_count : steps (same entry_count) phypUUIDTable_ReadFile.
Proof. pose proof ReadFile_loop_count. unfold phypUUIDTable_ReadFile. steps_tac. Qed.

Lemma Init_cleanup_count (ret : Z) (created : bool) :
  steps (same entry_count) (Init_cleanup ret created).
Proof. unfold Init_cleanup. steps_tac. Qed.

(** Whatever path [Init_table] takes, the count it stored stays. *)
Lemma Init_table_count (n : Z) (ids : list Z) (w : world) :
  nlpars (tbl (world_of (Init_table n ids w))) = n.
Proof.
  unfold Init_table. rewrite bind_run. cbn [modify].
  match goal with
  | |- nlpars (tbl (world_of (?m _))) = _ =>
      assert (S : steps (same entry_count) m)
  end.
  { pose proof Init_create_count. pose proof ReadFile_count.
    pose proof Init_cleanup_count.
    pose proof (same_tbl_count _ Pull_tbl).
    pose proof (same_tbl_count _ WriteFile_tbl).
    pose proof (same_tbl_count _ Push_tbl).
    steps_tac. }
  apply (S (set_nlpars n w)).
Qed.

Lemma Init_cleanup_created (ret : Z) (w w' : world) (r : Z) :
  Init_cleanup ret true w = Ok r w' ->
  r = ret /\ (ret < 0 -> lpars (tbl w') = []).
Proof.
  unfold Init_cleanup. intros H.
  destruct (ret <? 0) eqn:Hr; cbn [andb] in H.
  - bind_inv H u w1 E. injection H as <- <-. split; [reflexivity|]. intros _.
    unfold free_lpars in E.
    destruct (length (lpars (tbl w)) <? Z.to_nat (nlpars (tbl w)))%nat; [discriminate|].
    injection E as _ <-. reflexivity.
  - cbn in H. injection H as <- <-. split; [reflexivity|].
    apply Z.ltb_ge in Hr. lia.
Qed.

(** X7: when the table cannot be pulled and creating it fails (an entry
    cannot be allocated, the local file cannot be written or the copy to
    the server fails), [phypUUIDTable_Init] frees the array in its cleanup
    but leaves [nlpars] at the number of domains.  [phypConnectOpen] then
    goes to its failure path, where [phypUUIDTable_Free] walks [nlpars]
    slots of the array that is now NULL. *)
Theorem Init_failure_then_Free (n : Z) (ids : list Z) (w w1 w' : world) :
  0 < n ->
  phypUUIDTable_Pull (set_nlpars n w) = Ok (-1) w1 ->
  Init_table n ids w = Ok (-1) w' ->
  nlpars (tbl w') = n
  /\ lpars (tbl w') = []
  /\ open_failure true w' = Crash (OutOfBounds 0) w'.
Proof.
  intros Hn HP H.
  assert (Hcount : nlpars (tbl w') = n).
  { pose proof (Init_table_count n ids w) as Hc. rewrite H in Hc. exact Hc. }
  assert (Hl : lpars (tbl w') = []).
  { unfold Init_table in H.
    rewrite (bind_ok (modify _) _ w (set_nlpars n w) tt eq_refl) in H.
    rewrite (bind_ok _ _ _ _ _ HP) in H.
    change (-1 =? -1) with true in H. cbv iota in H.
    bind_inv H ok w2 E2. destruct ok; cbn [negb] in H.
    - bind_inv H u w3 E3. bind_inv H ok w4 E4. destruct ok; cbn [negb] in H.
      + bind_inv H rc w5 E5. destruct (rc =? -1).
        * apply Init_cleanup_created in H. apply H. lia.
        * bind_inv H rc' w6 E6. destruct (rc' =? -1).
          -- apply Init_cleanup_created in H. apply H. lia.
          -- apply Init_cleanup_created in H. destruct H as [H _]. discriminate H.
      + apply Init_cleanup_created in H. apply H. lia.
    - bind_inv H u w3 E3. apply Init_cleanup_created in H. apply H. lia. }
  split; [exact Hcount|]. split; [exact Hl|].
  unfold open_failure, phypUUIDTable_Free.
  assert (E : free_lpars w' = Crash (OutOfBounds 0) w').
  { unfold free_lpars. rewrite Hl, Hcount. cbn [length].
    replace (0 <? Z.to_nat n)%nat with true by (symmetry; apply Nat.ltb_lt; lia).
    reflexivity. }
  rewrite (bind_crash _ _ _ _ _ (bind_crash _ _ _ _ _ E)). reflexivity.
Qed.

(** ** Listing the domain ids *)




(** ** Looking up an id *)

Lemma first_uuid_None (lpar_id : Z) (l : list lparPtr) :
  first_uuid lpar_id l = None
  <-> forall e, In (Some e) l -> id e <> lpar_id.
Proof.
  induction l as [|[e|] l IH]; simpl.
  - split; [intros _ e []|reflexivity].
  - destruct (Z.eqb_spec (id e) lpar_id) as [Heq|Hne].
    + split; [discriminate|]. intros H. exfalso. apply (H e); auto.
    + rewrite IH. split.
      * intros H e' [E|Hin]; [injection E as <-; exact Hne|apply H; exact Hin].
      * intros H e' Hin. apply H. right. exact Hin.
  - rewrite IH. split.
    + intros H e' [E|Hin]; [discriminate E|apply H; exact Hin].
    + intros H e' Hin. apply H. right. exact Hin.
Qed.

Lemma first_uuid_Some (lpar_id : Z) (l : list lparPtr) (u : list byte) :
  first_uuid lpar_id l = Some u ->
  exists e, In (Some e) l /\ id e = lpar_id /\ uuid_mem (uuid e) = u.
Proof.
  induction l as [|[e|] l IH]; simpl; [discriminate| |].
  - destruct (Z.eqb_spec (id e) lpar_id) as [Heq|Hne].
    + intros H. injection H as <-. exists e. auto.
    + intros H. destruct (IH H) as (e' & Hin & He'). exists e'. auto.
  - intros H. destruct (IH H) as (e' & Hin & He'). exists e'. auto.
Qed.

(** X9: in a table as the routines leave it, [phypGetLparUUID] returns -1
    exactly when no entry has the id, and otherwise copies out the 16
    bytes of an entry that has it; the lookup changes nothing, neither the
    table nor the file nor the channel. *)
Theorem GetLparUUID_missing_id (lpar_id : Z) (w : world) :
  valid_table (tbl w) ->
  exists r,
    phypGetLparUUID lpar_id w = Ok r w
    /\ (r = None <-> forall e, In (Some e) (lpars (tbl w)) -> id e <> lpar_id)
    /\ (forall u, r = Some u ->
        length u = VIR_UUID_BUFLEN
        /\ exists e, In (Some e) (lpars (tbl w)) /\ id e = lpar_id /\ uuid e = u).
Proof.
  intros (Hn & Hmax & Hall).
  exists (first_uuid lpar_id (lpars (tbl w))). split; [|split].
  - apply phypGetLparUUID_run; [exact Hn|].
    eapply Forall_impl; [exact Hall|]. intros p (e & -> & _). eauto.
  - apply first_uuid_None.
  - intros u Hu. destruct (first_uuid_Some _ _ _ Hu) as (e & Hin & Hid & Hue).
    rewrite List.Forall_forall in Hall. destruct (Hall _ Hin) as (e' & He' & Hlen).
    injection He' as <-. rewrite (uuid_mem_id _ Hlen) in Hue. subst u.
    split; [exact Hlen|]. exists e. auto.
Qed.

(** ** Opening a connection *)

(** Inversion of a run that returned: one step at a time. *)
Ltac walk H :=
  repeat first
    [ progress cbn [negb] in H
    | match type of H with
      | (if ?b then _ else _) _ = Ok _ _ => destruct b eqn:?
      | (match ?x with _ => _ end) _ = Ok _ _ => destruct x eqn:?
      | (_ ≫= _) _ = Ok _ _ =>
          let a := fresh "a" in
          let w := fresh "w" in
          let E := fresh "E" in
          bind_inv H a w E
      end ].

Lemma open_failure_status (uuid_table : bool) (w w' : world) (st : virDrvOpenStatus) :
  open_failure uuid_table w = Ok st w' -> st = VIR_DRV_OPEN_ERROR.
Proof.
  unfold open_failure. intros H. bind_inv H a w1 E. injection H as <- _. reflexivity.
Qed.

#[local] Instance quiet_preorder : PreOrder quiet.
Proof.
  split.
  - intros w. split; [reflexivity|]. exists []. symmetry. apply app_nil_r.
  - intros a b c (D1 & l1 & L1) (D2 & l2 & L2). split; [congruence|].
    exists (l1 ++ l2). rewrite L2, L1. symmetry. apply app_assoc.
Qed.

(** One call of a double is quiet: by cases on its answer. *)
Ltac quiet_call :=
  let w := fresh "w" in
  intros w; unfold_calls; simpl;
  repeat (case_inner; simpl);
  (split; [reflexivity|]); simpl; rewrite <- ?app_assoc;
  first [ exists []; symmetry; apply app_nil_r | eexists; reflexivity ].

Ltac quiet_tac :=
  repeat match goal with
    | H : _ |- steps _ _ => simple apply H
    | |- steps _ (mret _) => apply steps_ret; try exact _
    | |- steps _ (crash _) => apply steps_crash; try exact _
    | |- steps _ (gets _) => apply steps_gets; try exact _
    | |- steps _ (_ ≫= _) => (apply steps_bind; try exact _); [|intros ?]
    | |- steps _ (let _ := _ in _) => cbv zeta
    | |- steps _ (if ?b then _ else _) => destruct b
    | |- steps _ (match ?x with _ => _ end) => destruct x
    | |- steps _ _ => solve [quiet_call]
    end.

Lemma open_session_loop_quiet fuel : steps quiet (open_session_loop fuel).
Proof. induction fuel as [|fuel IH]; simpl; quiet_tac. Qed.

Lemma exec_loop_quiet fuel cmd : steps quiet (exec_loop fuel cmd).
Proof. induction fuel as [|fuel IH]; simpl; quiet_tac. Qed.

Lemma read_loop_quiet fuel : forall buffer tex, steps quiet (read_loop fuel buffer tex).
Proof. induction fuel as [|fuel IH]; intros; simpl; quiet_tac. Qed.

Lemma close_loop_quiet fuel : steps quiet (close_loop fuel).
Proof. induction fuel as [|fuel IH]; simpl; quiet_tac. Qed.

Lemma phypExec_quiet cmd es : steps quiet (phypExec cmd es).
Proof.
  pose proof open_session_loop_quiet. pose proof exec_loop_quiet.
  pose proof read_loop_quiet. pose proof close_loop_quiet.
  unfold phypExec. quiet_tac.
Qed.

Lemma phypExecBuffer_quiet buf es strip : steps quiet (phypExecBuffer buf es strip).
Proof. pose proof phypExec_quiet. unfold phypExecBuffer. quiet_tac. Qed.

Lemma phypExecInt_quiet buf result : steps quiet (phypExecInt buf result).
Proof. pose proof phypExecBuffer_quiet. unfold phypExecInt. quiet_tac. Qed.

Lemma phypGetSystemType_quiet : steps quiet phypGetSystemType.
Proof. pose proof phypExec_quiet. unfold phypGetSystemType. quiet_tac. Qed.

Lemma NumOfDomainsGeneric_quiet type : steps quiet (phypConnectNumOfDomainsGeneric type).
Proof. pose proof phypExecInt_quiet. unfold phypConnectNumOfDomainsGeneric. quiet_tac. Qed.

Lemma ListDomainsGeneric_quiet ids nids type :
  steps quiet (phypConnectListDomainsGeneric ids nids type).
Proof. pose proof phypExecBuffer_quiet. unfold phypConnectListDomainsGeneric. quiet_tac. Qed.

Lemma GetVIOSPartitionID_quiet : steps quiet phypGetVIOSPartitionID.
Proof. pose proof phypExecInt_quiet. unfold phypGetVIOSPartitionID. quiet_tac. Qed.

Lemma scp_recv_loop_quiet fuel : steps quiet (scp_recv_loop fuel).
Proof. induction fuel as [|fuel IH]; simpl; quiet_tac. Qed.

Lemma pull_loop_quiet fuel : forall got size, steps quiet (pull_loop fuel got size).
Proof. induction fuel as [|fuel IH]; intros; simpl; quiet_tac. Qed.

Lemma Pull_quiet : steps quiet phypUUIDTable_Pull.
Proof.
  pose proof scp_recv_loop_quiet. pose proof pull_loop_quiet.
  unfold phypUUIDTable_Pull. quiet_tac.
Qed.

Lemma ReadFile_loop_quiet n : forall i pos, steps quiet (ReadFile_loop n i pos).
Proof. induction n as [|n IH]; intros; simpl; quiet_tac. Qed.

Lemma ReadFile_quiet : steps quiet phypUUIDTable_ReadFile.
Proof. pose proof ReadFile_loop_quiet. unfold phypUUIDTable_ReadFile. quiet_tac. Qed.

Lemma WriteFile_loop_quiet n : forall i, steps quiet (WriteFile_loop n i).
Proof. induction n as [|n IH]; intros; simpl; quiet_tac. Qed.

Lemma WriteFile_quiet : steps quiet phypUUIDTable_WriteFile.
Proof. pose proof WriteFile_loop_quiet. unfold phypUUIDTable_WriteFile. quiet_tac. Qed.

Lemma scp_send_loop_quiet fuel mode size : steps quiet (scp_send_loop fuel mode size).
Proof. induction fuel as [|fuel IH]; simpl; quiet_tac. Qed.

Lemma write_loop_quiet fuel :
  forall buffer ptr nread sent, steps quiet (write_loop fuel buffer ptr nread sent).
Proof. induction fuel as [|fuel IH]; intros; simpl; quiet_tac. Qed.

Lemma push_loop_quiet fuel : forall pos buffer, steps quiet (push_loop fuel pos buffer).
Proof.
  pose proof write_loop_quiet.
  induction fuel as [|fuel IH]; intros; simpl; quiet_tac.
Qed.

Lemma Push_quiet : steps quiet phypUUIDTable_Push.
Proof.
  pose proof scp_send_loop_quiet. pose proof push_loop_quiet.
  unfold phypUUIDTable_Push. quiet_tac.
Qed.

Lemma Init_create_quiet n : forall i ids, steps quiet (Init_create n i ids).
Proof. induction n as [|n IH]; intros; simpl; quiet_tac. Qed.

Lemma Init_cleanup_quiet ret created : steps quiet (Init_cleanup ret created).
Proof. unfold Init_cleanup. quiet_tac. Qed.

Lemma Init_table_quiet n ids : steps quiet (Init_table n ids).
Proof.
  pose proof Pull_quiet. pose proof ReadFile_quiet. pose proof WriteFile_quiet.
  pose proof Push_quiet. pose proof Init_create_quiet. pose proof Init_cleanup_quiet.
  unfold Init_table. quiet_tac.
Qed.

Lemma Init_quiet : steps quiet phypUUIDTable_Init.
Proof.
  pose proof NumOfDomainsGeneric_quiet. pose proof ListDomainsGeneric_quiet.
  pose proof Init_table_quiet. pose proof Init_cleanup_quiet.
  unfold phypUUIDTable_Init. quiet_tac.
Qed.

Lemma Free_quiet : steps quiet phypUUIDTable_Free.
Proof. unfold phypUUIDTable_Free. quiet_tac. Qed.

Lemma open_failure_quiet uuid_table : steps quiet (open_failure uuid_table).
Proof. pose proof Free_quiet. unfold open_failure. quiet_tac. Qed.

Lemma steps_ok (R : world -> world -> Prop) {A : Type} (m : M A) (w w' : world) (a : A) :
  steps R m -> m w = Ok a w' -> R w w'.
Proof. intros H E. specialize (H w). rewrite E in H. exact H. Qed.

Lemma quiet_trans_log (w1 w2 w3 : world) (l : list event) :
  log w2 = log w1 ++ l -> quiet w2 w3 -> exists l', log w3 = log w1 ++ l ++ l'.
Proof.
  intros H (_ & l' & H'). exists l'. rewrite H', H. symmetry. apply app_assoc.
Qed.

(** The part of [phypConnectOpen] from [openSSHSession] on: it does not
    decline, and when it succeeds the session was opened, the system type
    is the answer of [phypGetSystemType], which is not -1, and the managed
    system is the one it was given. *)
Lemma open_session_and_init_run (managed : option cstr) (w w' : world)
    (st : virDrvOpenStatus) :
  open_session_and_init managed w = Ok st w' ->
  st <> VIR_DRV_OPEN_DECLINED
  /\ (st = VIR_DRV_OPEN_SUCCESS ->
      managed_system (drv w') = managed
      /\ system_type (drv w') <> -1
      /\ exists l, log w' = log w ++ EvSSHSession :: l).
Proof.
  assert (Hfail : forall b w0, open_failure b w0 = Ok st w' ->
            st <> VIR_DRV_OPEN_DECLINED
            /\ (st = VIR_DRV_OPEN_SUCCESS ->
                managed_system (drv w') = managed
                /\ system_type (drv w') <> -1
                /\ exists l, log w' = log w ++ EvSSHSession :: l)).
  { intros b w0 E. apply open_failure_status in E. subst st.
    split; [discriminate|discriminate]. }
  unfold open_session_and_init. intros H.
  bind_inv H session w1 E1.
  assert (L1 : log w1 = log w ++ [EvSSHSession]).
  { unfold openSSHSession, recorded in E1.
    destruct (session_source (add_log EvSSHSession w)); [discriminate|].
    injection E1 as _ <-. reflexivity. }
  destruct session; cbn [negb] in H; [|exact (Hfail _ _ H)].
  bind_inv H u2 w2 E2. bind_inv H u3 w3 E3.
  assert (L3 : log w3 = log w ++ [EvSSHSession]).
  { injection E3 as _ <-. injection E2 as _ <-. exact L1. }
  bind_inv H caps w4 E4.
  assert (Q4 : quiet w3 w4) by (eapply steps_ok; [|exact E4]; quiet_tac).
  destruct caps; cbn [negb] in H; [|exact (Hfail _ _ H)].
  bind_inv H xmlopt w5 E5.
  assert (Q5 : quiet w4 w5) by (eapply steps_ok; [|exact E5]; quiet_tac).
  destruct xmlopt; cbn [negb] in H; [|exact (Hfail _ _ H)].
  bind_inv H ty w6 E6.
  pose proof (steps_ok quiet _ _ _ _ phypGetSystemType_quiet E6) as Q6.
  bind_inv H u7 w7 E7.
  assert (D7 : drv w7 = mk_driver ty managed) by (injection E7 as _ <-; reflexivity).
  assert (L7 : exists l, log w7 = log w ++ [EvSSHSession] ++ l).
  { assert (Q : quiet w3 w6) by (etransitivity; [exact Q4|]; etransitivity; eassumption).
    destruct (quiet_trans_log _ _ _ _ L3 Q) as (l & Hl). exists l.
    injection E7 as _ <-. exact Hl. }
  destruct L7 as (l7 & L7).
  destruct (Z.eqb_spec ty (-1)) as [Hty|Hty]; [exact (Hfail _ _ H)|].
  bind_inv H rc w8 E8.
  pose proof (steps_ok quiet _ _ _ _ Init_quiet E8) as Q8.
  destruct (rc =? -1); [exact (Hfail _ _ H)|].
  assert (Hdone : forall w9, quiet w8 w9 ->
            managed_system (drv w9) = managed
            /\ system_type (drv w9) <> -1
            /\ exists l, log w9 = log w ++ EvSSHSession :: l).
  { intros w9 Q9.
    assert (Q : quiet w7 w9) by (etransitivity; eassumption).
    destruct Q as (D & l & L). rewrite D, D7. cbn.
    split; [reflexivity|]. split; [exact Hty|].
    exists (l7 ++ l). rewrite L, L7. rewrite <- !app_assoc. reflexivity. }
  destruct (ty =? HMC).
  - bind_inv H vios w9 E9.
    pose proof (steps_ok quiet _ _ _ _ GetVIOSPartitionID_quiet E9) as Q9.
    destruct (vios =? -1); [exact (Hfail _ _ H)|].
    injection H as <- <-. split; [discriminate|]. intros _. apply Hdone. exact Q9.
  - injection H as <- <-. split; [discriminate|]. intros _. apply Hdone. reflexivity.
Qed.

(** X10: [phypConnectOpen] declines exactly when the flags are supported
    and the connection has no URI, or a URI whose scheme is missing or is
    not ["phyp"]; it then has allocated nothing and called nothing.  A URI
    for this driver that has no server name is an error. *)
Theorem phypConnectOpen_declines (conn : option virConnect) (flags : Z) (w w' : world)
    (st : virDrvOpenStatus) :
  phypConnectOpen conn flags w = Ok st w' ->
  (st = VIR_DRV_OPEN_DECLINED
   <-> flags_unsupported VIR_CONNECT_RO flags = false
       /\ (conn ≫= uri) ≫= scheme <> Some (lit "phyp"%string))
  /\ (st = VIR_DRV_OPEN_DECLINED -> w' = w)
  /\ (flags_unsupported VIR_CONNECT_RO flags = false ->
      (conn ≫= uri) ≫= scheme = Some (lit "phyp"%string) ->
      (conn ≫= uri) ≫= server = None ->
      st = VIR_DRV_OPEN_ERROR /\ w' = w).
Proof.
  unfold phypConnectOpen. intros H.
  destruct (flags_unsupported VIR_CONNECT_RO flags).
  { injection H as <- <-. split; [|split].
    - split; [discriminate|]. intros [E _]. discriminate E.
    - discriminate.
    - discriminate. }
  destruct (conn ≫= uri) as [u|]; cbn [mbind option_bind].
  2:{ injection H as <- <-. split; [|split].
      - split; [split; [reflexivity|discriminate]|reflexivity].
      - reflexivity.
      - discriminate. }
  destruct (scheme u) as [s|].
  2:{ injection H as <- <-. split; [|split].
      - split; [split; [reflexivity|discriminate]|reflexivity].
      - reflexivity.
      - discriminate. }
  destruct (bool_decide (s = lit "phyp"%string)) eqn:Hs; cbn [negb] in H.
  2:{ apply bool_decide_eq_false in Hs.
      injection H as <- <-. split; [|split].
      - split; [split; [reflexivity|congruence]|reflexivity].
      - reflexivity.
      - intros _ E. congruence. }
  apply bool_decide_eq_true in Hs. subst s.
  assert (Hno : st <> VIR_DRV_OPEN_DECLINED ->
            (st = VIR_DRV_OPEN_DECLINED
             <-> false = false /\ Some (lit "phyp"%string) <> Some (lit "phyp"%string))
            /\ (st = VIR_DRV_OPEN_DECLINED -> w' = w)).
  { intros Hst. split; [|intros E; contradiction].
    split; [intros E; contradiction|]. intros [_ E]. congruence. }
  destruct (server u) as [srv|].
  2:{ injection H as <- <-.
      destruct Hno as [H1 H2]; [discriminate|]. split; [exact H1|]. split; [exact H2|].
      auto. }
  assert (Hst : st <> VIR_DRV_OPEN_DECLINED).
  { walk H;
      try (apply open_failure_status in H; subst st; discriminate);
      try (apply open_session_and_init_run in H; apply H). }
  destruct (Hno Hst) as [H1 H2]. split; [exact H1|]. split; [exact H2|].
  intros _ _ E. discriminate E.
Qed.

Lemma cut_at_incl (c : byte) (s : cstr) (x : byte) : In x (cut_at c s) -> In x s.
Proof.
  destruct (cut_at_spec c s) as (rest & E & _). intros H.
  rewrite E. apply in_or_app. left. exact H.
Qed.

(** X11: when [phypConnectOpen] returns success, the SSH session was
    opened, the system type stored in the driver is not -1, and the managed
    system stored in the driver is the first component of the URI path
    (NULL when the URI has no path): the text after an optional leading
    slash up to the next slash, in which no special character occurs. *)
Theorem phypConnectOpen_success (conn : option virConnect) (flags : Z) (w w' : world) :
  phypConnectOpen conn flags w = Ok VIR_DRV_OPEN_SUCCESS w' ->
  exists u,
    conn ≫= uri = Some u
    /\ managed_system (drv w') = first_component <$> path u
    /\ system_type (drv w') <> -1
    /\ In EvSSHSession (log w')
    /\ forall ms c, managed_system (drv w') = Some ms -> In c ms ->
         c <> "/"%byte /\ is_specialcharacter c = false.
Proof.
  unfold phypConnectOpen. intros H.
  destruct (flags_unsupported VIR_CONNECT_RO flags); [discriminate H|].
  destruct (conn ≫= uri) as [u|]; [|discriminate H].
  destruct (scheme u) as [s|]; [|discriminate H].
  destruct (bool_decide (s = lit "phyp"%string)); cbn [negb] in H; [|discriminate H].
  destruct (server u) as [srv|]; [|discriminate H].
  exists u. split; [reflexivity|].
  assert (Hfail : forall (b : bool) (w0 : world) (P : Prop),
            open_failure b w0 = Ok VIR_DRV_OPEN_SUCCESS w' -> P).
  { intros b w0 P E. apply open_failure_status in E. discriminate E. }
  bind_inv H ok1 w1 E1. destruct ok1; cbn [negb] in H; [|exact (Hfail _ _ _ H)].
  bind_inv H ok2 w2 E2. destruct ok2; cbn [negb] in H; [|exact (Hfail _ _ _ H)].
  bind_inv H u3 w3 E3.
  bind_inv H ok4 w4 E4. destruct ok4; cbn [negb] in H; [|exact (Hfail _ _ _ H)].
  assert (Hin : forall w0 l, log w' = log w0 ++ EvSSHSession :: l ->
            In EvSSHSession (log w')).
  { intros w0 l ->. apply in_or_app. right. left. reflexivity. }
  destruct (path u) as [p|] eqn:Hp.
  - bind_inv H ok5 w5 E5. destruct ok5; cbn [negb] in H; [|exact (Hfail _ _ _ H)].
    destruct (contains_specialcharacters p) eqn:Hc; [exact (Hfail _ _ _ H)|].
    apply open_session_and_init_run in H. destruct H as [_ H].
    destruct (H eq_refl) as (Hm & Hty & l & Hl).
    split; [exact Hm|]. split; [exact Hty|]. split; [exact (Hin _ _ Hl)|].
    intros ms c Hms Hc'. rewrite Hm in Hms. injection Hms as <-.
    unfold first_component in Hc'. split.
    + intros ->. revert Hc'.
      match goal with
      | |- In _ (cut_at _ ?s) -> _ =>
          destruct (cut_at_spec "/"%byte s) as (rest & _ & Hnot & _); exact Hnot
      end.
    + apply cut_at_incl in Hc'.
      assert (Hs : In c (take (strlen p) p)).
      { destruct (take (strlen p) p) as [|b rest]; [exact Hc'|].
        destruct (Byte.eqb b "/"%byte); [right; exact Hc'|exact Hc']. }
      destruct (is_specialcharacter c) eqn:Hsp; [|reflexivity].
      assert (contains_specialcharacters p = true)
        by (apply contains_specialcharacters_spec; exists c; auto).
      congruence.
  - apply open_session_and_init_run in H. destruct H as [_ H].
    destruct (H eq_refl) as (Hm & Hty & l & Hl).
    split; [exact Hm|]. split; [exact Hty|]. split; [exact (Hin _ _ Hl)|].
    intros ms c Hms. rewrite Hm in Hms. discriminate Hms.
Qed.

(** ** The output of a command *)

Lemma strlen_text (p z : list byte) :
  ~ In NUL p -> strlen (p ++ NUL :: z) = length p.
Proof.
  induction p as [|b p IH]; intros Hn; [reflexivity|].
  simpl. destruct (byte_eqb_spec b NUL) as [->|Hb].
  - exfalso. apply Hn. left. reflexivity.
  - f_equal. apply IH. intros Hin. apply Hn. right. exact Hin.
Qed.

Lemma with_stale_growing (chunks : list (list byte)) :
  forall prev, growing (length prev) chunks -> with_stale prev chunks = concat chunks.
Proof.
  induction chunks as [|c cs IH]; intros prev Hg; [reflexivity|].
  destruct Hg as [Hle Hg]. cbn [with_stale concat]. cbv zeta.
  rewrite drop_ge by exact Hle. rewrite app_nil_r.
  f_equal. apply IH. exact Hg.
Qed.

(** The read buffer after the text [piece] was read into a buffer that
    held the text [prev]. *)
Lemma buffer_after_read (prev c : list byte) :
  (length prev < buffer_size)%nat ->
  (length c < buffer_size)%nat ->
  c ++ drop (length c) (prev ++ replicate (buffer_size - length prev) NUL)
  = (c ++ drop (length c) prev)
      ++ replicate (buffer_size - length (c ++ drop (length c) prev)) NUL.
Proof.
  intros Hp Hc. rewrite <- app_assoc. f_equal.
  rewrite length_app, length_drop.
  destruct (Nat.le_gt_cases (length c) (length prev)) as [Hle|Hgt].
  - rewrite drop_app_le by exact Hle. f_equal. f_equal. lia.
  - rewrite drop_app_ge by lia. rewrite (drop_ge prev) by lia.
    rewrite drop_replicate. simpl. f_equal. lia.
Qed.

Lemma channel_read_chunk (c : list byte) (script : list read_resp) (n : nat) (w : world) :
  read_script (ssh w) = ReadData c :: script ->
  (length c <= n)%nat ->
  libssh2_channel_read n w
  = Ok (Z.of_nat (length c), c)
       (add_log (EvRead (Z.of_nat (length c)))
          (set_ssh (set_read_script script (ssh w)) w)).
Proof.
  intros Hs Hn. unfold libssh2_channel_read. rewrite Hs. cbv zeta.
  rewrite take_ge by exact Hn.
  replace (length c <=? n)%nat with true by (symmetry; apply Nat.leb_le; exact Hn).
  reflexivity.
Qed.

Lemma virBufferAdd_text (tex : virBuffer) (piece z : list byte) (w : world) (h : nat) :
  vb_error tex = false ->
  ~ In NUL piece ->
  heap w = S h ->
  virBufferAdd tex (piece ++ NUL :: z) w
  = Ok (mk_buf (Some (default [] (vb_content tex) ++ piece)) false) (set_heap h w).
Proof.
  intros He Hn Hh. unfold virBufferAdd. rewrite He.
  rewrite (strlen_text _ _ Hn).
  replace (length (piece ++ NUL :: z) <=? length piece)%nat with false
    by (symmetry; apply Nat.leb_gt; rewrite length_app; simpl; lia).
  rewrite take_app_length. unfold virBufferAddStr. rewrite He.
  rewrite (bind_ok alloc _ w (set_heap h w) true)
    by (unfold alloc; rewrite Hh; reflexivity).
  reflexivity.
Qed.

Lemma read_loop_chunks (chunks : list (list byte)) :
  forall (fuel : nat) (prev : list byte) (tex : virBuffer) (w : world)
         (rest : list read_resp),
    Forall text_chunk chunks ->
    ~ In NUL prev ->
    (length prev < buffer_size)%nat ->
    read_script (ssh w) = map ReadData chunks ++ ReadData [] :: rest ->
    (length chunks <= heap w)%nat ->
    (length chunks < fuel)%nat ->
    vb_error tex = false ->
    exists w',
      read_loop fuel (prev ++ replicate (buffer_size - length prev) NUL) tex w
      = Ok (Done match chunks with
                 | [] => tex
                 | _ => mk_buf (Some (default [] (vb_content tex)
                                        ++ with_stale prev chunks)) false
                 end) w'
      /\ read_script (ssh w') = rest.
Proof.
  induction chunks as [|c cs IH];
    intros fuel prev tex w rest Hall Hprev Hlen Hs Hheap Hfuel Herr;
    (destruct fuel as [|fuel]; [simpl in Hfuel; lia|]); cbn [read_loop].
  - simpl in Hs.
    rewrite (bind_ok _ _ _ _ _ (channel_read_chunk [] rest buffer_size w Hs
                                  ltac:(simpl; lia))).
    cbn. eexists. split; reflexivity.
  - inversion Hall as [|? ? (Hne & Hnul & Hsize) Hall']; subst.
    simpl in Hs.
    rewrite (bind_ok _ _ _ _ _ (channel_read_chunk c _ buffer_size w Hs
                                  ltac:(lia))).
    cbn [fst snd]. cbv zeta.
    replace (0 <? Z.of_nat (length c)) with true
      by (symmetry; apply Z.ltb_lt; destruct c; [contradiction|simpl; lia]).
    rewrite (buffer_after_read prev c Hlen Hsize).
    set (piece := c ++ drop (length c) prev).
    assert (Hpn : ~ In NUL piece).
    { unfold piece. intros Hin. apply in_app_or in Hin. destruct Hin as [Hin|Hin].
      - exact (Hnul Hin).
      - apply Hprev. rewrite <- (take_drop (length c) prev).
        apply in_or_app. right. exact Hin. }
    assert (Hpl : (length piece < buffer_size)%nat).
    { unfold piece. rewrite length_app, length_drop. lia. }
    destruct (buffer_size - length piece)%nat as [|k] eqn:Hk; [lia|].
    cbn [replicate].
    match goal with
    | |- context [virBufferAdd tex (piece ++ NUL :: ?z)] =>
        set (zeros := z)
    end.
    set (w1 := add_log _ _).
    simpl in Hheap.
    destruct (heap w) as [|h] eqn:Hh; [lia|].
    rewrite (bind_ok _ _ _ _ _ (virBufferAdd_text tex piece zeros w1 h Herr Hpn Hh)).
    replace (piece ++ NUL :: zeros)
      with (piece ++ replicate (buffer_size - length piece) NUL)
      by (rewrite Hk; reflexivity).
    simpl in Hfuel.
    destruct (IH fuel piece (mk_buf (Some (default [] (vb_content tex) ++ piece)) false)
                (set_heap h w1) rest Hall' Hpn Hpl eq_refl)
      as (w' & E & Hr); [simpl; lia|lia|reflexivity|].
    exists w'. split; [|exact Hr].
    rewrite E. f_equal. f_equal. cbn [with_stale]. cbv zeta. fold piece.
    destruct cs as [|c' cs'].
    + cbn [with_stale]. rewrite app_nil_r. reflexivity.
    + cbn [vb_content default from_option Datatypes.id].
      rewrite <- app_assoc. reflexivity.
Qed.

Lemma open_session_loop_now (fuel : nat) (w : world) (o : list chan_resp) :
  open_script (ssh w) = ChanOk :: o ->
  open_session_loop (S fuel) w
  = Ok (Done ChanOk) (set_ssh (set_open_script o (ssh w)) (add_log EvOpenSession w)).
Proof.
  intros H. cbn [open_session_loop].
  unfold libssh2_channel_open_session, recorded. rewrite bind_run.
  cbn [ssh add_log]. rewrite H. reflexivity.
Qed.

Lemma exec_loop_now (fuel : nat) (cmd : cstr) (w : world) (rc : Z) (e : list Z) :
  exec_script (ssh w) = rc :: e ->
  rc <> LIBSSH2_ERROR_EAGAIN ->
  exec_loop (S fuel) (Some cmd) w
  = Ok (Done rc) (set_ssh (set_exec_script e (ssh w)) (add_log (EvExec cmd) w)).
Proof.
  intros H Hrc. cbn [exec_loop].
  unfold libssh2_channel_exec, recorded. rewrite bind_run.
  cbn [ssh add_log]. rewrite H.
  destruct (Z.eqb_spec rc LIBSSH2_ERROR_EAGAIN); [contradiction|reflexivity].
Qed.

Lemma close_loop_now (fuel : nat) (w : world) (rc : Z) (c : list Z) :
  close_script (ssh w) = rc :: c ->
  rc <> LIBSSH2_ERROR_EAGAIN ->
  close_loop (S fuel) w
  = Ok (Done rc) (add_log (EvClose rc) (set_ssh (set_close_script c (ssh w)) w)).
Proof.
  intros H Hrc. cbn [close_loop].
  unfold libssh2_channel_close. rewrite bind_run. rewrite H.
  destruct (Z.eqb_spec rc LIBSSH2_ERROR_EAGAIN); [contradiction|reflexivity].
Qed.

Lemma read_fuel_length (script : list read_resp) :
  (length script < read_fuel script)%nat.
Proof.
  unfold read_fuel. apply Nat.lt_succ_r.
  induction script as [|[bs|e] script IH]; simpl; lia.
Qed.

Lemma read_loop_close_script (fuel : nat) :
  forall buffer tex,
    steps (same (fun w => close_script (ssh w))) (read_loop fuel buffer tex).
Proof. induction fuel as [|fuel IH]; intros; simpl; steps_tac. Qed.

(** The run of [phypExec] on a channel that opens, takes the command and
    closes at once and delivers its output in chunks of text. *)
Lemma phypExec_chunks_run (cmd : cstr) (es : Z) (chunks : list (list byte)) (w : world)
    (o : list chan_resp) (e : list Z) (r : list read_resp) (c : list Z) :
  open_script (ssh w) = ChanOk :: o ->
  exec_script (ssh w) = 0 :: e ->
  read_script (ssh w) = map ReadData chunks ++ ReadData [] :: r ->
  close_script (ssh w) = 0 :: c ->
  (length chunks < heap w)%nat ->
  Forall text_chunk chunks ->
  exists w',
    phypExec (Some cmd) es w
    = Ok (match chunks with
          | [] => None
          | _ => Some (with_stale [] chunks)
          end, remote_exit_status (ssh w)) w'.
Proof.
  intros Ho He Hr Hc Hheap Hall.
  unfold phypExec. cbv zeta.
  destruct (heap w) as [|h] eqn:Hh; [lia|].
  rewrite (bind_ok alloc _ w (set_heap h w) true)
    by (unfold alloc; rewrite Hh; reflexivity).
  cbn [negb]. cbv iota.
  set (w1 := set_heap h w).
  rewrite (bind_ok (gets _) _ w1 w1 _ eq_refl).
  rewrite (bind_ok _ _ _ _ _ (open_session_loop_now _ w1 o Ho)).
  set (w2 := set_ssh _ _).
  rewrite (bind_ok (gets _) _ w2 w2 _ eq_refl).
  rewrite (bind_ok _ _ _ _ _ (exec_loop_now _ cmd w2 0 e He ltac:(discriminate))).
  change (negb (0 =? 0)) with false. cbv iota.
  set (w3 := set_ssh _ _).
  rewrite (bind_ok (gets _) _ w3 w3 _ eq_refl).
  destruct (read_loop_chunks chunks (read_fuel (read_script (ssh w3))) []
              VIR_BUFFER_INITIALIZER w3 r Hall ltac:(intros [])
              ltac:(simpl; destruct buffer_size eqn:Hb;
                    [with_strategy transparent [buffer_size] discriminate Hb|lia])
              Hr ltac:(simpl; lia)
              ltac:(change (read_script (ssh w3)) with (read_script (ssh w));
                    rewrite Hr; eapply Nat.le_lt_trans; [|apply read_fuel_length];
                    rewrite length_app, length_map; lia)
              eq_refl)
    as (w4 & E4 & R4).
  cbn [app length] in E4. rewrite Nat.sub_0_r in E4.
  rewrite (bind_ok _ _ _ _ _ E4).
  pose proof (steps_ok _ _ _ _ _ (read_loop_close_script _ _ _) E4) as C4.
  pose proof (steps_ok _ _ _ _ _ (read_loop_status _ _ _) E4) as S4.
  unfold same in C4, S4. cbn in C4, S4. rewrite Hc in C4.
  rewrite (bind_ok (gets _) _ w4 w4 _ eq_refl).
  rewrite (bind_ok _ _ _ _ _ (close_loop_now _ w4 0 c C4 ltac:(discriminate))).
  change (0 =? 0) with true. cbv iota.
  set (w5 := add_log _ _).
  rewrite (bind_ok libssh2_channel_get_exit_status _ w5 (add_log EvExitStatus w5)
             (remote_exit_status (ssh w))).
  2:{ unfold libssh2_channel_get_exit_status, emit, modify, gets.
      unfold mbind, M_bind. cbn. rewrite S4. reflexivity. }
  destruct chunks; eexists; reflexivity.
Qed.

(** X12: the text [phypExec] returns.  When the channel opens, takes the
    command and closes at once and delivers the output in chunks of text
    (not empty, without NUL, shorter than the 16384-byte buffer), the exit
    status is the remote one and the text is made of the chunks, each
    followed by the bytes left in the buffer beyond its end by the chunks
    before it: the buffer is not terminated after a read.  The text is the
    output itself when no chunk is shorter than the one before; after a
    chunk [a], a chunk [b] comes out followed by what [a] has beyond the
    length of [b].  No output at all gives NULL. *)
Theorem phypExec_output (cmd : cstr) (es : Z) (chunks : list (list byte)) (w : world)
    (o : list chan_resp) (e : list Z) (r : list read_resp) (c : list Z) :
  open_script (ssh w) = ChanOk :: o ->
  exec_script (ssh w) = 0 :: e ->
  read_script (ssh w) = map ReadData chunks ++ ReadData [] :: r ->
  close_script (ssh w) = 0 :: c ->
  (length chunks < heap w)%nat ->
  Forall text_chunk chunks ->
  (exists w',
     phypExec (Some cmd) es w
     = Ok (match chunks with
           | [] => None
           | _ => Some (with_stale [] chunks)
           end, remote_exit_status (ssh w)) w')
  /\ (growing 0 chunks -> with_stale [] chunks = concat chunks)
  /\ (forall a b, chunks = [a; b] -> with_stale [] chunks = a ++ b ++ drop (length b) a).
Proof.
  intros Ho He Hr Hc Hheap Hall. split; [|split].
  - exact (phypExec_chunks_run cmd es chunks w o e r c Ho He Hr Hc Hheap Hall).
  - exact (with_stale_growing chunks []).
  - intros a b ->. cbn [with_stale]. cbv zeta.
    rewrite drop_nil, !app_nil_r. reflexivity.
Qed.

(** ** Copying the table from the server *)

Lemma channel_read_part (c : list byte) (script : list read_resp) (n : nat) (w : world) :
  read_script (ssh w) = ReadData c :: script ->
  libssh2_channel_read n w
  = Ok (Z.of_nat (length (take n c)), take n c)
       (add_log (EvRead (Z.of_nat (length (take n c))))
          (set_ssh (set_read_script (if (length c <=? n)%nat then script
                                     else ReadData (drop n c) :: script)
                                    (ssh w)) w)).
Proof. intros Hs. unfold libssh2_channel_read. rewrite Hs. reflexivity. Qed.

(** The loop of [Pull] when the channel delivers the announced bytes, in
    chunks of any size, and the disk has room: the bytes are appended to
    the local file. *)
Lemma pull_loop_copy (fuel : nat) :
  forall (chunks : list (list byte)) (got sz : Z) (w : world) (c0 tl : list byte)
         (rest : list read_resp),
    Forall (fun c => c <> []) chunks ->
    read_script (ssh w) = map ReadData chunks ++ ReadData tl :: rest ->
    sz = got + Z.of_nat (length (concat chunks)) ->
    0 <= got ->
    sz <= INT_MAX ->
    file (fs w) = Some c0 ->
    (length (concat chunks) <= free_bytes (fs w))%nat ->
    (length (concat chunks) + length chunks < fuel)%nat ->
    exists w',
      pull_loop fuel got sz w = Ok (Done tt) w'
      /\ file (fs w') = Some (c0 ++ concat chunks)
      /\ close_ok (fs w') = close_ok (fs w)
      /\ open_ok (fs w') = open_ok (fs w)
      /\ heap w' = heap w
      /\ tbl w' = tbl w.
Proof.
  induction fuel as [|fuel IH];
    intros chunks got sz w c0 tl rest Hne Hs Hsz Hgot Hmax Hf Hfree Hfuel; [lia|].
  cbn [pull_loop]. cbv zeta.
  destruct chunks as [|c cs].
  - simpl in Hs, Hsz.
    replace (sz - got) with 0 by lia. change (0 <? 1024) with true. cbv iota.
    rewrite (bind_ok _ _ _ _ _ (channel_read_part tl rest (Z.to_nat 0) w Hs)).
    cbn [fst snd]. change (Z.to_nat 0) with 0%nat. rewrite take_0.
    change (0 <? Z.of_nat (length [])) with false. cbv iota.
    change (Z.of_nat (length []) =? LIBSSH2_ERROR_EAGAIN) with false.
    cbn [andb]. eexists. split; [reflexivity|]. cbn.
    rewrite app_nil_r. auto.
  - apply Forall_cons in Hne as [Hc Hne']. simpl in Hs.
    cbn [concat] in *. rewrite length_app in *. cbn [length] in Hfuel.
    set (amount := if sz - got <? 1024 then sz - got else 1024).
    assert (Ha : 0 < amount <= sz - got).
    { unfold amount. destruct c; [contradiction|]. simpl in Hsz.
      destruct (Z.ltb_spec (sz - got) 1024); lia. }
    rewrite (bind_ok _ _ _ _ _ (channel_read_part c _ (Z.to_nat amount) w Hs)).
    cbn [fst snd].
    set (data := take (Z.to_nat amount) c).
    assert (Hd : (0 < length data <= length c)%nat).
    { unfold data. rewrite length_take. destruct c; [contradiction|]. simpl. lia. }
    replace (0 <? Z.of_nat (length data)) with true by (symmetry; apply Z.ltb_lt; lia).
    cbv iota.
    set (w1 := add_log _ _).
    destruct (safewrite_run data w1) as (w2 & E2 & F2 & R2 & T2).
    rewrite (bind_ok _ _ _ _ _ E2).
    replace (INT_MAX <? got + Z.of_nat (length data)) with false
      by (symmetry; apply Z.ltb_ge; lia).
    cbv iota.
    change (file (fs w1)) with (file (fs w)) in F2. rewrite Hf in F2.
    change (free_bytes (fs w1)) with (free_bytes (fs w)) in F2, R2.
    change (tbl w1) with (tbl w) in T2.
    cbn [default from_option Datatypes.id] in F2.
    rewrite take_ge in F2 by lia.
    assert (Hclose : close_ok (fs w2) = close_ok (fs w)
                     /\ open_ok (fs w2) = open_ok (fs w) /\ heap w2 = heap w).
    { unfold safewrite in E2. cbv zeta in E2.
      destruct (length data <=? free_bytes (fs w1))%nat; injection E2 as <-; auto. }
    destruct Hclose as (Hclose & Hopen & Hheap).
    assert (Hscript : read_script (ssh w2)
                      = map ReadData ((if (length c <=? Z.to_nat amount)%nat then cs
                                       else drop (Z.to_nat amount) c :: cs))
                          ++ ReadData tl :: rest).
    { unfold safewrite in E2. cbv zeta in E2.
      destruct (length data <=? free_bytes (fs w1))%nat; injection E2 as <-; cbn;
        destruct (length c <=? Z.to_nat amount)%nat; reflexivity. }
    destruct (Nat.leb_spec (length c) (Z.to_nat amount)) as [Hle|Hgt].
    + assert (Hdc : data = c) by (apply take_ge; exact Hle).
      destruct (IH cs (got + Z.of_nat (length data)) sz w2 (c0 ++ data) tl rest
                  Hne' Hscript)
        as (w' & E & F & C & O & H & T);
        try (rewrite ?Hdc; lia); try assumption.
      exists w'. split; [exact E|]. split; [|repeat split; congruence].
      rewrite F, Hdc, <- app_assoc. reflexivity.
    + assert (Hdl : length data = Z.to_nat amount)
        by (unfold data; rewrite length_take; lia).
      destruct (IH (drop (Z.to_nat amount) c :: cs) (got + Z.of_nat (length data)) sz w2
                  (c0 ++ data) tl rest)
        as (w' & E & F & C & O & H & T);
        try assumption;
        try (cbn [concat length]; rewrite ?length_app, ?length_drop; lia).
      { constructor; [|exact Hne'].
        intros Hnil. apply (f_equal length) in Hnil. rewrite length_drop in Hnil.
        simpl in Hnil. lia. }
      exists w'. split; [exact E|]. split; [|repeat split; congruence].
      rewrite F. cbn [concat]. unfold data.
      rewrite <- !app_assoc. f_equal. rewrite (app_assoc (take _ c)).
      rewrite take_drop. reflexivity.
Qed.

Lemma read_fuel_chunks (chunks : list (list byte)) (l : list read_resp) :
  (length (concat chunks) + length chunks < read_fuel (map ReadData chunks ++ l))%nat.
Proof.
  unfold read_fuel. apply Nat.lt_succ_r.
  induction chunks as [|c cs IH]; simpl; [lia|].
  rewrite length_app. lia.
Qed.

(** The run of [Pull] that copies the remote file. *)
Lemma Pull_copy_run (content : list byte) (chunks : list (list byte))
    (tl : list byte) (rrest : list read_resp) (rest : list recv_resp) (w : world) :
  scp_recv_script (ssh w) = RecvOk (Z.of_nat (length content)) :: rest ->
  read_script (ssh w) = map ReadData chunks ++ ReadData tl :: rrest ->
  concat chunks = content ->
  Forall (fun c => c <> []) chunks ->
  Z.of_nat (length content) <= INT_MAX ->
  (length content <= free_bytes (fs w))%nat ->
  creat_ok (fs w) = true ->
  close_ok (fs w) = true ->
  (0 < heap w)%nat ->
  exists w',
    phypUUIDTable_Pull w = Ok 0 w'
    /\ file (fs w') = Some content
    /\ tbl w' = tbl w
    /\ open_ok (fs w') = open_ok (fs w)
    /\ heap w' = (heap w - 1)%nat.
Proof.
  intros Hrecv Hread Hcat Hne Hmax Hfree Hcreat Hclose Hheap.
  unfold phypUUIDTable_Pull.
  destruct (heap w) as [|h] eqn:Hh; [lia|].
  rewrite (bind_ok alloc _ w (set_heap h w) true)
    by (unfold alloc; rewrite Hh; reflexivity).
  cbn [negb]. cbv iota.
  set (w1 := set_heap h w).
  rewrite (bind_ok (gets _) _ w1 w1 _ eq_refl).
  set (w2 := set_ssh (set_scp_recv_script rest (ssh w1)) (add_log EvScpRecv w1)).
  rewrite (bind_ok (scp_recv_loop _) _ w1 w2 (Done (RecvOk (Z.of_nat (length content))))).
  2:{ cbn [scp_recv_loop].
      rewrite (bind_ok libssh2_scp_recv _ w1 w2 (RecvOk (Z.of_nat (length content))));
        [reflexivity|].
      unfold libssh2_scp_recv, recorded. cbn [ssh add_log w1 set_heap].
      rewrite Hrecv. reflexivity. }
  set (w3 := set_fs (set_file (Some []) (free_bytes (fs w2)) (fs w2)) (add_log EvCreat w2)).
  rewrite (bind_ok creat _ w2 w3 true).
  2:{ unfold creat, recorded. cbn [fs add_log w2 set_ssh w1 set_heap].
      rewrite Hcreat. reflexivity. }
  cbn [negb]. cbv iota.
  rewrite (bind_ok (gets _) _ w3 w3 _ eq_refl).
  assert (E : exists w4,
             (if 0 <? Z.of_nat (length content)
              then pull_loop (read_fuel (read_script (ssh w3))) 0
                     (Z.of_nat (length content))
              else mret (Done tt)) w3 = Ok (Done tt) w4
             /\ file (fs w4) = Some content
             /\ close_ok (fs w4) = true
             /\ open_ok (fs w4) = open_ok (fs w)
             /\ heap w4 = h
             /\ tbl w4 = tbl w).
  { destruct (Z.ltb_spec 0 (Z.of_nat (length content))) as [Hpos|Hzero].
    - destruct (pull_loop_copy (read_fuel (read_script (ssh w3))) chunks 0
                  (Z.of_nat (length content)) w3 [] tl rrest Hne Hread)
        as (w4 & E4 & F4 & C4 & O4 & H4 & T4);
        rewrite ?Hcat; try reflexivity; try lia; try assumption.
      { change (read_script (ssh w3)) with (read_script (ssh w)). rewrite Hread.
        rewrite <- Hcat. apply read_fuel_chunks. }
      exists w4. rewrite Hcat in F4. repeat split; try assumption.
      rewrite C4. exact Hclose.
    - exists w3. destruct content; [|simpl in Hzero; lia].
      repeat split; assumption. }
  destruct E as (w4 & E4 & F4 & C4 & O4 & H4 & T4).
  rewrite (bind_ok _ _ _ _ _ E4).
  rewrite (bind_ok VIR_CLOSE _ w4 w4 0) by (unfold VIR_CLOSE, gets; rewrite C4; reflexivity).
  exists (add_log EvChannelEnd w4). split; [reflexivity|].
  cbn. rewrite Nat.sub_0_r. auto.
Qed.

(** X13: when the server opens the copy channel at once and delivers the
    announced bytes of the remote table, in chunks of any size, and the
    local disk has room, [phypUUIDTable_Pull] returns 0 and the local file
    holds exactly the remote bytes; the table in memory is untouched. *)
Theorem Pull_copies_remote_file (content : list byte) (chunks : list (list byte))
    (tl : list byte) (rrest : list read_resp) (rest : list recv_resp) (w : world) :
  scp_recv_script (ssh w) = RecvOk (Z.of_nat (length content)) :: rest ->
  read_script (ssh w) = map ReadData chunks ++ ReadData tl :: rrest ->
  concat chunks = content ->
  Forall (fun c => c <> []) chunks ->
  Z.of_nat (length content) <= INT_MAX ->
  (length content <= free_bytes (fs w))%nat ->
  creat_ok (fs w) = true ->
  close_ok (fs w) = true ->
  (0 < heap w)%nat ->
  exists w',
    phypUUIDTable_Pull w = Ok 0 w'
    /\ file (fs w') = Some content
    /\ tbl w' = tbl w
    /\ open_ok (fs w') = open_ok (fs w)
    /\ heap w' = (heap w - 1)%nat.
Proof. apply Pull_copy_run. Qed.

Lemma ReadFile_loads (entries : list lpar) (w : world) :
  Forall wf_lpar entries ->
  file (fs w) = Some (concat (map record_bytes entries)) ->
  open_ok (fs w) = true ->
  nlpars (tbl w) = Z.of_nat (length entries) ->
  (length entries < heap w)%nat ->
  exists w',
    phypUUIDTable_ReadFile w = Ok 0 w'
    /\ tbl w' = mk_table (Z.of_nat (length entries)) (map Some entries).
Proof.
  intros Hwf Hf Ho Hn Hheap.
  unfold phypUUIDTable_ReadFile.
  rewrite (bind_ok open_rdonly _ w (add_log EvOpenRead w) true).
  2:{ unfold open_rdonly, emit, modify, gets, can_open. unfold mbind, M_bind. cbn.
      rewrite Hf, Ho. reflexivity. }
  cbn [negb]. cbv iota.
  set (w0 := add_log EvOpenRead w).
  rewrite (bind_ok (gets _) _ w0 w0 (nlpars (tbl w)) eq_refl).
  destruct (heap w) as [|h] eqn:Hh; [lia|].
  rewrite (bind_ok alloc _ w0 (set_heap h w0) true)
    by (unfold alloc; cbn; rewrite Hh; reflexivity).
  cbv iota. rewrite Hn, Nat2Z.id.
  rewrite (bind_ok (modify _) _ _ _ tt eq_refl).
  set (w1 := set_lpars _ _).
  destruct (ReadFile_loop_run entries [] [] w1 Hwf) as (w2 & E & Hl & Hn2).
  { exact Hf. }
  { reflexivity. }
  { cbn. lia. }
  cbn [length] in E. rewrite (bind_ok _ _ _ _ _ E).
  exists w2. split; [reflexivity|].
  destruct (tbl w2) as [n2 l2]. cbn in *. rewrite Hl. f_equal. rewrite Hn2. exact Hn.
Qed.

(** X14: the load path of [phypUUIDTable_Init].  When the server holds the
    records of a table (for each entry the 4 bytes of the id, then the 16
    bytes of the uuid) and delivers them, the table in memory after
    [Init_table] has exactly these entries, in the order of the file; the
    list of live ids is not consulted. *)
Theorem Init_loads_server_table (entries : list lpar) (ids : list Z)
    (chunks : list (list byte)) (tl : list byte) (rrest : list read_resp)
    (rest : list recv_resp) (w : world) :
  Forall wf_lpar entries ->
  scp_recv_script (ssh w)
  = RecvOk (Z.of_nat (length (concat (map record_bytes entries)))) :: rest ->
  read_script (ssh w) = map ReadData chunks ++ ReadData tl :: rrest ->
  concat chunks = concat (map record_bytes entries) ->
  Forall (fun c => c <> []) chunks ->
  Z.of_nat (length entries * 20) <= INT_MAX ->
  (length entries * 20 <= free_bytes (fs w))%nat ->
  creat_ok (fs w) = true ->
  close_ok (fs w) = true ->
  open_ok (fs w) = true ->
  (length entries + 1 < heap w)%nat ->
  exists w',
    Init_table (Z.of_nat (length entries)) ids w = Ok 0 w'
    /\ tbl w' = mk_table (Z.of_nat (length entries)) (map Some entries).
Proof.
  intros Hwf Hrecv Hread Hcat Hne Hmax Hfree Hcreat Hclose Hopen Hheap.
  pose proof (length_records entries) as Hlen.
  change (sizeof_int + VIR_UUID_BUFLEN)%nat with 20%nat in Hlen.
  unfold Init_table.
  rewrite (bind_ok (modify _) _ w (set_nlpars (Z.of_nat (length entries)) w) tt eq_refl).
  set (w0 := set_nlpars _ w).
  destruct (Pull_copy_run (concat (map record_bytes entries)) chunks tl rrest
              rest w0 Hrecv Hread Hcat Hne)
    as (w1 & E1 & F1 & T1 & O1 & H1);
    try assumption; try (rewrite Hlen; assumption); try (cbn; lia).
  rewrite (bind_ok _ _ _ _ _ E1).
  change (0 =? -1) with false. cbv iota.
  destruct (ReadFile_loads entries w1 Hwf F1) as (w2 & E2 & T2).
  { rewrite O1. exact Hopen. }
  { rewrite T1. reflexivity. }
  { rewrite H1. cbn. lia. }
  rewrite (bind_ok _ _ _ _ _ E2).
  change (0 =? -1) with false. cbv iota.
  exists w2. split; [reflexivity|exact T2].
Qed.

(** ** Copying the table to the server *)

Lemma push_block_val : push_block = 1024%nat.
Proof. with_strategy transparent [push_block] reflexivity. Qed.

(** One write that takes the whole block ends the inner loop. *)
Lemma write_loop_whole (wfuel : nat) (buffer : list byte) (n k : nat)
    (script : list write_resp) (w : world) :
  write_script (ssh w) = WriteAccept k :: script ->
  (0 < n <= length buffer)%nat ->
  (n <= k)%nat ->
  (n <= 1024)%nat ->
  write_loop (S wfuel) buffer 0 (Z.of_nat n) 0 w
  = Ok tt (set_ssh (set_write_script script (sent_bytes (ssh w) ++ take n buffer)
                      (ssh w)) w).
Proof.
  intros Hs Hn Hk Hmax. cbn [write_loop].
  rewrite (bind_ok (libssh2_channel_write buffer 0 (Z.of_nat n)) _ w
             (set_ssh (set_write_script script (sent_bytes (ssh w) ++ take n buffer)
                         (ssh w)) w) (Z.of_nat n)).
  2:{ unfold libssh2_channel_write. rewrite Hs. cbv zeta.
      rewrite Z.min_r by lia.
      replace (Z.of_nat (length buffer) <? 0 + Z.of_nat n) with false
        by (symmetry; apply Z.ltb_ge; lia).
      rewrite Nat2Z.id. reflexivity. }
  replace (Z.of_nat n =? LIBSSH2_ERROR_EAGAIN) with false
    by (symmetry; apply Z.eqb_neq; unfold LIBSSH2_ERROR_EAGAIN; lia).
  cbv zeta.
  replace (0 <? Z.of_nat n) with true by (symmetry; apply Z.ltb_lt; lia).
  cbn [andb].
  assert (Hw : size_wrap (0 + Z.of_nat n) = Z.of_nat n)
    by (unfold size_wrap; apply Z.mod_small; lia).
  rewrite Hw. replace (Z.of_nat n - Z.of_nat n) with 0 by lia.
  change (size_wrap 0) with 0.
  replace (Z.of_nat n <? 0) with false by (symmetry; apply Z.ltb_ge; lia).
  reflexivity.
Qed.

(** The outer loop of [Push] when every write takes the whole block. *)
Lemma push_loop_whole (fuel : nat) :
  forall (ks : list nat) (pos : nat) (buffer : list byte) (w : world) (c : list byte)
         (rest : list write_resp),
    file (fs w) = Some c ->
    fread_ok (fs w) = true ->
    write_script (ssh w) = map WriteAccept ks ++ rest ->
    Forall (fun k => (1024 <= k)%nat) ks ->
    (length c - pos <= 1024 * length ks)%nat ->
    (pos <= length c)%nat ->
    length buffer = push_block ->
    (length c - pos < fuel)%nat ->
    exists w',
      push_loop fuel pos buffer w = Ok true w'
      /\ sent_bytes (ssh w') = sent_bytes (ssh w) ++ drop pos c
      /\ fs w' = fs w
      /\ tbl w' = tbl w
      /\ log w' = log w.
Proof.
  induction fuel as [|fuel IH];
    intros ks pos buffer w c rest Hf Hr Hs Hks Hlen Hpos Hbuf Hfuel; [lia|].
  cbn [push_loop].
  rewrite (bind_ok (read_at pos push_block) _ w w (take push_block (drop pos c)))
    by (unfold read_at, gets; rewrite Hf; reflexivity).
  rewrite (bind_ok (gets _) _ w w true) by (unfold gets; rewrite Hr; reflexivity).
  cbn [negb]. cbv iota.
  assert (Hbl : length (take push_block (drop pos c)) = Nat.min 1024 (length c - pos)).
  { rewrite length_take, length_drop, push_block_val. reflexivity. }
  destruct (take push_block (drop pos c)) as [|b0 block'] eqn:Hblock.
  - exists w. split; [reflexivity|].
    cbn [length] in Hbl. rewrite drop_ge by lia. rewrite app_nil_r. auto.
  - set (block := b0 :: block') in *.
    assert (Hbpos : (0 < length block)%nat) by (unfold block; simpl; lia).
    clearbody block. clear b0 block'.
    cbv zeta.
    destruct ks as [|k ks]; [simpl in Hlen; lia|].
    apply Forall_cons in Hks as [Hk Hks]. simpl in Hs.
    rewrite (bind_ok (gets _) _ w w _ eq_refl).
    set (buffer' := block ++ drop (length block) buffer).
    assert (Hb' : length buffer' = push_block).
    { unfold buffer'. rewrite length_app, length_drop, Hbuf, push_block_val. lia. }
    rewrite (bind_ok _ _ _ _ _
               (write_loop_whole _ buffer' (length block) k _ w Hs
                  ltac:(rewrite Hb', push_block_val; lia) ltac:(lia) ltac:(lia))).
    set (w1 := set_ssh _ w).
    destruct (IH ks (pos + length block)%nat buffer' w1 c rest Hf Hr eq_refl Hks)
      as (w' & E & S' & F' & T' & L'); try lia; try assumption.
    { simpl in Hlen. lia. }
    exists w'. split; [exact E|]. split; [|auto].
    rewrite S'. cbn [w1 ssh set_ssh sent_bytes set_write_script].
    rewrite <- app_assoc. f_equal.
    unfold buffer'. rewrite take_app_length.
    rewrite <- (take_drop push_block (drop pos c)) at 1.
    rewrite Hblock. f_equal. rewrite drop_drop.
    destruct (Nat.le_gt_cases 1024 (length c - pos)).
    + f_equal. rewrite Hbl, push_block_val. lia.
    + rewrite !drop_ge; [reflexivity|rewrite push_block_val; lia|rewrite Hbl; lia].
Qed.

Lemma Push_whole_run (c : list byte) (ks : list nat) (rest : list write_resp)
    (srest : list chan_resp) (w : world) :
  file (fs w) = Some c ->
  open_ok (fs w) = true ->
  fread_ok (fs w) = true ->
  (0 < heap w)%nat ->
  scp_send_script (ssh w) = ChanOk :: srest ->
  write_script (ssh w) = map WriteAccept ks ++ rest ->
  Forall (fun k => (1024 <= k)%nat) ks ->
  (length c <= 1024 * length ks)%nat ->
  exists w',
    phypUUIDTable_Push w = Ok 0 w'
    /\ sent_bytes (ssh w') = sent_bytes (ssh w) ++ c
    /\ In (EvScpSend (Z.land 511 (st_mode (fs w))) (Z.of_nat (length c))) (log w')
    /\ file (fs w') = Some c
    /\ tbl w' = tbl w.
Proof.
  intros Hf Ho Hr Hheap Hsend Hs Hks Hlen.
  unfold phypUUIDTable_Push.
  destruct (heap w) as [|h] eqn:Hh; [lia|].
  rewrite (bind_ok alloc _ w (set_heap h w) true)
    by (unfold alloc; rewrite Hh; reflexivity).
  cbn [negb]. cbv iota.
  set (w1 := set_heap h w).
  rewrite (bind_ok stat_file _ w1 w1 (Some (st_mode (fs w), Z.of_nat (length c))))
    by (unfold stat_file, gets; cbn; rewrite Hf; reflexivity).
  cbv iota beta.
  rewrite (bind_ok fopen_rb _ w1 (add_log EvFopen w1) true).
  2:{ unfold fopen_rb, emit, modify, gets, can_open. unfold mbind, M_bind. cbn.
      rewrite Hf, Ho. reflexivity. }
  cbn [negb]. cbv iota.
  set (w2 := add_log EvFopen w1).
  rewrite (bind_ok (gets _) _ w2 w2 _ eq_refl).
  set (w3 := set_ssh (set_scp_send_script srest (ssh w2))
               (add_log (EvScpSend (Z.land 511 (st_mode (fs w))) (Z.of_nat (length c))) w2)).
  rewrite (bind_ok (scp_send_loop _ _ _) _ w2 w3 ChanOk).
  2:{ cbn [scp_send_loop].
      rewrite (bind_ok (libssh2_scp_send _ _) _ w2 w3 ChanOk); [reflexivity|].
      unfold libssh2_scp_send, recorded. cbn [ssh add_log w2 w1 set_heap].
      rewrite Hsend. reflexivity. }
  rewrite (bind_ok (gets _) _ w3 w3 _ eq_refl).
  destruct (push_loop_whole (S (length (default [] (file (fs w3))))) ks 0
              (replicate push_block NUL) w3 c rest Hf Hr Hs Hks)
    as (w4 & E4 & S4 & F4 & T4 & L4);
    try lia.
  { apply length_replicate. }
  { change (file (fs w3)) with (file (fs w)). rewrite Hf. simpl. lia. }
  rewrite (bind_ok _ _ _ _ _ E4).
  exists (add_log EvChannelEnd w4). split; [reflexivity|].
  cbn. rewrite S4, F4, T4, L4. cbn.
  split; [reflexivity|]. split; [|split; [exact Hf|reflexivity]].
  apply in_or_app. left. apply in_or_app. right. left. reflexivity.
Qed.

(** X15: when the copy channel opens at once and every write takes the
    whole block it is offered, [phypUUIDTable_Push] returns 0 after it has
    announced the size of the local file with the permission bits of its
    mode and sent the bytes of the file, all of them and in order. *)
Theorem Push_sends_whole_file (c : list byte) (ks : list nat) (rest : list write_resp)
    (srest : list chan_resp) (w : world) :
  file (fs w) = Some c ->
  open_ok (fs w) = true ->
  fread_ok (fs w) = true ->
  (0 < heap w)%nat ->
  scp_send_script (ssh w) = ChanOk :: srest ->
  write_script (ssh w) = map WriteAccept ks ++ rest ->
  Forall (fun k => (1024 <= k)%nat) ks ->
  (length c <= 1024 * length ks)%nat ->
  exists w',
    phypUUIDTable_Push w = Ok 0 w'
    /\ sent_bytes (ssh w') = sent_bytes (ssh w) ++ c
    /\ In (EvScpSend (Z.land 511 (st_mode (fs w))) (Z.of_nat (length c))) (log w')
    /\ file (fs w') = Some c
    /\ tbl w' = tbl w.
Proof. apply Push_whole_run. Qed.


(** ** A successful add *)

Lemma WriteFile_loop_answers (n : nat) :
  forall i, steps (same fs_answers) (WriteFile_loop n i).
Proof. induction n as [|n IH]; intros; simpl; steps_tac. Qed.

Lemma WriteFile_loop_ssh (n : nat) : forall i, steps (same ssh) (WriteFile_loop n i).
Proof. induction n as [|n IH]; intros; simpl; steps_tac. Qed.

Lemma WriteFile_loop_heap (n : nat) : forall i, steps (same heap) (WriteFile_loop n i).
Proof. induction n as [|n IH]; intros; simpl; steps_tac. Qed.

(** [WriteFile] on a disk with room. *)
Lemma WriteFile_enough (entries : list lpar) (w : world) :
  tbl w = mk_table (Z.of_nat (length entries)) (map Some entries) ->
  creat_ok (fs w) = true ->
  close_ok (fs w) = true ->
  (length entries * 20 <= free_bytes (fs w))%nat ->
  exists w',
    phypUUIDTable_WriteFile w = Ok 0 w'
    /\ file (fs w') = Some (concat (map record_bytes entries))
    /\ fs_answers w' = fs_answers w
    /\ ssh w' = ssh w
    /\ heap w' = heap w
    /\ tbl w' = tbl w.
Proof.
  intros Ht Hc Hclose Hfree.
  unfold phypUUIDTable_WriteFile.
  set (w0 := set_fs (set_file (Some []) (free_bytes (fs w)) (fs w)) (add_log EvCreat w)).
  assert (E0 : creat w = Ok true w0).
  { unfold creat, recorded. cbn. rewrite Hc. reflexivity. }
  rewrite (bind_ok _ _ _ _ _ E0). cbn [negb]. cbv iota.
  rewrite (bind_ok (gets _) _ w0 w0 (Z.of_nat (length entries)))
    by (unfold gets; cbn; rewrite Ht; reflexivity).
  rewrite Nat2Z.id.
  destruct (WriteFile_loop_disk entries [] [] w0) as (w1 & E1 & F1).
  { cbn. rewrite Ht. reflexivity. }
  { reflexivity. }
  cbn [length] in E1. rewrite (bind_ok _ _ _ _ _ E1).
  replace (length entries * 20 <=? free_bytes (fs w0))%nat with true
    by (symmetry; apply Nat.leb_le; exact Hfree).
  cbn [negb]. cbv iota.
  pose proof (steps_ok _ _ _ _ _ (WriteFile_loop_answers _ _) E1) as A1.
  pose proof (steps_ok _ _ _ _ _ (WriteFile_loop_ssh _ _) E1) as S1.
  pose proof (steps_ok _ _ _ _ _ (WriteFile_loop_heap _ _) E1) as H1.
  pose proof (steps_ok _ _ _ _ _ (WriteFile_loop_tbl _ _) E1) as T1.
  unfold same in A1, S1, H1, T1.
  assert (Hcl : close_ok (fs w1) = true).
  { unfold fs_answers in A1. injection A1 as _ _ A _ _. rewrite A. exact Hclose. }
  rewrite (bind_ok VIR_CLOSE _ w1 w1 0)
    by (unfold VIR_CLOSE, gets; rewrite Hcl; reflexivity).
  exists w1. split; [reflexivity|].
  rewrite F1, take_ge by (rewrite length_records;
                          change (sizeof_int + VIR_UUID_BUFLEN)%nat with 20%nat;
                          exact Hfree).
  auto.
Qed.

(** X16: a successful add.  For a table as the routines leave it, with
    room on the disk, allocations that succeed and a copy channel that
    opens at once and takes whole blocks, [phypUUIDTable_AddLpar] returns 0
    and the table in memory, the local file and the bytes sent to the
    server all hold the old entries followed by the new one. *)
Theorem AddLpar_stores_everywhere (entries : list lpar) (u : list byte) (lpar_id : Z)
    (ks : list nat) (rest : list write_resp) (srest : list chan_resp) (w : world) :
  tbl w = mk_table (Z.of_nat (length entries)) (map Some entries) ->
  Z.of_nat (length entries) < SIZE_MAX ->
  fs_answers w = (true, true, true, true, st_mode (fs w)) ->
  (S (length entries) * 20 <= free_bytes (fs w))%nat ->
  (2 < heap w)%nat ->
  scp_send_script (ssh w) = ChanOk :: srest ->
  write_script (ssh w) = map WriteAccept ks ++ rest ->
  Forall (fun k => (1024 <= k)%nat) ks ->
  (S (length entries) * 20 <= 1024 * length ks)%nat ->
  exists w',
    phypUUIDTable_AddLpar u lpar_id w = Ok 0 w'
    /\ tbl w' = mk_table (Z.of_nat (length entries) + 1)
                         (map Some (entries ++ [mk_lpar lpar_id (uuid_mem u)]))
    /\ file (fs w')
       = Some (concat (map record_bytes (entries ++ [mk_lpar lpar_id (uuid_mem u)])))
    /\ sent_bytes (ssh w')
       = sent_bytes (ssh w)
           ++ concat (map record_bytes (entries ++ [mk_lpar lpar_id (uuid_mem u)])).
Proof.
  intros Ht Hmax Hans Hfree Hheap Hsend Hs Hks Hlen.
  set (e := mk_lpar lpar_id (uuid_mem u)).
  unfold fs_answers in Hans. injection Hans as Hcreat Hopen Hclose Hread.
  unfold phypUUIDTable_AddLpar. cbv zeta.
  rewrite (bind_ok (gets _) _ w w (Z.of_nat (length entries)))
    by (unfold gets; rewrite Ht; reflexivity).
  assert (Hw : size_wrap (Z.of_nat (length entries) + 1) = Z.of_nat (length entries) + 1).
  { unfold size_wrap. apply Z.mod_small. unfold SIZE_MAX in Hmax. lia. }
  assert (Hi : Z.to_nat (size_wrap (Z.of_nat (length entries) + 1 - 1)) = length entries).
  { replace (Z.of_nat (length entries) + 1 - 1) with (Z.of_nat (length entries)) by lia.
    unfold size_wrap. rewrite Z.mod_small by (unfold SIZE_MAX in Hmax; lia).
    apply Nat2Z.id. }
  rewrite Hw, Hi.
  rewrite (bind_ok (modify _) _ _ _ tt eq_refl).
  set (w1 := set_nlpars _ w).
  destruct (heap w) as [|[|[|h]]] eqn:Hh; try lia.
  set (l2 := map Some entries ++ [None]).
  set (w2 := set_lpars l2 (set_heap (S (S h)) w1)).
  rewrite (bind_ok (realloc_lpars _) _ w1 w2 true).
  2:{ unfold realloc_lpars.
      rewrite (bind_ok alloc _ w1 (set_heap (S (S h)) w1) true)
        by (unfold alloc; cbn; rewrite Hh; reflexivity).
      rewrite (bind_ok (modify _) _ (set_heap (S (S h)) w1) w2 tt); [reflexivity|].
      unfold modify, w2, l2. do 2 f_equal. cbn. rewrite Ht. cbn.
      replace (Z.to_nat (Z.of_nat (length entries) + 1))
        with (length (map Some entries) + 1)%nat by (rewrite length_map; lia).
      rewrite resize_add, resize_all, drop_all. reflexivity. }
  cbn [negb]. cbv iota.
  rewrite (bind_ok alloc _ w2 (set_heap (S h) w2) true) by reflexivity.
  cbn [negb]. cbv iota.
  set (w3 := set_lpars (map Some (entries ++ [e])) (set_heap (S h) w2)).
  rewrite (bind_ok (store_slot _ _) _ (set_heap (S h) w2) w3 tt).
  2:{ rewrite store_slot_run by (cbn; unfold l2; rewrite length_app, length_map; simpl; lia).
      unfold w3. do 2 f_equal. cbn. unfold l2.
      rewrite <- (length_map Some entries) at 1. rewrite insert_at_length.
      rewrite map_app. reflexivity. }
  destruct (WriteFile_enough (entries ++ [e]) w3) as (w4 & E4 & F4 & A4 & S4 & H4 & T4);
    try assumption.
  { cbn. rewrite length_app. cbn. f_equal. lia. }
  { rewrite length_app. cbn. lia. }
  rewrite (bind_ok _ _ _ _ _ E4).
  change (0 =? -1) with false. cbv iota.
  unfold fs_answers in A4. injection A4 as _ Ho4 _ Hr4 _.
  destruct (Push_whole_run _ ks rest srest w4 F4)
    as (w5 & E5 & S5 & _ & F5 & T5);
    try (rewrite ?S4, ?H4; cbn; first [assumption|lia]).
  { rewrite Ho4. exact Hopen. }
  { rewrite Hr4. exact Hread. }
  { rewrite length_records, length_app. cbn [length].
    change (sizeof_int + VIR_UUID_BUFLEN)%nat with 20%nat. lia. }
  rewrite (bind_ok _ _ _ _ _ E5).
  change (0 =? -1) with false. cbv iota.
  exists w5. split; [reflexivity|].
  rewrite T5, T4, F5, S5, S4. cbn. auto.
Qed.

(** ** Removing the special characters *)

Lemma escape_loop_run (todo : list byte) :
  forall (done out rest : list byte) (k : nat) (w : world),
    (length todo < k)%nat ->
    escape_loop (length todo) (length done) (length out) (done ++ todo ++ rest)
                (out ++ replicate k NUL) w
    = Ok ((out ++ List.filter (fun c => negb (is_specialcharacter c)) todo)
            ++ replicate (k - length (List.filter (fun c => negb (is_specialcharacter c))
                                        todo)) NUL) w.
Proof.
  induction todo as [|c todo IH]; intros done out rest k w Hk.
  - cbn [length escape_loop List.filter].
    replace (length out <? length (out ++ replicate k NUL))%nat with true
      by (symmetry; apply Nat.ltb_lt; rewrite length_app, length_replicate; simpl in Hk; lia).
    destruct k as [|k]; [simpl in Hk; lia|]. cbn [replicate].
    rewrite insert_at_length, app_nil_r. reflexivity.
  - cbn [length escape_loop List.filter app].
    replace ((done ++ c :: todo ++ rest) !! length done) with (Some c)
      by (symmetry; rewrite lookup_app_r by lia; rewrite Nat.sub_diag; reflexivity).
    cbn [length] in Hk.
    assert (IH' : forall out' k', (length todo < k')%nat ->
              escape_loop (length todo) (S (length done)) (length out')
                (done ++ c :: todo ++ rest) (out' ++ replicate k' NUL) w
              = Ok ((out' ++ List.filter (fun c => negb (is_specialcharacter c)) todo)
                      ++ replicate (k' - length (List.filter
                                                   (fun c => negb (is_specialcharacter c))
                                                   todo)) NUL) w).
    { intros out' k' Hk'. specialize (IH (done ++ [c]) out' rest k' w Hk').
      rewrite length_app in IH. cbn [length] in IH. rewrite Nat.add_1_r in IH.
      rewrite <- app_assoc in IH. exact IH. }
    destruct (is_specialcharacter c); cbn [negb].
    + apply IH'. lia.
    + replace (length out <? length (out ++ replicate k NUL))%nat with true
        by (symmetry; apply Nat.ltb_lt; rewrite length_app, length_replicate; lia).
      destruct k as [|k]; [lia|]. cbn [replicate].
      rewrite insert_at_length.
      specialize (IH' (out ++ [c]) k ltac:(lia)).
      rewrite length_app in IH'. cbn [length] in IH'. rewrite Nat.add_1_r in IH'.
      rewrite <- !app_assoc in IH'. cbn [app] in IH'.
      rewrite IH'. cbn [length]. rewrite <- !app_assoc. reflexivity.
Qed.

Lemma filter_no_NUL (f : byte -> bool) (s : list byte) :
  ~ In NUL s -> ~ In NUL (List.filter f s).
Proof. intros H Hin. apply List.filter_In in Hin. apply H, Hin. Qed.

Lemma strlen_text_take (s z : list byte) :
  ~ In NUL s -> take (strlen (s ++ NUL :: z)) (s ++ NUL :: z) = s.
Proof. intros H. rewrite (strlen_text _ _ H). apply take_app_length. Qed.

(** X17: [escape_specialcharacters] on the text [s] (a string without NUL,
    followed by its terminator): the empty text gives NULL and so does a
    failed allocation; otherwise the result is [s] without its special
    characters, the others in their order.  No special character is left
    in the result, and a text that has none comes back as it is. *)
Theorem escape_specialcharacters_spec (s z : list byte) (w : world) :
  ~ In NUL s ->
  (s = [] -> escape_specialcharacters (s ++ NUL :: z) w = Ok None w)
  /\ (heap w = O -> escape_specialcharacters (s ++ NUL :: z) w = Ok None w)
  /\ (s <> [] -> forall h, heap w = S h ->
      escape_specialcharacters (s ++ NUL :: z) w
      = Ok (Some (List.filter (fun c => negb (is_specialcharacter c)) s)) (set_heap h w))
  /\ (forall z',
        contains_specialcharacters
          (List.filter (fun c => negb (is_specialcharacter c)) s ++ NUL :: z') = false)
  /\ (contains_specialcharacters (s ++ NUL :: z) = false ->
      List.filter (fun c => negb (is_specialcharacter c)) s = s).
Proof.
  intros Hs. unfold escape_specialcharacters. cbv zeta.
  rewrite (strlen_text _ _ Hs).
  split; [|split; [|split; [|split]]].
  - intros ->. reflexivity.
  - intros Hh. destruct (length s =? 0)%nat; [reflexivity|].
    rewrite (bind_ok alloc _ w w false) by (unfold alloc; rewrite Hh; reflexivity).
    reflexivity.
  - intros Hne h Hh.
    destruct (Nat.eqb_spec (length s) 0) as [H0|H0].
    { destruct s; [contradiction|discriminate H0]. }
    rewrite (bind_ok alloc _ w (set_heap h w) true)
      by (unfold alloc; rewrite Hh; reflexivity).
    cbn [negb]. cbv iota.
    pose proof (escape_loop_run s [] [] (NUL :: z) (length s + 1) (set_heap h w)
                  ltac:(lia)) as E.
    cbn [length app] in E. rewrite (bind_ok _ _ _ _ _ E).
    set (out := List.filter _ s).
    assert (Hlen : (length out <= length s)%nat) by apply List.filter_length_le.
    destruct (length s + 1 - length out)%nat as [|k] eqn:Hk; [lia|].
    cbn [replicate].
    rewrite (strlen_text_take out _ (filter_no_NUL _ _ Hs)). reflexivity.
  - intros z'. destruct (contains_specialcharacters _) eqn:Hc; [|reflexivity].
    apply contains_specialcharacters_spec in Hc. destruct Hc as (c & Hin & Hsp).
    rewrite (strlen_text_take _ _ (filter_no_NUL _ _ Hs)) in Hin.
    apply List.filter_In in Hin. destruct Hin as [_ Hn]. rewrite Hsp in Hn.
    discriminate Hn.
  - intros Hc. apply List.forallb_filter_id. apply List.forallb_forall.
    intros c Hin. destruct (is_specialcharacter c) eqn:Hsp; [|reflexivity].
    assert (contains_specialcharacters (s ++ NUL :: z) = true).
    { apply contains_specialcharacters_spec. exists c. split; [|exact Hsp].
      rewrite (strlen_text_take _ _ Hs). exact Hin. }
    congruence.
Qed.

(** ** Listing the names of the defined domains *)

Lemma after_char_line (c : byte) (l r : list byte) :
  ~ In c l -> after_char c (l ++ c :: r) = Some r.
Proof.
  induction l as [|b l IH]; intros H; simpl.
  - destruct (byte_eqb_spec c c); [reflexivity|contradiction].
  - destruct (byte_eqb_spec b c) as [->|Hb].
    + exfalso. apply H. left. reflexivity.
    + apply IH. intros Hin. apply H. right. exact Hin.
Qed.

Lemma after_char_none (c : byte) (t : list byte) :
  ~ In c t -> after_char c t = None.
Proof.
  induction t as [|b t IH]; intros H; simpl; [reflexivity|].
  destruct (byte_eqb_spec b c) as [->|Hb].
  - exfalso. apply H. left. reflexivity.
  - apply IH. intros Hin. apply H. right. exact Hin.
Qed.

Lemma cut_at_line (c : byte) (l r : list byte) :
  ~ In c l -> cut_at c (l ++ c :: r) = l.
Proof.
  induction l as [|b l IH]; intros H; simpl.
  - destruct (byte_eqb_spec c c); [reflexivity|contradiction].
  - destruct (byte_eqb_spec b c) as [->|Hb].
    + exfalso. apply H. left. reflexivity.
    + f_equal. apply IH. intros Hin. apply H. right. exact Hin.
Qed.

(** The loop over the lines of the output: it takes the lines that end
    in a newline, as many as the array has room for. *)
Lemma names_loop_lines (lines : list cstr) :
  forall (fuel : nat) (tail : cstr) (got nnames : Z) (pre post : list (option cstr))
         (w : world),
    Forall (fun l => ~ In NL l) lines ->
    ~ In NL tail ->
    0 <= got ->
    length pre = Z.to_nat got ->
    (Z.to_nat (nnames - got) <= length post)%nat ->
    (Nat.min (Z.to_nat (nnames - got)) (length lines) <= heap w)%nat ->
    (length (concat (map (fun l => l ++ [NL]) lines)) < fuel)%nat ->
    names_loop fuel (concat (map (fun l => l ++ [NL]) lines) ++ tail) got nnames
               (pre ++ post) w
    = Ok (true,
          got + Z.of_nat (Nat.min (Z.to_nat (nnames - got)) (length lines)),
          pre ++ map Some (take (Nat.min (Z.to_nat (nnames - got)) (length lines)) lines)
              ++ drop (Nat.min (Z.to_nat (nnames - got)) (length lines)) post)
         (set_heap (heap w - Nat.min (Z.to_nat (nnames - got)) (length lines)) w).
Proof.
  assert (Hw : forall w : world, set_heap (heap w - 0) w = w).
  { intros [t d h f s us ss lg]. cbn. rewrite Nat.sub_0_r. reflexivity. }
  induction lines as [|l lines IH];
    intros fuel tail got nnames pre post w Hall Htail Hgot Hpre Hpost Hheap Hfuel;
    (destruct fuel as [|fuel]; [simpl in Hfuel; lia|]); cbn [names_loop].
  - cbn [map concat app length]. rewrite Nat.min_0_r. cbn [take drop map app].
    rewrite Z.add_0_r, Hw.
    destruct (got <? nnames); [|reflexivity].
    rewrite (after_char_none _ _ Htail). reflexivity.
  - apply Forall_cons in Hall as [Hl Hall].
    destruct (Z.ltb_spec got nnames) as [Hlt|Hge].
    2:{ replace (Z.to_nat (nnames - got)) with 0%nat by lia.
        cbn [Nat.min take drop map app]. rewrite Z.add_0_r, Hw. reflexivity. }
    cbn [map concat]. rewrite <- !app_assoc. cbn [app].
    rewrite (after_char_line _ _ _ Hl), (cut_at_line _ _ _ Hl).
    destruct post as [|p post]; [simpl in Hpost; lia|].
    replace (Z.to_nat got <? length (pre ++ p :: post))%nat with true
      by (symmetry; apply Nat.ltb_lt; rewrite length_app; simpl; lia).
    assert (Hmin : Nat.min (Z.to_nat (nnames - got)) (length (l :: lines))
                   = S (Nat.min (Z.to_nat (nnames - (got + 1))) (length lines))).
    { cbn [length]. lia. }
    rewrite Hmin in *.
    destruct (heap w) as [|h] eqn:Hh; [lia|].
    rewrite (bind_ok alloc _ w (set_heap h w) true)
      by (unfold alloc; rewrite Hh; reflexivity).
    cbv iota. rewrite <- Hpre, insert_at_length.
    replace (pre ++ Some l :: post) with ((pre ++ [Some l]) ++ post)
      by (rewrite <- app_assoc; reflexivity).
    rewrite (IH fuel tail (got + 1) nnames (pre ++ [Some l]) post (set_heap h w));
      try assumption; try lia.
    + cbn [take drop map]. f_equal; try reflexivity.
      f_equal; [f_equal; lia|]. rewrite <- !app_assoc. reflexivity.
    + rewrite length_app. simpl. lia.
    + cbn [length] in Hpost. lia.
    + cbn. lia.
    + cbn [map concat] in Hfuel. rewrite !length_app in Hfuel. simpl in Hfuel. lia.
Qed.

(** X18: what [phypConnectListDefinedDomains] makes of the output of its
    command.  With a non-negative exit status, an array of [nnames] slots
    and allocations that succeed, it returns the number of names stored,
    the smaller of [nnames] and the number of lines that end in a newline,
    and the first slots hold these lines in order; the other slots are
    untouched, and text after the last newline is not taken for a name. *)
Theorem ListDefinedDomains_lines (lines : list cstr) (tail : cstr) (code nnames : Z)
    (names : list (option cstr)) (w : world) :
  Forall (fun l => ~ In NL l) lines ->
  ~ In NL tail ->
  0 <= code ->
  0 <= nnames ->
  length names = Z.to_nat nnames ->
  (Nat.min (Z.to_nat nnames) (length lines) <= heap w)%nat ->
  exists w',
    ListDefinedDomains_names
      (Some (concat (map (fun l => l ++ [NL]) lines) ++ tail), code) names nnames w
    = Ok (Z.of_nat (Nat.min (Z.to_nat nnames) (length lines)),
          map Some (take (Nat.min (Z.to_nat nnames) (length lines)) lines)
            ++ drop (Nat.min (Z.to_nat nnames) (length lines)) names) w'.
Proof.
  intros Hall Htail Hcode Hn Hlen Hheap.
  unfold ListDefinedDomains_names. cbn [fst snd].
  replace (code <? 0) with false by (symmetry; apply Z.ltb_ge; exact Hcode).
  pose proof (names_loop_lines lines
                (S (length (concat (map (fun l => l ++ [NL]) lines) ++ tail)))
                tail 0 nnames [] names w Hall Htail ltac:(lia) eq_refl) as E.
  rewrite Z.sub_0_r in E. cbn [app] in E.
  rewrite (bind_ok _ _ _ _ _ (E ltac:(lia) Hheap ltac:(rewrite length_app; lia))).
  cbn [fst snd]. eexists. reflexivity.
Qed.

(** ** Operations on a domain *)

Lemma open_session_loop_tbl (fuel : nat) : steps (same tbl) (open_session_loop fuel).
Proof. induction fuel as [|fuel IH]; simpl; steps_tac. Qed.

Lemma exec_loop_tbl (fuel : nat) (cmd : option cstr) : steps (same tbl) (exec_loop fuel cmd).
Proof. induction fuel as [|fuel IH]; simpl; steps_tac. Qed.

Lemma read_loop_tbl (fuel : nat) :
  forall buffer tex, steps (same tbl) (read_loop fuel buffer tex).
Proof. induction fuel as [|fuel IH]; intros; simpl; steps_tac. Qed.

Lemma close_loop_tbl (fuel : nat) : steps (same tbl) (close_loop fuel).
Proof. induction fuel as [|fuel IH]; simpl; steps_tac. Qed.

Lemma phypExec_tbl (cmd : option cstr) (es : Z) : steps (same tbl) (phypExec cmd es).
Proof.
  pose proof open_session_loop_tbl. pose proof exec_loop_tbl.
  pose proof read_loop_tbl. pose proof close_loop_tbl.
  unfold phypExec. steps_tac.
Qed.

Lemma phypExecBuffer_tbl (buf : virBuffer) (es : Z) (strip : bool) :
  steps (same tbl) (phypExecBuffer buf es strip).
Proof. pose proof phypExec_tbl. unfold phypExecBuffer. steps_tac. Qed.

Lemma phypExec_status (cmd : option cstr) (es : Z) :
  steps (same exit_status_of) (phypExec cmd es).
Proof.
  pose proof open_session_loop_status. pose proof exec_loop_status.
  pose proof read_loop_status. pose proof close_loop_status.
  unfold phypExec. steps_tac.
Qed.








Lemma virBufferAddStr_tbl (b : virBuffer) (s : cstr) :
  steps (same tbl) (virBufferAddStr b s).
Proof. steps_tac. Qed.

(** X20: [phypBuildLpar] checks the definition before it does anything:
    without memory, without maximum memory, without a disk or without a
    source for the first disk it returns -1 and nothing has happened.  When
    it returns 0 the definition passed these checks and the table has one
    more entry, the last one, with the id and the uuid of the
    definition. *)
Theorem phypBuildLpar_result (def : virDomainDef) (w : world) :
  ((cur_balloon def = 0 \/ max_balloon def = 0 \/ disks def = []
    \/ exists dk rest, disks def = dk :: rest /\ disk_src dk = None) ->
   phypBuildLpar def w = Ok (-1) w)
  /\ (forall w',
        phypBuildLpar def w = Ok 0 w' ->
        nlpars (tbl w) = Z.of_nat (length (lpars (tbl w))) ->
        nlpars (tbl w) < SIZE_MAX ->
        tbl w' = mk_table (nlpars (tbl w) + 1)
                   (lpars (tbl w)
                      ++ [Some (mk_lpar (def_id def) (uuid_mem (def_uuid def)))])
        /\ cur_balloon def <> 0
        /\ max_balloon def <> 0
        /\ exists dk rest src, disks def = dk :: rest /\ disk_src dk = Some src).
Proof.
  unfold phypBuildLpar. split.
  - intros H.
    destruct (Z.eqb_spec (cur_balloon def) 0) as [|Hc]; [reflexivity|].
    destruct (Z.eqb_spec (max_balloon def) 0) as [|Hm]; [reflexivity|].
    destruct H as [H|[H|[H|(dk & rest & H & Hsrc)]]]; try contradiction.
    + rewrite H. reflexivity.
    + rewrite H, Hsrc. reflexivity.
  - intros w' H Hn Hmax.
    destruct (Z.eqb_spec (cur_balloon def) 0) as [|Hc]; [discriminate H|].
    destruct (Z.eqb_spec (max_balloon def) 0) as [|Hm]; [discriminate H|].
    destruct (disks def) as [|dk rest]; [discriminate H|].
    destruct (disk_src dk) as [src|] eqn:Hsrc; [|discriminate H].
    bind_inv H d w1 E1. injection E1 as _ <-.
    bind_inv H b2 w2 E2.
    pose proof (steps_ok _ _ _ _ _ (virBufferAddStr_tbl _ _) E2) as T2.
    bind_inv H b3 w3 E3.
    assert (T3 : same tbl w2 w3).
    { destruct (system_type d =? HMC).
      - exact (steps_ok _ _ _ _ _ (virBufferAddStr_tbl _ _) E3).
      - injection E3 as _ <-. reflexivity. }
    bind_inv H b4 w4 E4.
    pose proof (steps_ok _ _ _ _ _ (virBufferAddStr_tbl _ _) E4) as T4.
    bind_inv H r w5 E5.
    pose proof (steps_ok _ _ _ _ _ (phypExecBuffer_tbl _ _ _) E5) as T5.
    destruct (r.2 <? 0); [discriminate H|].
    bind_inv H rc w6 E6.
    destruct (Z.eqb_spec rc (-1)) as [|Hrc]; [discriminate H|].
    injection H as <-.
    assert (T : tbl w5 = tbl w) by (unfold same in *; congruence).
    assert (Hrc0 : rc = 0).
    { revert E6. unfold phypUUIDTable_AddLpar. cbv zeta. intros E6.
      walk E6; try (injection E6 as <- _; try reflexivity; contradiction). }
    subst rc.
    rewrite (AddLpar_run _ _ _ _ ltac:(rewrite T; exact Hn) ltac:(rewrite T; exact Hmax) E6).
    rewrite T. split; [reflexivity|]. split; [exact Hc|]. split; [exact Hm|].
    exists dk, rest, src. auto.
Qed.

(** ** A channel that cannot be opened *)

Lemma open_session_loop_no_exec fuel : steps (log_ext no_exec) (open_session_loop fuel).
Proof. induction fuel as [|fuel IH]; simpl; steps_tac. Qed.

Lemma open_session_loop_hard (K : nat) :
  forall (fuel : nat) (w : world) (rest : list chan_resp) (e : Z),
    (K < fuel)%nat ->
    open_script (ssh w)
    = replicate K (ChanNull LIBSSH2_ERROR_EAGAIN) ++ ChanNull e :: rest ->
    e <> LIBSSH2_ERROR_EAGAIN ->
    (forall n, 0 < (poll_answer (ssh w) n).1) ->
    exists w', open_session_loop fuel w = Ok (Done (ChanNull e)) w'
      /\ count_waits AtOpen (log w') = (count_waits AtOpen (log w) + K)%nat.
Proof.
  induction K as [|K IH]; intros fuel w rest e Hfuel Hscript He Hpoll;
    (destruct fuel as [|fuel]; [lia|]); simpl in Hscript |- *.
  - rewrite bind_run. unfold libssh2_channel_open_session, recorded. simpl.
    rewrite Hscript. simpl.
    destruct (Z.eqb_spec e LIBSSH2_ERROR_EAGAIN); [contradiction|].
    eexists. split; [reflexivity|]. simpl.
    unfold count_waits. rewrite ?List.filter_app, ?length_app. simpl. lia.
  - rewrite bind_run. unfold libssh2_channel_open_session, recorded. simpl.
    rewrite Hscript. simpl. rewrite bind_run.
    unfold waitsocket. rewrite !bind_run. simpl.
    unfold wait_failed.
    pose proof (Hpoll (polls (ssh w))) as Hp.
    destruct (poll_answer (ssh w) (polls (ssh w))) as [rc errno] eqn:E. simpl in *.
    destruct (Z.ltb_spec rc 0) as [?|_]; [lia|]. simpl.
    match goal with |- context [open_session_loop fuel ?w1] =>
      destruct (IH fuel w1 rest e) as (w' & Hrun & Hcount) end.
    + lia.
    + reflexivity.
    + exact He.
    + exact Hpoll.
    + exists w'. split; [exact Hrun|].
      rewrite Hcount. simpl. unfold count_waits.
      rewrite ?List.filter_app, ?length_app. simpl. lia.
Qed.

(** X21: when the open step fails for good, after any number of
    would-block answers, each followed by a wait that reports the socket
    ready, [phypExec] returns NULL with the exit status [SSH_CMD_ERR]; it
    has waited once per would-block answer and has not sent the
    command. *)
Theorem phypExec_open_failure (K : nat) (cmd : option cstr) (es : Z) (w : world)
    (rest : list chan_resp) (e : Z) :
  open_script (ssh w)
  = replicate K (ChanNull LIBSSH2_ERROR_EAGAIN) ++ ChanNull e :: rest ->
  e <> LIBSSH2_ERROR_EAGAIN ->
  (forall n, 0 < (poll_answer (ssh w) n).1) ->
  (0 < heap w)%nat ->
  exists w',
    phypExec cmd es w = Ok (None, SSH_CMD_ERR) w'
    /\ count_waits AtOpen (log w') = (count_waits AtOpen (log w) + K)%nat
    /\ forall c, In (EvExec c) (log w') -> In (EvExec c) (log w).
Proof.
  intros Hscript He Hpoll Hheap.
  unfold phypExec. cbv zeta.
  destruct (heap w) as [|h] eqn:Hh; [lia|].
  rewrite (bind_ok alloc _ w (set_heap h w) true)
    by (unfold alloc; rewrite Hh; reflexivity).
  cbn [negb]. cbv iota.
  set (w1 := set_heap h w).
  rewrite (bind_ok (gets _) _ w1 w1 _ eq_refl).
  destruct (open_session_loop_hard K (S (length (open_script (ssh w1)))) w1 rest e)
    as (w2 & E2 & C2); try assumption.
  { change (open_script (ssh w1)) with (open_script (ssh w)). rewrite Hscript.
    rewrite length_app, length_replicate. simpl. lia. }
  rewrite (bind_ok _ _ _ _ _ E2).
  exists w2. split; [reflexivity|]. split; [exact C2|].
  intros c Hin.
  destruct (steps_ok _ _ _ _ _ (open_session_loop_no_exec _) E2) as (l & Hl & Hall).
  rewrite Hl in Hin. apply in_app_or in Hin. destruct Hin as [Hin|Hin]; [exact Hin|].
  exfalso. rewrite List.Forall_forall in Hall. exact (Hall _ Hin c eq_refl).
Qed.

(** ** Removed entries and the id -1 *)

Lemma first_uuid_tombstones (lpar_id : Z) (l : list lparPtr) :
  lpar_id <> -1 ->
  first_uuid (-1) l = None ->
  first_uuid lpar_id l <> None ->
  first_uuid (-1) (map (tombstone lpar_id) l)
  = Some (uuid_mem (replicate VIR_UUID_BUFLEN NUL)).
Proof.
  intros Hid. induction l as [|[e|] l IH]; simpl; intros Hnone Hsome.
  - contradiction.
  - destruct (Z.eqb_spec (id e) (-1)) as [|Hne]; [discriminate|].
    destruct (Z.eqb_spec (id e) lpar_id) as [Heq|Hne'].
    + simpl. reflexivity.
    + simpl. destruct (Z.eqb_spec (id e) (-1)); [contradiction|].
      apply IH; assumption.
  - apply IH; assumption.
Qed.

(** X22: a removed entry stays in the table as an entry with the id -1 and
    a uuid of zeroes, and [phypGetLparUUID] treats -1 like any id: after
    the scan of [phypUUIDTable_RemLpar] has removed an entry, a lookup of
    the id -1 succeeds and yields 16 zero bytes, where it found nothing
    before. *)
Theorem lookup_finds_removed_entry (lpar_id : Z) (w : world) (u : list byte) :
  valid_table (tbl w) ->
  lpar_id <> -1 ->
  phypGetLparUUID lpar_id w = Ok (Some u) w ->
  phypGetLparUUID (-1) w = Ok None w ->
  let w' := world_of (phypUUIDTable_RemLpar lpar_id w) in
  phypGetLparUUID (-1) w' = Ok (Some (replicate VIR_UUID_BUFLEN NUL)) w'.
Proof.
  intros Hv Hid Hfound Hnone.
  destruct (RemLpar_run lpar_id w Hv) as (w1 & E & Hl & Hn).
  cbv zeta. rewrite E. cbn [world_of].
  destruct Hv as (Hcount & Hmax & Hall).
  assert (Hsome : Forall (fun p => exists e, p = Some e) (lpars (tbl w))).
  { eapply Forall_impl; [exact Hall|]. intros p (e & -> & _). eauto. }
  rewrite (phypGetLparUUID_run _ _ Hcount Hsome) in Hfound.
  rewrite (phypGetLparUUID_run _ _ Hcount Hsome) in Hnone.
  injection Hfound as Hfound. injection Hnone as Hnone.
  rewrite phypGetLparUUID_run.
  - rewrite Hl. rewrite (first_uuid_tombstones lpar_id _ Hid Hnone)
      by (rewrite Hfound; discriminate).
    rewrite uuid_mem_id by apply length_replicate. reflexivity.
  - rewrite Hn, Hl, length_map. exact Hcount.
  - rewrite Hl. apply Forall_map. eapply Forall_impl; [exact Hsome|].
    intros p (e & ->). simpl. destruct (id e =? lpar_id); eauto.
Qed.

(** ** Starting without domains *)

#[local] Instance command_only_preorder : PreOrder command_only.
Proof.
  split.
  - intros w. repeat split. exists []. split; [symmetry; apply app_nil_r|constructor].
  - intros a b c (T1 & F1 & D1 & l1 & L1 & A1) (T2 & F2 & D2 & l2 & L2 & A2).
    repeat split; try congruence.
    exists (l1 ++ l2). split.
    + rewrite L2, L1. symmetry. apply app_assoc.
    + apply Forall_app. split; assumption.
Qed.













End Driver.

(** * Examples

    The theorems at concrete doubles.  [SSH_CMD_ERR] is taken as -3,
    [VIR_CONNECT_RO] as 1 and the flag test as [check_flags]. *)

Lemma phypExec_open_waits_witness :
  open_script (ssh (exec_world 0 0))
  = replicate 2 (ChanNull LIBSSH2_ERROR_EAGAIN) ++ ChanOk :: []
  /\ (forall n, 0 < (poll_answer (ssh (exec_world 0 0)) n).1)
  /\ (0 < heap (exec_world 0 0))%nat
  /\ count_waits AtOpen
       (log (world_of (phypExec (-3) (vb_content ls_command) 0 (exec_world 0 0))))
     = (count_waits AtOpen (log (exec_world 0 0)) + 2)%nat.
Proof.
  assert (H1 : open_script (ssh (exec_world 0 0))
               = replicate 2 (ChanNull LIBSSH2_ERROR_EAGAIN) ++ ChanOk :: [])
    by reflexivity.
  assert (H2 : forall n, 0 < (poll_answer (ssh (exec_world 0 0)) n).1)
    by (intros n; reflexivity).
  assert (H3 : (0 < heap (exec_world 0 0))%nat) by (simpl; lia).
  split; [exact H1|]. split; [exact H2|]. split; [exact H3|].
  exact (phypExec_open_waits (-3) 2 (vb_content ls_command) 0 (exec_world 0 0) []
           H1 H2 H3).
Defined.

Lemma phypExec_exit_code_witness :
  phypExec (-3) (vb_content ls_command) 0 (exec_world 0 0)
  = Ok (Some two_lines, 0) (exec_end_world (-3) 0 0)
  /\ exists l, log (exec_end_world (-3) 0 0) = log (exec_world 0 0) ++ l
       /\ (In (EvClose 0) l -> 0 = remote_exit_status (ssh (exec_world 0 0)))
       /\ (forall rc, In (EvClose rc) l -> rc <> 0 -> rc <> LIBSSH2_ERROR_EAGAIN ->
           0 = 127).
Proof.
  assert (H : phypExec (-3) (vb_content ls_command) 0 (exec_world 0 0)
              = Ok (Some two_lines, 0) (exec_end_world (-3) 0 0))
    by (vm_compute; reflexivity).
  split; [exact H|].
  exact (phypExec_exit_code (-3) _ _ _ _ _ _ H).
Defined.

(** C5 fails on the code: a remote command that exits with 127 and a close
    step that fails with a hard error give the same exit code, 127. *)
Lemma exit_code_127_is_not_a_sentinel :
  (exists w1, phypExec (-3) (vb_content ls_command) 0 (exec_world 0 127)
              = Ok (Some two_lines, 127) w1
              /\ In (EvClose 0) (log w1))
  /\ (exists w2, phypExec (-3) (vb_content ls_command) 0 (exec_world (-7) 0)
                 = Ok (Some two_lines, 127) w2
                 /\ In (EvClose (-7)) (log w2)
                 /\ remote_exit_status (ssh w2) = 0).
Proof.
  split; eexists.
  - split; [vm_compute; reflexivity|]. simpl. auto 20.
  - split; [vm_compute; reflexivity|]. split; [simpl; auto 20|reflexivity].
Qed.

Lemma phypExecBuffer_trim_witness :
  vb_error ls_command = false
  /\ phypExec (-3) (vb_content ls_command) 0 (exec_world 0 0)
     = Ok (Some two_lines, 0) (exec_end_world (-3) 0 0)
  /\ phypExecBuffer (-3) ls_command 0 true (exec_world 0 0)
     = Ok (Some (if (0 =? 0) && true then cut_at NL two_lines else two_lines), 0)
          (exec_end_world (-3) 0 0)
  /\ exists rest, two_lines = cut_at NL two_lines ++ rest
       /\ ~ In NL (cut_at NL two_lines)
       /\ (rest = [] \/ exists r, rest = NL :: r).
Proof.
  assert (H1 : vb_error ls_command = false) by reflexivity.
  assert (H2 : phypExec (-3) (vb_content ls_command) 0 (exec_world 0 0)
               = Ok (Some two_lines, 0) (exec_end_world (-3) 0 0))
    by (vm_compute; reflexivity).
  split; [exact H1|]. split; [exact H2|].
  exact (phypExecBuffer_trim (-3) ls_command 0 true _ _ _ _ H1 H2).
Defined.

Lemma phypConnectOpen_path_check_witness :
  Some (mk_conn (Some uri_with_semicolon)) ≫= uri = Some uri_with_semicolon
  /\ path uri_with_semicolon = Some (lit "/sys;reboot"%string)
  /\ (contains_specialcharacters (lit "/sys;reboot"%string) = true
      <-> exists c, In c (take (strlen (lit "/sys;reboot"%string))
                            (lit "/sys;reboot"%string))
                    /\ is_specialcharacter c = true)
  /\ (contains_specialcharacters (lit "/sys;reboot"%string) = true ->
      exists st w', phypConnectOpen (-3) 1 check_flags
                      (Some (mk_conn (Some uri_with_semicolon))) 0 idle_world
                    = Ok st w'
        /\ st <> VIR_DRV_OPEN_SUCCESS
        /\ log w' = log idle_world).
Proof.
  assert (H1 : Some (mk_conn (Some uri_with_semicolon)) ≫= uri
               = Some uri_with_semicolon) by reflexivity.
  assert (H2 : path uri_with_semicolon = Some (lit "/sys;reboot"%string))
    by reflexivity.
  split; [exact H1|]. split; [exact H2|].
  exact (phypConnectOpen_path_check (-3) 1 check_flags _ 0 _ _ idle_world H1 H2).
Defined.

Lemma table_world_valid : valid_table (tbl table_world).
Proof.
  split; [reflexivity|]. split; [reflexivity|].
  repeat constructor; eexists; (split; reflexivity).
Defined.

Lemma RemLpar_reads_past_the_end_witness :
  valid_table (tbl table_world)
  /\ exists w',
       phypUUIDTable_RemLpar 3 table_world
       = Crash (OutOfBounds (Z.to_nat (nlpars (tbl table_world)))) w'
       /\ lpars (tbl w') = map (tombstone 3) (lpars (tbl table_world))
       /\ nlpars (tbl w') = nlpars (tbl table_world).
Proof.
  split; [exact table_world_valid|].
  exact (RemLpar_reads_past_the_end 3 table_world table_world_valid).
Defined.

Lemma lookup_after_add_and_remove_witness :
  valid_table (tbl table_world)
  /\ length uuid_b = VIR_UUID_BUFLEN
  /\ 9 <> -1
  /\ phypUUIDTable_AddLpar uuid_b 9 table_world = Ok 0 table_world_9
  /\ (phypGetLparUUID 9 table_world = Ok None table_world ->
      phypGetLparUUID 9 table_world_9 = Ok (Some uuid_b) table_world_9)
  /\ (forall old, phypGetLparUUID 9 table_world = Ok (Some old) table_world ->
      phypGetLparUUID 9 table_world_9 = Ok (Some old) table_world_9)
  /\ (let w'' := world_of (phypUUIDTable_RemLpar 9 table_world) in
      phypGetLparUUID 9 w'' = Ok None w'').
Proof.
  assert (H2 : length uuid_b = VIR_UUID_BUFLEN) by reflexivity.
  assert (H3 : 9 <> -1) by lia.
  assert (H4 : phypUUIDTable_AddLpar uuid_b 9 table_world = Ok 0 table_world_9)
    by (vm_compute; reflexivity).
  split; [exact table_world_valid|]. split; [exact H2|]. split; [exact H3|].
  split; [exact H4|].
  exact (lookup_after_add_and_remove uuid_b 9 table_world table_world_9
           table_world_valid H2 H3 H4).
Defined.

(** C2 fails on the code: when an entry has the id already, lookup after
    add returns the uuid of that older entry. *)
Lemma lookup_after_add_returns_older_uuid :
  phypUUIDTable_AddLpar uuid_b 3 table_world = Ok 0 table_world_3
  /\ phypGetLparUUID 3 table_world_3 = Ok (Some uuid_a) table_world_3
  /\ uuid_a <> uuid_b.
Proof.
  split; [vm_compute; reflexivity|]. split; [vm_compute; reflexivity|discriminate].
Qed.

Lemma nlpars_never_decreases_witness :
  0 <= nlpars (tbl table_world) < SIZE_MAX
  /\ nlpars (tbl (world_of (phypUUIDTable_AddLpar uuid_b 3 table_world)))
     = nlpars (tbl table_world) + 1
  /\ nlpars (tbl (world_of (phypUUIDTable_RemLpar 3 table_world)))
     = nlpars (tbl table_world)
  /\ length (lpars (tbl (world_of (phypUUIDTable_RemLpar 3 table_world))))
     = length (lpars (tbl table_world))
  /\ tbl (world_of (phypGetLparUUID 3 table_world)) = tbl table_world
  /\ forall ops, nlpars (tbl table_world) + Z.of_nat (length ops) <= SIZE_MAX ->
       nlpars (tbl table_world) <= nlpars (tbl (run_ops ops table_world)).
Proof.
  assert (H : 0 <= nlpars (tbl table_world) < SIZE_MAX)
    by (split; [simpl; lia|reflexivity]).
  split; [exact H|].
  exact (nlpars_never_decreases uuid_b 3 table_world H).
Defined.

Lemma table_file_round_trip_witness :
  Forall wf_lpar two_entries
  /\ tbl table_world = mk_table (Z.of_nat (length two_entries)) (map Some two_entries)
  /\ phypUUIDTable_WriteFile table_world = Ok 0 written_world
  /\ file (fs loading_world) = file (fs written_world)
  /\ open_ok (fs loading_world) = true
  /\ nlpars (tbl loading_world) = Z.of_nat (length two_entries)
  /\ (length two_entries < heap loading_world)%nat
  /\ file (fs written_world) = Some (concat (map record_bytes two_entries))
  /\ length (concat (map record_bytes two_entries))
     = (length two_entries * (4 + 16))%nat
  /\ exists w3, phypUUIDTable_ReadFile loading_world = Ok 0 w3
       /\ tbl w3 = mk_table (Z.of_nat (length two_entries)) (map Some two_entries).
Proof.
  assert (H1 : Forall wf_lpar two_entries).
  { repeat constructor; simpl; unfold INT_MIN, INT_MAX; lia. }
  assert (H2 : tbl table_world
               = mk_table (Z.of_nat (length two_entries)) (map Some two_entries))
    by reflexivity.
  assert (H3 : phypUUIDTable_WriteFile table_world = Ok 0 written_world)
    by (vm_compute; reflexivity).
  assert (H4 : file (fs loading_world) = file (fs written_world)) by reflexivity.
  assert (H5 : open_ok (fs loading_world) = true) by reflexivity.
  assert (H6 : nlpars (tbl loading_world) = Z.of_nat (length two_entries))
    by reflexivity.
  assert (H7 : (length two_entries < heap loading_world)%nat)
    by (vm_compute; lia).
  do 7 (split; [assumption|]).
  exact (table_file_round_trip two_entries table_world written_world loading_world
           H1 H2 H3 H4 H5 H6 H7).
Defined.



(** ** The further properties at concrete doubles *)

Lemma phypExec_allocation_failure_witness :
  heap no_heap_world = O
  /\ phypExec (-3) (vb_content ls_command) 5 no_heap_world = Ok (None, 5) no_heap_world
  /\ phypGetSystemType (-3) no_heap_world = Ok HMC no_heap_world.
Proof.
  assert (H : heap no_heap_world = O) by reflexivity.
  split; [exact H|].
  exact (phypExec_allocation_failure (-3) (vb_content ls_command) 5 no_heap_world H).
Defined.

Lemma phypExecInt_result_witness :
  phypExecInt (-3) ls_command (-1) count_world
  = Ok (0, 42) (world_of (phypExecInt (-3) ls_command (-1) count_world))
  /\ (0 = 0 \/ 0 = -1)
  /\ (0 = -1 -> 42 = -1)
  /\ (0 = 0 -> exists str rest,
        phypExecBuffer (-3) ls_command 0 true count_world
        = Ok (Some str, 0) (world_of (phypExecInt (-3) ls_command (-1) count_world))
        /\ virStrToLong_i str = Some (42, rest)).
Proof.
  assert (H : phypExecInt (-3) ls_command (-1) count_world
              = Ok (0, 42) (world_of (phypExecInt (-3) ls_command (-1) count_world)))
    by (vm_compute; reflexivity).
  split; [exact H|].
  exact (phypExecInt_result (-3) ls_command (-1) count_world _ 0 42 H).
Defined.

Lemma AddLpar_allocation_failure_witness :
  valid_table (tbl one_allocation_table_world)
  /\ (heap one_allocation_table_world <= 1)%nat
  /\ exists w' s,
       phypUUIDTable_AddLpar uuid_b 9 one_allocation_table_world = Ok (-1) w'
       /\ nlpars (tbl w') = nlpars (tbl one_allocation_table_world) + 1
       /\ lpars (tbl w')
          = lpars (tbl one_allocation_table_world)
              ++ replicate (heap one_allocation_table_world) None
       /\ fs w' = fs one_allocation_table_world
       /\ s = match heap one_allocation_table_world with
              | O => OutOfBounds (length (lpars (tbl one_allocation_table_world)))
              | S _ => NullDeref
              end
       /\ forall other,
            first_uuid other (lpars (tbl one_allocation_table_world)) = None ->
            phypGetLparUUID other w' = Crash s w'.
Proof.
  assert (H1 : valid_table (tbl one_allocation_table_world)) by exact table_world_valid.
  assert (H2 : (heap one_allocation_table_world <= 1)%nat) by (simpl; lia).
  split; [exact H1|]. split; [exact H2|].
  exact (AddLpar_allocation_failure uuid_b 9 one_allocation_table_world H1 H2).
Defined.

Lemma WriteFile_disk_full_witness :
  tbl full_disk_world = mk_table (Z.of_nat (length two_entries)) (map Some two_entries)
  /\ creat_ok (fs full_disk_world) = true
  /\ (free_bytes (fs full_disk_world) < length two_entries * 20)%nat
  /\ exists w',
       phypUUIDTable_WriteFile full_disk_world = Ok (-1) w'
       /\ file (fs w')
          = Some (take (free_bytes (fs full_disk_world))
                    (concat (map record_bytes two_entries)))
       /\ tbl w' = tbl full_disk_world.
Proof.
  assert (H1 : tbl full_disk_world
               = mk_table (Z.of_nat (length two_entries)) (map Some two_entries))
    by reflexivity.
  assert (H2 : creat_ok (fs full_disk_world) = true) by reflexivity.
  assert (H3 : (free_bytes (fs full_disk_world) < length two_entries * 20)%nat)
    by (simpl; lia).
  split; [exact H1|]. split; [exact H2|]. split; [exact H3|].
  exact (WriteFile_disk_full two_entries full_disk_world H1 H2 H3).
Defined.

Lemma ReadFile_short_file_witness :
  file (fs short_file_world) = Some short_file
  /\ open_ok (fs short_file_world) = true
  /\ (0 < heap short_file_world)%nat
  /\ (length short_file < Z.to_nat (nlpars (tbl short_file_world)) * 20)%nat
  /\ exists w',
       phypUUIDTable_ReadFile short_file_world = Ok (-1) w'
       /\ nlpars (tbl w') = nlpars (tbl short_file_world)
       /\ length (lpars (tbl w')) = Z.to_nat (nlpars (tbl short_file_world))
       /\ file (fs w') = Some short_file.
Proof.
  assert (H1 : file (fs short_file_world) = Some short_file) by reflexivity.
  assert (H2 : open_ok (fs short_file_world) = true) by reflexivity.
  assert (H3 : (0 < heap short_file_world)%nat) by (simpl; lia).
  assert (H4 : (length short_file < Z.to_nat (nlpars (tbl short_file_world)) * 20)%nat)
    by (vm_compute; lia).
  split; [exact H1|]. split; [exact H2|]. split; [exact H3|]. split; [exact H4|].
  exact (ReadFile_short_file short_file_world short_file H1 H2 H3 H4).
Defined.

Lemma ReadFile_allocation_failure_witness :
  can_open loading_without_heap_world = true
  /\ heap loading_without_heap_world = O
  /\ exists w',
       phypUUIDTable_ReadFile loading_without_heap_world = Ok 0 w'
       /\ lpars (tbl w') = []
       /\ nlpars (tbl w') = nlpars (tbl loading_without_heap_world)
       /\ (0 < nlpars (tbl loading_without_heap_world) ->
           forall lpar_id, phypGetLparUUID lpar_id w' = Crash (OutOfBounds 0) w').
Proof.
  assert (H1 : can_open loading_without_heap_world = true) by (vm_compute; reflexivity).
  assert (H2 : heap loading_without_heap_world = O) by reflexivity.
  split; [exact H1|]. split; [exact H2|].
  exact (ReadFile_allocation_failure loading_without_heap_world H1 H2).
Defined.

Lemma Init_failure_then_Free_witness :
  0 < 2
  /\ phypUUIDTable_Pull (set_nlpars 2 create_fails_world)
     = Ok (-1) (world_of (phypUUIDTable_Pull (set_nlpars 2 create_fails_world)))
  /\ Init_table 2 [1; 2] create_fails_world
     = Ok (-1) (world_of (Init_table 2 [1; 2] create_fails_world))
  /\ nlpars (tbl (world_of (Init_table 2 [1; 2] create_fails_world))) = 2
  /\ lpars (tbl (world_of (Init_table 2 [1; 2] create_fails_world))) = []
  /\ open_failure true (world_of (Init_table 2 [1; 2] create_fails_world))
     = Crash (OutOfBounds 0) (world_of (Init_table 2 [1; 2] create_fails_world)).
Proof.
  assert (H1 : 0 < 2) by lia.
  assert (H2 : phypUUIDTable_Pull (set_nlpars 2 create_fails_world)
               = Ok (-1) (world_of (phypUUIDTable_Pull (set_nlpars 2 create_fails_world))))
    by (vm_compute; reflexivity).
  assert (H3 : Init_table 2 [1; 2] create_fails_world
               = Ok (-1) (world_of (Init_table 2 [1; 2] create_fails_world)))
    by (vm_compute; reflexivity).
  split; [exact H1|]. split; [exact H2|]. split; [exact H3|].
  exact (Init_failure_then_Free 2 [1; 2] create_fails_world _ _ H1 H2 H3).
Defined.


Lemma GetLparUUID_missing_id_witness :
  valid_table (tbl table_world)
  /\ exists r,
       phypGetLparUUID 9 table_world = Ok r table_world
       /\ (r = None <-> forall e, In (Some e) (lpars (tbl table_world)) -> id e <> 9)
       /\ (forall u, r = Some u ->
           length u = VIR_UUID_BUFLEN
           /\ exists e, In (Some e) (lpars (tbl table_world)) /\ id e = 9 /\ uuid e = u).
Proof.
  split; [exact table_world_valid|].
  exact (GetLparUUID_missing_id 9 table_world table_world_valid).
Defined.

Lemma phypConnectOpen_declines_witness :
  phypConnectOpen (-3) 1 check_flags (Some (mk_conn (Some uri_of_another_driver))) 0
                  idle_world
  = Ok VIR_DRV_OPEN_DECLINED idle_world
  /\ (VIR_DRV_OPEN_DECLINED = VIR_DRV_OPEN_DECLINED
      <-> check_flags 1 0 = false
          /\ (Some (mk_conn (Some uri_of_another_driver)) ≫= uri) ≫= scheme
             <> Some (lit "phyp"%string))
  /\ (VIR_DRV_OPEN_DECLINED = VIR_DRV_OPEN_DECLINED -> idle_world = idle_world)
  /\ (check_flags 1 0 = false ->
      (Some (mk_conn (Some uri_of_another_driver)) ≫= uri) ≫= scheme
      = Some (lit "phyp"%string) ->
      (Some (mk_conn (Some uri_of_another_driver)) ≫= uri) ≫= server = None ->
      VIR_DRV_OPEN_DECLINED = VIR_DRV_OPEN_ERROR /\ idle_world = idle_world).
Proof.
  assert (H : phypConnectOpen (-3) 1 check_flags
                (Some (mk_conn (Some uri_of_another_driver))) 0 idle_world
              = Ok VIR_DRV_OPEN_DECLINED idle_world) by reflexivity.
  split; [exact H|].
  exact (phypConnectOpen_declines (-3) 1 check_flags _ 0 idle_world idle_world _ H).
Defined.

Lemma phypConnectOpen_success_witness :
  phypConnectOpen (-3) 1 check_flags (Some (mk_conn (Some uri_with_two_components))) 0
                  open_world
  = Ok VIR_DRV_OPEN_SUCCESS
       (world_of (phypConnectOpen (-3) 1 check_flags
                    (Some (mk_conn (Some uri_with_two_components))) 0 open_world))
  /\ managed_system
       (drv (world_of (phypConnectOpen (-3) 1 check_flags
                         (Some (mk_conn (Some uri_with_two_components))) 0 open_world)))
     = Some (lit "sys"%string)
  /\ exists u,
       Some (mk_conn (Some uri_with_two_components)) ≫= uri = Some u
       /\ managed_system
            (drv (world_of (phypConnectOpen (-3) 1 check_flags
                              (Some (mk_conn (Some uri_with_two_components))) 0
                              open_world)))
          = first_component <$> path u
       /\ system_type
            (drv (world_of (phypConnectOpen (-3) 1 check_flags
                              (Some (mk_conn (Some uri_with_two_components))) 0
                              open_world))) <> -1
       /\ In EvSSHSession
            (log (world_of (phypConnectOpen (-3) 1 check_flags
                              (Some (mk_conn (Some uri_with_two_components))) 0
                              open_world)))
       /\ forall ms c,
            managed_system
              (drv (world_of (phypConnectOpen (-3) 1 check_flags
                                (Some (mk_conn (Some uri_with_two_components))) 0
                                open_world))) = Some ms ->
            In c ms -> c <> "/"%byte /\ is_specialcharacter c = false.
Proof.
  assert (H : phypConnectOpen (-3) 1 check_flags
                (Some (mk_conn (Some uri_with_two_components))) 0 open_world
              = Ok VIR_DRV_OPEN_SUCCESS
                   (world_of (phypConnectOpen (-3) 1 check_flags
                                (Some (mk_conn (Some uri_with_two_components))) 0
                                open_world)))
    by (vm_compute; reflexivity).
  split; [exact H|]. split; [vm_compute; reflexivity|].
  exact (phypConnectOpen_success (-3) 1 check_flags _ 0 open_world _ H).
Defined.

Lemma two_reads_are_text : Forall text_chunk two_reads.
Proof.
  repeat constructor; try discriminate;
    try (intros H; simpl in H; intuition discriminate);
    apply Nat.ltb_lt; vm_compute; reflexivity.
Qed.

Lemma phypExec_output_witness :
  open_script (ssh two_reads_world) = ChanOk :: []
  /\ exec_script (ssh two_reads_world) = 0 :: []
  /\ read_script (ssh two_reads_world) = map ReadData two_reads ++ ReadData [] :: []
  /\ close_script (ssh two_reads_world) = 0 :: []
  /\ (length two_reads < heap two_reads_world)%nat
  /\ Forall text_chunk two_reads
  /\ with_stale [] two_reads
     = lit "hello"%string ++ [NL] ++ lit "hi"%string ++ [NL] ++ lit "lo"%string ++ [NL]
  /\ (exists w',
        phypExec (-3) (Some (lit "ls"%string)) 0 two_reads_world
        = Ok (match two_reads with
              | [] => None
              | _ => Some (with_stale [] two_reads)
              end, remote_exit_status (ssh two_reads_world)) w')
  /\ (growing 0 two_reads -> with_stale [] two_reads = concat two_reads)
  /\ (forall a b, two_reads = [a; b] ->
      with_stale [] two_reads = a ++ b ++ drop (length b) a).
Proof.
  assert (H1 : open_script (ssh two_reads_world) = ChanOk :: []) by reflexivity.
  assert (H2 : exec_script (ssh two_reads_world) = 0 :: []) by reflexivity.
  assert (H3 : read_script (ssh two_reads_world)
               = map ReadData two_reads ++ ReadData [] :: []) by reflexivity.
  assert (H4 : close_script (ssh two_reads_world) = 0 :: []) by reflexivity.
  assert (H5 : (length two_reads < heap two_reads_world)%nat) by (simpl; lia).
  do 5 (split; [assumption|]). split; [exact two_reads_are_text|].
  split; [reflexivity|].
  exact (phypExec_output (-3) (lit "ls"%string) 0 two_reads two_reads_world [] [] [] []
           H1 H2 H3 H4 H5 two_reads_are_text).
Defined.

Lemma Pull_copies_remote_file_witness :
  scp_recv_script (ssh (remote_file_world three_bytes))
  = RecvOk (Z.of_nat (length three_bytes)) :: []
  /\ read_script (ssh (remote_file_world three_bytes))
     = map ReadData [three_bytes] ++ ReadData [] :: []
  /\ concat [three_bytes] = three_bytes
  /\ Forall (fun c => c <> []) [three_bytes]
  /\ Z.of_nat (length three_bytes) <= INT_MAX
  /\ (length three_bytes <= free_bytes (fs (remote_file_world three_bytes)))%nat
  /\ creat_ok (fs (remote_file_world three_bytes)) = true
  /\ close_ok (fs (remote_file_world three_bytes)) = true
  /\ (0 < heap (remote_file_world three_bytes))%nat
  /\ exists w',
       phypUUIDTable_Pull (remote_file_world three_bytes) = Ok 0 w'
       /\ file (fs w') = Some three_bytes
       /\ tbl w' = tbl (remote_file_world three_bytes)
       /\ open_ok (fs w') = open_ok (fs (remote_file_world three_bytes))
       /\ heap w' = (heap (remote_file_world three_bytes) - 1)%nat.
Proof.
  assert (H1 : scp_recv_script (ssh (remote_file_world three_bytes))
               = RecvOk (Z.of_nat (length three_bytes)) :: []) by reflexivity.
  assert (H2 : read_script (ssh (remote_file_world three_bytes))
               = map ReadData [three_bytes] ++ ReadData [] :: []) by reflexivity.
  assert (H3 : concat [three_bytes] = three_bytes) by reflexivity.
  assert (H4 : Forall (fun c : list byte => c <> []) [three_bytes])
    by (repeat constructor; discriminate).
  assert (H5 : Z.of_nat (length three_bytes) <= INT_MAX)
    by (unfold INT_MAX; simpl; lia).
  assert (H6 : (length three_bytes <= free_bytes (fs (remote_file_world three_bytes)))%nat)
    by (simpl; lia).
  assert (H7 : creat_ok (fs (remote_file_world three_bytes)) = true) by reflexivity.
  assert (H8 : close_ok (fs (remote_file_world three_bytes)) = true) by reflexivity.
  assert (H9 : (0 < heap (remote_file_world three_bytes))%nat) by (simpl; lia).
  do 9 (split; [assumption|]).
  exact (Pull_copies_remote_file three_bytes [three_bytes] [] [] []
           (remote_file_world three_bytes) H1 H2 H3 H4 H5 H6 H7 H8 H9).
Defined.

Lemma two_entries_wf : Forall wf_lpar two_entries.
Proof. repeat constructor; simpl; unfold INT_MIN, INT_MAX; lia. Qed.

Lemma Init_loads_server_table_witness :
  Forall wf_lpar two_entries
  /\ scp_recv_script (ssh (remote_file_world two_records))
     = RecvOk (Z.of_nat (length (concat (map record_bytes two_entries)))) :: []
  /\ read_script (ssh (remote_file_world two_records))
     = map ReadData [two_records] ++ ReadData [] :: []
  /\ concat [two_records] = concat (map record_bytes two_entries)
  /\ Forall (fun c => c <> []) [two_records]
  /\ Z.of_nat (length two_entries * 20) <= INT_MAX
  /\ (length two_entries * 20 <= free_bytes (fs (remote_file_world two_records)))%nat
  /\ creat_ok (fs (remote_file_world two_records)) = true
  /\ close_ok (fs (remote_file_world two_records)) = true
  /\ open_ok (fs (remote_file_world two_records)) = true
  /\ (length two_entries + 1 < heap (remote_file_world two_records))%nat
  /\ exists w',
       Init_table (Z.of_nat (length two_entries)) [] (remote_file_world two_records)
       = Ok 0 w'
       /\ tbl w' = mk_table (Z.of_nat (length two_entries)) (map Some two_entries).
Proof.
  assert (H1 : scp_recv_script (ssh (remote_file_world two_records))
               = RecvOk (Z.of_nat (length (concat (map record_bytes two_entries)))) :: [])
    by reflexivity.
  assert (H2 : read_script (ssh (remote_file_world two_records))
               = map ReadData [two_records] ++ ReadData [] :: []) by reflexivity.
  assert (H3 : concat [two_records] = concat (map record_bytes two_entries))
    by (simpl; apply app_nil_r).
  assert (H4 : Forall (fun c : list byte => c <> []) [two_records]).
  { repeat constructor. intros H. apply (f_equal length) in H.
    vm_compute in H. discriminate H. }
  assert (H5 : Z.of_nat (length two_entries * 20) <= INT_MAX)
    by (unfold INT_MAX; simpl; lia).
  assert (H6 : (length two_entries * 20
                <= free_bytes (fs (remote_file_world two_records)))%nat)
    by (simpl; lia).
  assert (H7 : creat_ok (fs (remote_file_world two_records)) = true) by reflexivity.
  assert (H8 : close_ok (fs (remote_file_world two_records)) = true) by reflexivity.
  assert (H9 : open_ok (fs (remote_file_world two_records)) = true) by reflexivity.
  assert (H10 : (length two_entries + 1 < heap (remote_file_world two_records))%nat)
    by (simpl; lia).
  split; [exact two_entries_wf|]. do 10 (split; [assumption|]).
  exact (Init_loads_server_table two_entries [] [two_records] [] [] []
           (remote_file_world two_records) two_entries_wf
           H1 H2 H3 H4 H5 H6 H7 H8 H9 H10).
Defined.

Lemma Push_sends_whole_file_witness :
  file (fs whole_block_world) = Some (lit "0123456789"%string)
  /\ open_ok (fs whole_block_world) = true
  /\ fread_ok (fs whole_block_world) = true
  /\ (0 < heap whole_block_world)%nat
  /\ scp_send_script (ssh whole_block_world) = ChanOk :: []
  /\ write_script (ssh whole_block_world) = map WriteAccept [1024%nat] ++ []
  /\ Forall (fun k => (1024 <= k)%nat) [1024%nat]
  /\ (length (lit "0123456789"%string) <= 1024 * length [1024%nat])%nat
  /\ exists w',
       phypUUIDTable_Push whole_block_world = Ok 0 w'
       /\ sent_bytes (ssh w')
          = sent_bytes (ssh whole_block_world) ++ lit "0123456789"%string
       /\ In (EvScpSend (Z.land 511 (st_mode (fs whole_block_world)))
                (Z.of_nat (length (lit "0123456789"%string)))) (log w')
       /\ file (fs w') = Some (lit "0123456789"%string)
       /\ tbl w' = tbl whole_block_world.
Proof.
  assert (H1 : file (fs whole_block_world) = Some (lit "0123456789"%string))
    by reflexivity.
  assert (H2 : open_ok (fs whole_block_world) = true) by reflexivity.
  assert (H3 : fread_ok (fs whole_block_world) = true) by reflexivity.
  assert (H4 : (0 < heap whole_block_world)%nat) by (simpl; lia).
  assert (H5 : scp_send_script (ssh whole_block_world) = ChanOk :: []) by reflexivity.
  assert (H6 : write_script (ssh whole_block_world) = map WriteAccept [1024%nat] ++ [])
    by (vm_compute; reflexivity).
  assert (H7 : Forall (fun k => (1024 <= k)%nat) [1024%nat])
    by (repeat constructor).
  assert (H8 : (length (lit "0123456789"%string) <= 1024 * length [1024%nat])%nat)
    by (apply Nat.leb_le; vm_compute; reflexivity).
  do 8 (split; [assumption|]).
  exact (Push_sends_whole_file (lit "0123456789"%string) [1024%nat] [] []
           whole_block_world H1 H2 H3 H4 H5 H6 H7 H8).
Defined.

Lemma AddLpar_stores_everywhere_witness :
  tbl table_world = mk_table (Z.of_nat (length two_entries)) (map Some two_entries)
  /\ Z.of_nat (length two_entries) < SIZE_MAX
  /\ fs_answers table_world = (true, true, true, true, st_mode (fs table_world))
  /\ (S (length two_entries) * 20 <= free_bytes (fs table_world))%nat
  /\ (2 < heap table_world)%nat
  /\ scp_send_script (ssh table_world) = ChanOk :: [ChanOk]
  /\ write_script (ssh table_world)
     = map WriteAccept [1024%nat] ++ [WriteAccept 1024]
  /\ Forall (fun k => (1024 <= k)%nat) [1024%nat]
  /\ (S (length two_entries) * 20 <= 1024 * length [1024%nat])%nat
  /\ exists w',
       phypUUIDTable_AddLpar uuid_b 9 table_world = Ok 0 w'
       /\ tbl w' = mk_table (Z.of_nat (length two_entries) + 1)
                     (map Some (two_entries ++ [mk_lpar 9 (uuid_mem uuid_b)]))
       /\ file (fs w')
          = Some (concat (map record_bytes
                            (two_entries ++ [mk_lpar 9 (uuid_mem uuid_b)])))
       /\ sent_bytes (ssh w')
          = sent_bytes (ssh table_world)
              ++ concat (map record_bytes
                           (two_entries ++ [mk_lpar 9 (uuid_mem uuid_b)])).
Proof.
  assert (H1 : tbl table_world
               = mk_table (Z.of_nat (length two_entries)) (map Some two_entries))
    by reflexivity.
  assert (H2 : Z.of_nat (length two_entries) < SIZE_MAX) by reflexivity.
  assert (H3 : fs_answers table_world = (true, true, true, true, st_mode (fs table_world)))
    by reflexivity.
  assert (H4 : (S (length two_entries) * 20 <= free_bytes (fs table_world))%nat)
    by (apply Nat.leb_le; vm_compute; reflexivity).
  assert (H5 : (2 < heap table_world)%nat) by (simpl; lia).
  assert (H6 : scp_send_script (ssh table_world) = ChanOk :: [ChanOk]) by reflexivity.
  assert (H7 : write_script (ssh table_world)
               = map WriteAccept [1024%nat] ++ [WriteAccept 1024])
    by (vm_compute; reflexivity).
  assert (H8 : Forall (fun k => (1024 <= k)%nat) [1024%nat]) by (repeat constructor).
  assert (H9 : (S (length two_entries) * 20 <= 1024 * length [1024%nat])%nat)
    by (apply Nat.leb_le; vm_compute; reflexivity).
  do 9 (split; [assumption|]).
  exact (AddLpar_stores_everywhere two_entries uuid_b 9 [1024%nat] [WriteAccept 1024]
           [ChanOk] table_world H1 H2 H3 H4 H5 H6 H7 H8 H9).
Defined.

Lemma no_NUL_in_text : ~ In NUL (lit "a;b|c"%string).
Proof. intros H. simpl in H. intuition discriminate. Qed.

Lemma escape_specialcharacters_spec_witness :
  ~ In NUL (lit "a;b|c"%string)
  /\ escape_specialcharacters (lit "a;b|c"%string ++ [NUL]) idle_world
     = Ok (Some (lit "abc"%string)) (set_heap 63 idle_world)
  /\ (lit "a;b|c"%string = [] ->
      escape_specialcharacters (lit "a;b|c"%string ++ NUL :: []) idle_world
      = Ok None idle_world)
  /\ (heap idle_world = O ->
      escape_specialcharacters (lit "a;b|c"%string ++ NUL :: []) idle_world
      = Ok None idle_world)
  /\ (lit "a;b|c"%string <> [] -> forall h, heap idle_world = S h ->
      escape_specialcharacters (lit "a;b|c"%string ++ NUL :: []) idle_world
      = Ok (Some (List.filter (fun c => negb (is_specialcharacter c))
                    (lit "a;b|c"%string))) (set_heap h idle_world))
  /\ (forall z',
        contains_specialcharacters
          (List.filter (fun c => negb (is_specialcharacter c)) (lit "a;b|c"%string)
             ++ NUL :: z') = false)
  /\ (contains_specialcharacters (lit "a;b|c"%string ++ NUL :: []) = false ->
      List.filter (fun c => negb (is_specialcharacter c)) (lit "a;b|c"%string)
      = lit "a;b|c"%string).
Proof.
  split; [exact no_NUL_in_text|]. split; [vm_compute; reflexivity|].
  exact (escape_specialcharacters_spec (lit "a;b|c"%string) [] idle_world no_NUL_in_text).
Defined.

Lemma two_names_are_lines : Forall (fun l => ~ In NL l) two_names.
Proof. repeat constructor; intros H; simpl in H; intuition discriminate. Qed.

Lemma ListDefinedDomains_lines_witness :
  Forall (fun l => ~ In NL l) two_names
  /\ ~ In NL (lit "vm3"%string)
  /\ 0 <= 0
  /\ 0 <= 2
  /\ length [None; Some (lit "old"%string)] = Z.to_nat 2
  /\ (Nat.min (Z.to_nat 2) (length two_names) <= heap idle_world)%nat
  /\ exists w',
       ListDefinedDomains_names (Some names_output, 0)
         [None; Some (lit "old"%string)] 2 idle_world
       = Ok (Z.of_nat (Nat.min (Z.to_nat 2) (length two_names)),
             map Some (take (Nat.min (Z.to_nat 2) (length two_names)) two_names)
               ++ drop (Nat.min (Z.to_nat 2) (length two_names))
                    [None; Some (lit "old"%string)]) w'.
Proof.
  assert (H2 : ~ In NL (lit "vm3"%string))
    by (intros H; simpl in H; intuition discriminate).
  assert (H3 : 0 <= 0) by lia.
  assert (H4 : 0 <= 2) by lia.
  assert (H5 : length [@None cstr; Some (lit "old"%string)] = Z.to_nat 2) by reflexivity.
  assert (H6 : (Nat.min (Z.to_nat 2) (length two_names) <= heap idle_world)%nat)
    by (simpl; lia).
  split; [exact two_names_are_lines|]. do 5 (split; [assumption|]).
  exact (ListDefinedDomains_lines two_names (lit "vm3"%string) 0 2
           [None; Some (lit "old"%string)] idle_world two_names_are_lines H2 H3 H4 H5 H6).
Defined.


Lemma phypBuildLpar_result_witness :
  cur_balloon def_without_memory = 0
  /\ phypBuildLpar (-3) def_without_memory table_world = Ok (-1) table_world.
Proof.
  assert (H : cur_balloon def_without_memory = 0) by reflexivity.
  split; [exact H|].
  exact (proj1 (phypBuildLpar_result (-3) def_without_memory table_world)
           (or_introl H)).
Defined.

Lemma phypExec_open_failure_witness :
  open_script (ssh open_fails_world)
  = replicate 1 (ChanNull LIBSSH2_ERROR_EAGAIN) ++ ChanNull (-7) :: []
  /\ -7 <> LIBSSH2_ERROR_EAGAIN
  /\ (forall n, 0 < (poll_answer (ssh open_fails_world) n).1)
  /\ (0 < heap open_fails_world)%nat
  /\ exists w',
       phypExec (-3) (vb_content ls_command) 0 open_fails_world = Ok (None, -3) w'
       /\ count_waits AtOpen (log w')
          = (count_waits AtOpen (log open_fails_world) + 1)%nat
       /\ forall c, In (EvExec c) (log w') -> In (EvExec c) (log open_fails_world).
Proof.
  assert (H1 : open_script (ssh open_fails_world)
               = replicate 1 (ChanNull LIBSSH2_ERROR_EAGAIN) ++ ChanNull (-7) :: [])
    by reflexivity.
  assert (H2 : -7 <> LIBSSH2_ERROR_EAGAIN) by discriminate.
  assert (H3 : forall n, 0 < (poll_answer (ssh open_fails_world) n).1)
    by (intros n; reflexivity).
  assert (H4 : (0 < heap open_fails_world)%nat) by (simpl; lia).
  do 4 (split; [assumption|]).
  exact (phypExec_open_failure (-3) 1 (vb_content ls_command) 0 open_fails_world []
           (-7) H1 H2 H3 H4).
Defined.

Lemma lookup_finds_removed_entry_witness :
  valid_table (tbl table_world)
  /\ 3 <> -1
  /\ phypGetLparUUID 3 table_world = Ok (Some uuid_a) table_world
  /\ phypGetLparUUID (-1) table_world = Ok None table_world
  /\ (let w' := world_of (phypUUIDTable_RemLpar 3 table_world) in
      phypGetLparUUID (-1) w' = Ok (Some (replicate VIR_UUID_BUFLEN NUL)) w').
Proof.
  assert (H2 : 3 <> -1) by discriminate.
  assert (H3 : phypGetLparUUID 3 table_world = Ok (Some uuid_a) table_world)
    by (vm_compute; reflexivity).
  assert (H4 : phypGetLparUUID (-1) table_world = Ok None table_world)
    by (vm_compute; reflexivity).
  split; [exact table_world_valid|]. do 3 (split; [assumption|]).
  exact (lookup_finds_removed_entry 3 table_world uuid_a table_world_valid H2 H3 H4).
Defined.

